(** * Product comparison agent: the aggregation route and its logger

    A shallow embedding of [app/api/compare-products/route.ts]
    (functions [POST], [scrapeProductDataWithFallback],
    [createIntelligentFallback], [mergeProductData], [generateComparison],
    [generateReadme]), of the [MaximLogger] class of [lib/maxim-logger.ts],
    of the simulated scrapers of [lib/playwright-scraper.ts] and
    [lib/puppeteer-scraper.ts], of the guard and the aggregation of
    [lib/scrapybara-browser.ts], and of the input checks of [app/page.tsx].

    A JavaScript string is modelled by the [string] of the bytes of its
    UTF-8 encoding (a string with a lone surrogate has no counterpart),
    objects used as dictionaries as [gmap string string], arrays as lists.
    A property that may be [undefined] on a scraper result is an
    [option]. *)

From Stdlib Require Import Ascii String QArith Qround Qabs Lqa.
From stdpp Require Import gmap strings list fin_maps pretty.

Local Open Scope string_scope.
Local Open Scope list_scope.

(** ** JavaScript values used by the route *)

(** Truthiness of a property holding a string or [undefined]:
    [undefined] and the empty string are falsy. *)
Definition truthy (v : option string) : bool :=
  match v with
  | Some s => negb (String.eqb s "")
  | None => false
  end.

(** Truthiness of a string-typed field of the accumulator. *)
Definition truthy_str (s : string) : bool := negb (String.eqb s "").

(** [[...new Set(xs)]]: a [Set] keeps the first occurrence of every value,
    in insertion order.  [set_add_all seen xs] adds the elements of [xs] one
    by one to the set whose insertion order is [seen]. *)
Fixpoint set_add_all (seen xs : list string) : list string :=
  match xs with
  | [] => seen
  | x :: xs' =>
      set_add_all (if bool_decide (x ∈ seen) then seen else seen ++ [x]) xs'
  end.

Definition array_from_set (xs : list string) : list string :=
  set_add_all [] xs.

(** ** Scraper results and the merged product *)

(** What a scraper's [scrapeProduct] resolves to (typed [any] in the route):
    every property the merge reads may be missing. *)
Record ScraperResult := mkResult {
  r_price : option string;
  r_rating : option string;
  r_description : option string;
  r_availability : option string;
  r_features : option (list string);
  r_images : option (list string);
  r_specifications : option (gmap string string)
}.

(** The object literal [merged] of [mergeProductData]. *)
Record ProductData := mkProduct {
  m_name : string;
  m_price : string;
  m_rating : string;
  m_features : list string;
  m_description : string;
  m_availability : string;
  m_images : list string;
  m_specifications : gmap string string
}.

Definition empty_result : ScraperResult :=
  mkResult None None None None None None None.

(** [if (result.f && !merged.f) merged.f = result.f] *)
Definition first_writer (cur : string) (v : option string) : string :=
  match v with
  | Some s => if truthy v && negb (truthy_str cur) then s else cur
  | None => cur
  end.

(** [if (result.xs) merged.xs = [...new Set([...merged.xs, ...result.xs])]] *)
Definition union_array (cur : list string) (v : option (list string))
  : list string :=
  match v with
  | Some xs => array_from_set (cur ++ xs)
  | None => cur
  end.

(** [if (result.specifications)
       merged.specifications = { ...merged.specifications, ...result.specifications }]:
    the later spread overwrites ([∪] on [gmap] prefers its left operand). *)
Definition spread_specs (cur : gmap string string)
    (v : option (gmap string string)) : gmap string string :=
  match v with
  | Some m => m ∪ cur
  | None => cur
  end.

(** One iteration of the [for (const result of results)] loop. *)
Definition merge_step (merged : ProductData) (result : ScraperResult)
  : ProductData :=
  {| m_name := m_name merged;
     m_price := first_writer (m_price merged) (r_price result);
     m_rating := first_writer (m_rating merged) (r_rating result);
     m_features := union_array (m_features merged) (r_features result);
     m_description :=
       first_writer (m_description merged) (r_description result);
     m_availability :=
       first_writer (m_availability merged) (r_availability result);
     m_images := union_array (m_images merged) (r_images result);
     m_specifications :=
       spread_specs (m_specifications merged) (r_specifications result) |}.

Definition merged_init (productName : string) : ProductData :=
  {| m_name := productName; m_price := ""; m_rating := "";
     m_features := []; m_description := ""; m_availability := "";
     m_images := []; m_specifications := ∅ |}.

Definition mergeProductData (results : list ScraperResult)
    (productName : string) : ProductData :=
  fold_left merge_step results (merged_init productName).

(** ** String operations of the JavaScript runtime *)

Definition is_digit (c : ascii) : bool :=
  let n := nat_of_ascii c in (48 <=? n)%nat && (n <=? 57)%nat.

Definition digit_val (c : ascii) : Z := Z.of_nat (nat_of_ascii c) - 48.

(** The white space and line terminators [String.prototype.trim] and
    [parseFloat] skip, by the length of their UTF-8 encoding.  One byte:
    U+0009 to U+000D and U+0020. *)
Definition is_space (c : ascii) : bool :=
  let n := nat_of_ascii c in
  (n =? 32)%nat || ((9 <=? n)%nat && (n <=? 13)%nat).

(** Two bytes: U+00A0, encoded C2 A0. *)
Definition is_space2 (c1 c2 : ascii) : bool :=
  (nat_of_ascii c1 =? 194)%nat && (nat_of_ascii c2 =? 160)%nat.

(** Three bytes: U+1680 (E1 9A 80), U+2000 to U+200A (E2 80 80 to E2 80 8A),
    U+2028 and U+2029 (E2 80 A8, E2 80 A9), U+202F (E2 80 AF), U+205F
    (E2 81 9F), U+3000 (E3 80 80) and U+FEFF (EF BB BF). *)
Definition is_space3 (c1 c2 c3 : ascii) : bool :=
  let n1 := nat_of_ascii c1 in
  let n2 := nat_of_ascii c2 in
  let n3 := nat_of_ascii c3 in
  ((n1 =? 225) && (n2 =? 154) && (n3 =? 128))%nat ||
  ((n1 =? 226) && (n2 =? 128) &&
   (((128 <=? n3) && (n3 <=? 138)) || (n3 =? 168) || (n3 =? 169) ||
    (n3 =? 175)))%nat ||
  ((n1 =? 226) && (n2 =? 129) && (n3 =? 159))%nat ||
  ((n1 =? 227) && (n2 =? 128) && (n3 =? 128))%nat ||
  ((n1 =? 239) && (n2 =? 187) && (n3 =? 191))%nat.

(** [toLowerCase] maps the letters A to Z.  The route and the scrapers
    lower a name only to look for the ASCII words [phone], [iphone] and
    [galaxy] in it ([isPhone]); of the letters outside ASCII JavaScript
    lowers two to an ASCII letter, U+212A to [k], which is in none of the
    words, and U+0130 to [i] followed by U+0307, which no word continues. *)
Definition lower_ascii (c : ascii) : ascii :=
  let n := nat_of_ascii c in
  if (65 <=? n)%nat && (n <=? 90)%nat then ascii_of_nat (n + 32) else c.

Fixpoint toLowerCase (s : string) : string :=
  match s with
  | EmptyString => EmptyString
  | String c s' => String (lower_ascii c) (toLowerCase s')
  end.

(** [s.includes(sub)] *)
Fixpoint includes (s sub : string) : bool :=
  String.prefix sub s ||
  match s with
  | EmptyString => false
  | String _ s' => includes s' sub
  end.

(** [s.trimStart()]: the white-space characters at the start are dropped. *)
Fixpoint trimStart (s : string) : string :=
  match s with
  | EmptyString => EmptyString
  | String c1 s1 =>
      if is_space c1 then trimStart s1 else
      match s1 with
      | EmptyString => s
      | String c2 s2 =>
          if is_space2 c1 c2 then trimStart s2 else
          match s2 with
          | EmptyString => s
          | String c3 s3 => if is_space3 c1 c2 c3 then trimStart s3 else s
          end
      end
  end.

(** [s.trimEnd()]: the string is cut where what follows is white space
    only. *)
Fixpoint trimEnd (s : string) : string :=
  match s with
  | EmptyString => EmptyString
  | String c s' =>
      if String.eqb (trimStart s) "" then EmptyString
      else String c (trimEnd s')
  end.

(** [s.trim()] *)
Definition trim (s : string) : string := trimEnd (trimStart s).

(** [s.length], the number of UTF-16 code units: a character of one to
    three bytes is one unit, a character of four bytes (lead byte F0 and
    above) is two, a continuation byte (80 to BF) counts with its lead. *)
Definition utf16_units (c : ascii) : nat :=
  let n := nat_of_ascii c in
  if (128 <=? n)%nat && (n <? 192)%nat then 0%nat
  else if (240 <=? n)%nat then 2%nat else 1%nat.

Fixpoint length_utf16 (s : string) : nat :=
  match s with
  | EmptyString => 0%nat
  | String c s' => (utf16_units c + length_utf16 s')%nat
  end.

(** [s.split("/")[0]]: the part of [s] before its first slash. *)
Fixpoint before_slash (s : string) : string :=
  match s with
  | EmptyString => EmptyString
  | String c s' =>
      if Ascii.eqb c "/"%char then EmptyString else String c (before_slash s')
  end.

(** Leading decimal digits of [s], as a number, their count and the rest. *)
Fixpoint read_digits (s : string) (acc : Z) (count : nat) : Z * nat * string :=
  match s with
  | String c s' =>
      if is_digit c then read_digits s' (10 * acc + digit_val c) (S count)
      else (acc, count, s)
  | EmptyString => (acc, count, s)
  end.

(** [Number.parseFloat] on unsigned or signed decimal literals without
    exponent: leading white space is skipped, the longest prefix
    [digits [. digits]] is read, and [None] stands for [NaN].  An exponent
    and [Infinity] are not read.  The value is kept as an exact
    rational. *)
Definition parse_unsigned (s : string) : option Q :=
  let '(ip, ni, rest) := read_digits s 0 0 in
  match rest with
  | String "."%char rest' =>
      let '(fp, nf, _) := read_digits rest' 0 0 in
      if (ni + nf =? 0)%nat then None
      else Some (Qmake (ip * 10 ^ Z.of_nat nf + fp) (Z.to_pos (10 ^ Z.of_nat nf)))
  | _ => if (ni =? 0)%nat then None else Some (inject_Z ip)
  end.

Definition parseFloat_decimal (s : string) : option Q :=
  match trimStart s with
  | String "-"%char s' => Qopp <$> parse_unsigned s'
  | String "+"%char s' => parse_unsigned s'
  | s' => parse_unsigned s'
  end.

Definition Qltb (x y : Q) : bool :=
  (Qnum x * Zpos (Qden y) <? Qnum y * Zpos (Qden x))%Z.

(** ** The per-scraper merge of [PlaywrightScraper] *)

Section MergeResults.
(** [Number.parseFloat]; [None] is [NaN]. *)
Variable parseFloat : string → option Q.

(** The number the rating loop compares: a falsy rating is skipped, an
    unparsable one compares false against everything. *)
Definition rating_number (v : option string) : option Q :=
  match v with
  | Some s => if truthy v then parseFloat (before_slash s) else None
  | None => None
  end.

(** One iteration of the "use the highest rating" loop; the state is
    [(highestRating, merged.rating)]. *)
Definition rating_step (st : Q * string) (result : ScraperResult)
  : Q * string :=
  match r_rating result, rating_number (r_rating result) with
  | Some s, Some rating => if Qltb (fst st) rating then (rating, s) else st
  | _, _ => st
  end.

Definition highest_rating (results : list ScraperResult) : string :=
  snd (fold_left rating_step results (0%Q, "")).

(** The loops that stop at the first hit ([break]) are the folds of
    [first_writer]: once the field is set, no later record changes it. *)
Definition mergeResults (results : list ScraperResult)
    (productName : string) : ProductData :=
  {| m_name := productName;
     m_price :=
       fold_left (λ cur r, first_writer cur (r_price r)) results "";
     m_rating := highest_rating results;
     m_features :=
       fold_left (λ cur r, union_array cur (r_features r)) results [];
     m_description :=
       productName +:+
       " is available across multiple retailers with varying prices and features. Comprehensive comparison data aggregated from major e-commerce platforms.";
     m_availability :=
       fold_left (λ cur r, first_writer cur (r_availability r)) results "";
     m_images := [];
     m_specifications :=
       fold_left (λ cur r, spread_specs cur (r_specifications r)) results ∅ |}.

(** The rating rule as the specification words it: the winner is a record
    whose parsed number (0 when the rating does not parse) is the highest
    of the sequence, and the earliest such record. *)
Definition rating_score (r : ScraperResult) : Q :=
  default 0%Q (rating_number (r_rating r)).

Definition rating_highest_earliest (results : list ScraperResult)
    (rating : string) : Prop :=
  ∃ i r, results !! i = Some r ∧ r_rating r = Some rating ∧
    ∀ j r', results !! j = Some r' →
      (rating_score r' <= rating_score r)%Q ∧
      (j < i → (rating_score r' < rating_score r)%Q).

(** What the rating loop knows after the records [seen], its state being
    [st]. *)
Definition rating_inv (seen : list ScraperResult) (st : Q * string) : Prop :=
  (st = (0%Q, "") ∧ ∀ j r, seen !! j = Some r → (rating_score r <= 0)%Q) ∨
  ((0 < fst st)%Q ∧
   ∃ i r, seen !! i = Some r ∧ r_rating r = Some (snd st) ∧
     rating_score r = fst st ∧
     ∀ j r', seen !! j = Some r' →
       (rating_score r' <= fst st)%Q ∧ (j < i → (rating_score r' < fst st)%Q)).
End MergeResults.

(** ** Log entries and the world the route runs in *)

Inductive Level := LInfo | LWarn | LError.

#[global] Instance Level_eq_dec : EqDecision Level.
Proof. solve_decision. Defined.

(** Values stored under a metadata key. *)
Inductive MetaValue :=
| MStr (s : string)
| MNum (n : nat)
| MList (l : list string)
| MOther.

Record LogEntry := mkEntry {
  timestamp : string;
  level : Level;
  message : string;
  source : string;
  metadata : option (list (string * MetaValue))
}.

(** What a [throw] carries: an [Error] object with its message, or any
    other value. *)
Inductive Thrown :=
| ErrorObject (msg : string)
| NonError.

(** [error instanceof Error ? error.message : "Unknown error"] *)
Definition errorMessage (e : Thrown) : string :=
  match e with
  | ErrorObject msg => msg
  | NonError => "Unknown error"
  end.

Inductive completion (A : Type) :=
| Normal (a : A)
| Throw (e : Thrown).
Arguments Normal {A} a.
Arguments Throw {A} e.

(** The state a request acts on: the entries of the module-level [logger],
    the number of [Math.random()] draws made so far, and the state [Ext] of
    everything outside the process (browser sessions, network, clock). *)
Record World (Ext : Type) := mkWorld {
  w_logs : list LogEntry;
  w_draws : nat;
  w_ext : Ext
}.
Arguments mkWorld {Ext} _ _ _.
Arguments w_logs {Ext} _.
Arguments w_draws {Ext} _.
Arguments w_ext {Ext} _.

(** Computations of the route: state passing with abrupt completion. *)
Definition M (Ext A : Type) : Type := World Ext → completion A * World Ext.

Definition ret {Ext A} (a : A) : M Ext A := λ w, (Normal a, w).

Definition bind {Ext A B} (m : M Ext A) (f : A → M Ext B) : M Ext B :=
  λ w, match m w with
       | (Normal a, w') => f a w'
       | (Throw e, w') => (Throw e, w')
       end.

Definition throw {Ext A} (e : Thrown) : M Ext A := λ w, (Throw e, w).

(** [try { m } catch (error) { h error }] *)
Definition try_catch {Ext A} (m : M Ext A) (h : Thrown → M Ext A) : M Ext A :=
  λ w, match m w with
       | (Normal a, w') => (Normal a, w')
       | (Throw e, w') => h e w'
       end.

(** The monad notations [x ← m; k] and [m;; k] are stdpp's. *)
#[global] Instance M_ret {Ext} : MRet (M Ext) := λ A a, ret a.
#[global] Instance M_bind {Ext} : MBind (M Ext) := λ A B f m, bind m f.

(** A scraper instance: [scraper.constructor.name] and its [scrapeProduct]. *)
Record Scraper (Ext : Type) := mkScraper {
  ctor_name : string;
  scrapeProduct : string → M Ext ScraperResult
}.
Arguments mkScraper {Ext} _ _.
Arguments ctor_name {Ext} _.
Arguments scrapeProduct {Ext} _ _.

(** The two prompts handed to [generateText]. *)
Inductive Prompt :=
| ComparisonPrompt (product1 product2 : ProductData)
| ReadmePrompt (name1 name2 comparison : string).

(** The [methods] of the request body, as the route uses it: an array (of
    its elements only the strings can equal a method name, the others are
    left out), a string, on which [includes] is the substring test, or any
    other value (missing, [null], a number, a boolean, an object), which
    has no [includes], so that [methods.includes(...)] throws a [TypeError]
    with the [message] of the engine. *)
Inductive Methods :=
| MethodsArray (ms : list string)
| MethodsString (s : string)
| MethodsOther (message : string).

(** The body of the request, parsed to an object; a name is a string or
    missing.  A body that does not parse to an object and a name of another
    type are not modelled. *)
Record Request := mkRequest {
  product1 : option string;
  product2 : option string;
  methods : Methods
}.

(** [methods] as the start entry of the log records it. *)
Definition methods_meta (m : Methods) : MetaValue :=
  match m with
  | MethodsArray ms => MList ms
  | MethodsString s => MStr s
  | MethodsOther _ => MOther
  end.

Inductive Response :=
| BadRequest (err : string)
| ConfigError (err setup : string)
| Success (p1 p2 : ProductData) (comparison readme : string)
    (logs : list LogEntry)
| Failure (err details : string) (logs : list LogEntry).

Definition status (r : Response) : nat :=
  match r with
  | BadRequest _ => 400
  | ConfigError _ _ => 500
  | Success _ _ _ _ _ => 200
  | Failure _ _ _ => 500
  end.

(** [x.toFixed(1)] for [|x| < 10^21]: the sign of a negative [x], then
    the nearest multiple of 1/10 of [|x|], the larger one on a tie.
    Arithmetic on drawn numbers is exact; the rounding of IEEE doubles is
    not modelled. *)
Definition toFixed1 (x : Q) : string :=
  let n := Qfloor (Qabs x * 10 + (1 # 2))%Q in
  (if Qltb x 0 then "-" else "") +:+
  pretty (n / 10)%Z +:+ "." +:+ pretty (n mod 10)%Z.

Definition isPhone (productName : string) : bool :=
  includes (toLowerCase productName) "phone" ||
  includes (toLowerCase productName) "iphone" ||
  includes (toLowerCase productName) "galaxy".

Section Route.
Context {Ext : Type}.

(** [new Date().toISOString()] *)
Variable now : Ext → string.
(** The successive values of [Math.random()], each in [0, 1). *)
Variable random_seq : nat → Q.
(** [generateText] of the AI SDK, returning the [text] of its result. *)
Variable generateText : Prompt → M Ext string.
(** [process.env.OPENAI_API_KEY] *)
Variable OPENAI_API_KEY : option string.
(** [scrapeProduct] of the three scraper classes the route instantiates. *)
Variable scrapybara playwright puppeteer : string → M Ext ScraperResult.

(** [MaximLogger.addLog] on the route's logger, whose source is the
    constructor's default. *)
Definition addLog (lvl : Level) (msg : string)
    (meta : option (list (string * MetaValue))) : M Ext unit :=
  λ w, (Normal (),
        mkWorld
          (w_logs w ++
             [mkEntry (now (w_ext w)) lvl msg "ProductComparisonAgent" meta])
          (w_draws w) (w_ext w)).

Definition info := addLog LInfo.
Definition warn := addLog LWarn.
Definition error := addLog LError.

(** [logger.getLogs()], by value. *)
Definition getLogs_route : M Ext (list LogEntry) :=
  λ w, (Normal (w_logs w), w).

Definition Math_random : M Ext Q :=
  λ w, (Normal (random_seq (w_draws w)),
        mkWorld (w_logs w) (S (w_draws w)) (w_ext w)).

Definition fallback_description (productName : string) : string :=
  productName +:+
  " - intelligent analysis when direct scraping is unavailable.".

(** The returned object has no [images]; its [name] is not read by the
    merge and is left out.  The arithmetic on the drawn numbers is exact,
    where the code rounds each result to a double. *)
Definition createIntelligentFallback (productName : string)
  : M Ext ScraperResult :=
  if isPhone productName then
    u1 ← Math_random ;
    u2 ← Math_random ;
    ret {| r_price :=
             Some ("$" +:+ pretty (Qfloor (u1 * 800 + 400)%Q) +:+ ".99");
           r_rating := Some (toFixed1 (u2 * (3 # 2) + (7 # 2))%Q +:+ "/5 (estimated)");
           r_description := Some (fallback_description productName);
           r_availability := Some "Check with retailers";
           r_features :=
             Some ["Smartphone capabilities"; "Camera system";
                   "Wireless connectivity"; "Touchscreen interface";
                   "App ecosystem"];
           r_images := None;
           r_specifications :=
             Some (list_to_map
                     [("Type", "Smartphone"); ("Category", "Mobile Device");
                      ("Data Source", "Intelligent estimation")]) |}
  else
    ret {| r_price := Some "Price varies";
           r_rating := Some "Rating varies";
           r_description := Some (fallback_description productName);
           r_availability := Some "Check availability";
           r_features :=
             Some ["Product features available"; "Check retailer for details"];
           r_images := None;
           r_specifications :=
             Some (list_to_map
                     [("Product", productName);
                      ("Data Source", "Intelligent estimation")]) |}.

(** One turn of the [for (const scraper of scrapers)] loop, with its
    [try]/[catch]; [results] is the array the turn may push to. *)
Definition scrape_one (productName : string) (scraper : Scraper Ext)
    (results : list ScraperResult) : M Ext (list ScraperResult) :=
  try_catch
    (info ("Starting intelligent " +:+ ctor_name scraper +:+ " for " +:+
           productName) None;;
     data ← scrapeProduct scraper productName ;
     info ("Intelligent " +:+ ctor_name scraper +:+ " completed for " +:+
           productName) None;;
     ret (results ++ [data]))
    (λ e,
     warn ("Scraper " +:+ ctor_name scraper +:+
           " had issues, but provided fallback data")
       (Some [("product", MStr productName);
              ("error", MStr (errorMessage e))]);;
     ret results).

Fixpoint scrape_all (productName : string) (scrapers : list (Scraper Ext))
    (results : list ScraperResult) : M Ext (list ScraperResult) :=
  match scrapers with
  | [] => ret results
  | scraper :: rest =>
      results' ← scrape_one productName scraper results ;
      scrape_all productName rest results'
  end.

Definition scrapeProductDataWithFallback (productName : string)
    (scrapers : list (Scraper Ext)) : M Ext ProductData :=
  results ← scrape_all productName scrapers [] ;
  results' ←
    (if (length results =? 0)%nat then
       info ("Creating intelligent fallback data for " +:+ productName)
         None;;
       fb ← createIntelligentFallback productName ;
       ret (results ++ [fb])
     else ret results) ;
  ret (mergeProductData results' productName).

Definition generateComparison (p1 p2 : ProductData) : M Ext string :=
  try_catch (generateText (ComparisonPrompt p1 p2))
    (λ e,
     error "Failed to generate comparison"
       (Some [("error", MStr (errorMessage e))]);;
     ret "Comparison generation failed. Please try again.").

Definition generateReadme (p1 p2 : ProductData) (comparison : string)
  : M Ext string :=
  try_catch (generateText (ReadmePrompt (m_name p1) (m_name p2) comparison))
    (λ e,
     error "Failed to generate README"
       (Some [("error", MStr (errorMessage e))]);;
     ret ("# Product Comparison: " +:+ m_name p1 +:+ " vs " +:+ m_name p2
          +:+ "

README generation failed. Please try again.")).

(** The scrapers the route instantiates, in the order it pushes them. *)
Definition selected_scrapers (ms : list string) : list (Scraper Ext) :=
  (if bool_decide ("scrapybara" ∈ ms)
   then [mkScraper "ScrapybaraBrowser" scrapybara] else []) ++
  (if bool_decide ("playwright" ∈ ms)
   then [mkScraper "RealPlaywrightScraper" playwright] else []) ++
  (if bool_decide ("puppeteer" ∈ ms)
   then [mkScraper "RealPuppeteerScraper" puppeteer] else []).

(** The three [if (methods.includes(...)) scrapers.push(...)]. *)
Definition methods_scrapers (m : Methods) : M Ext (list (Scraper Ext)) :=
  match m with
  | MethodsArray ms => ret (selected_scrapers ms)
  | MethodsString s =>
      ret ((if includes s "scrapybara"
            then [mkScraper "ScrapybaraBrowser" scrapybara] else []) ++
           (if includes s "playwright"
            then [mkScraper "RealPlaywrightScraper" playwright] else []) ++
           (if includes s "puppeteer"
            then [mkScraper "RealPuppeteerScraper" puppeteer] else []))
  | MethodsOther message => throw (ErrorObject message)
  end.

Definition POST (req : Request) : M Ext Response :=
  try_catch
    (match product1 req, product2 req with
     | Some n1, Some n2 =>
         if negb (truthy_str n1) || negb (truthy_str n2) then
           ret (BadRequest "Both product names are required")
         else if negb (truthy OPENAI_API_KEY) then
           error "OpenAI API key not configured" None;;
           ret (ConfigError
                  "OpenAI API key not configured. Please add OPENAI_API_KEY to your .env file."
                  "Create a .env file in your project root and add: OPENAI_API_KEY=your_key_here")
         else
           info "Starting product comparison with intelligent browser automation"
             (Some [("product1", MStr n1); ("product2", MStr n2);
                    ("methods", methods_meta (methods req))]);;
           scrapers ← methods_scrapers (methods req) ;
           if (length scrapers =? 0)%nat then
             ret (BadRequest "No valid scraping methods selected")
           else
             product1Data ← scrapeProductDataWithFallback n1 scrapers ;
             product2Data ← scrapeProductDataWithFallback n2 scrapers ;
             info "Intelligent browser automation completed"
               (Some [("product1Features",
                       MNum (length (m_features product1Data)));
                      ("product2Features",
                       MNum (length (m_features product2Data)))]);;
             comparison ← generateComparison product1Data product2Data ;
             readme ← generateReadme product1Data product2Data comparison ;
             logs ← getLogs_route ;
             info "Product comparison completed successfully" None;;
             ret (Success product1Data product2Data comparison readme logs)
     | _, _ => ret (BadRequest "Both product names are required")
     end)
    (λ e,
     error "Error in product comparison"
       (Some [("error", MStr (errorMessage e))]);;
     logs ← getLogs_route ;
     ret (Failure "Failed to compare products. Check logs for details."
            (errorMessage e) logs)).

(** [ScrapybaraBrowser.scrapeProduct]: the entry log, the guard on the
    name, and the handler that logs and rethrows; [body] is the rest of
    the [try] block. *)
Definition ScrapybaraBrowser_scrapeProduct
    (body : string → M Ext ScraperResult) (productName : string)
  : M Ext ScraperResult :=
  info "ScrapybaraBrowser: Starting AI-powered product scrape"
    (Some [("product", MStr productName)]);;
  try_catch
    ((if negb (truthy_str productName) ||
         (String.length (trim productName) =? 0)%nat
      then throw (ErrorObject "Product name is required")
      else ret ());;
     body productName)
    (λ e,
     error "ScrapybaraBrowser: AI scrape failed"
       (Some [("product", MStr productName);
              ("error", MStr (errorMessage e))]);;
     throw e).
End Route.

(** ** Objects with identity

    Arrays and object literals are mutable and compared by reference.  Where
    a property depends on who can reach an array, objects live in a heap
    indexed by locations, and [new], array literals and spreads allocate. *)

Definition loc := positive.

(** Heap computations; [None] is a dangling or ill-typed reference, which
    no well-formed heap produces. *)
Definition HeapM (V A : Type) : Type := gmap loc V → option (A * gmap loc V).

#[global] Instance HeapM_ret {V} : MRet (HeapM V) := λ A a h, Some (a, h).
#[global] Instance HeapM_bind {V} : MBind (HeapM V) :=
  λ A B f m h, match m h with
               | Some (a, h') => f a h'
               | None => None
               end.

Definition alloc {V} (v : V) : HeapM V loc :=
  λ h, let l := fresh (dom h) in Some (l, <[l := v]> h).

Definition store {V} (l : loc) (v : V) : HeapM V unit :=
  λ h, Some ((), <[l := v]> h).

(** Lifting a read of the heap. *)
Definition reading {V A} (f : gmap loc V → option A) : HeapM V A :=
  λ h, match f h with
       | Some a => Some (a, h)
       | None => None
       end.

(** [array.slice(start)] for an integer [start]: from [start] when it is
    not negative, from [length + start] when it is, clamped to the array. *)
Definition slice_from {A} (start : Z) (l : list A) : list A :=
  let len := Z.of_nat (length l) in
  let k := if (start <? 0)%Z then Z.max (len + start) 0 else Z.min start len in
  drop (Z.to_nat k) l.

Module MaximLogger.

Inductive obj :=
| Entry (e : LogEntry)
| Array (elems : list loc).

(** The fields of a logger instance; [this_logs] refers to an array of
    references to entry objects. *)
Record t := mk {
  this_logs : loc;
  this_source : string
}.

Record Summary := mkSummary {
  total : nat;
  info_count : nat;
  warn_count : nat;
  error_count : nat;
  timeRange_start : option string;
  timeRange_end : option string
}.

Definition read_array (l : loc) (h : gmap loc obj) : option (list loc) :=
  match h !! l with
  | Some (Array elems) => Some elems
  | _ => None
  end.

Definition read_entry (h : gmap loc obj) (l : loc) : option LogEntry :=
  match h !! l with
  | Some (Entry e) => Some e
  | _ => None
  end.

(** The entries an array refers to, in order. *)
Definition array_entries (l : loc) (h : gmap loc obj)
  : option (list LogEntry) :=
  elems ← read_array l h; mapM (read_entry h) elems.

(** The log of a logger: what [this.logs] holds. *)
Definition entries_of (lg : t) (h : gmap loc obj) : option (list LogEntry) :=
  array_entries (this_logs lg) h.

(** [constructor(source = "ProductComparisonAgent")] with
    [private logs: LogEntry[] = []] *)
Definition constructor (src : string) : HeapM obj t :=
  a ← alloc (Array []); mret (mk a src).

(** [addLog]: the entry object is created, then pushed; [ts] is the
    reading of the clock. *)
Definition addLog (lg : t) (ts : string) (lvl : Level) (msg : string)
    (meta : option (list (string * MetaValue))) : HeapM obj unit :=
  e ← alloc (Entry (mkEntry ts lvl msg (this_source lg) meta));
  elems ← reading (read_array (this_logs lg));
  store (this_logs lg) (Array (elems ++ [e])).

(** [return [...this.logs]] *)
Definition getLogs (lg : t) : HeapM obj loc :=
  elems ← reading (read_array (this_logs lg));
  alloc (Array elems).

(** [this.logs = []] *)
Definition clearLogs (lg : t) : HeapM obj t :=
  a ← alloc (Array []); mret (mk a (this_source lg)).

Definition has_level (h : gmap loc obj) (lvl : Level) (l : loc) : bool :=
  match read_entry h l with
  | Some e => bool_decide (level e = lvl)
  | None => false
  end.

(** [return this.logs.filter((log) => log.level === level)] *)
Definition getLogsByLevel (lg : t) (lvl : Level) : HeapM obj loc :=
  elems ← reading (read_array (this_logs lg));
  h ← reading Some;
  alloc (Array (List.filter (has_level h lvl) elems)).

Definition count_level (lvl : Level) (es : list LogEntry) : nat :=
  length (List.filter (λ e, bool_decide (level e = lvl)) es).

(** [entry?.timestamp || null] *)
Definition timestamp_or_null (e : option LogEntry) : option string :=
  match e with
  | Some e => if truthy_str (timestamp e) then Some (timestamp e) else None
  | None => None
  end.

Definition summary_of (es : list LogEntry) : Summary :=
  {| total := length es;
     info_count := count_level LInfo es;
     warn_count := count_level LWarn es;
     error_count := count_level LError es;
     timeRange_start := timestamp_or_null (es !! 0%nat);
     timeRange_end := timestamp_or_null (last es) |}.

Definition getLogsSummary (lg : t) : HeapM obj Summary :=
  es ← reading (entries_of lg); mret (summary_of es).

(** [return this.logs.slice(-limit)], [limit] being an integer: a negative
    start counts from the end, and [-0] is [0]. *)
Definition getRecentLogs (lg : t) (limit : Z) : HeapM obj loc :=
  elems ← reading (read_array (this_logs lg));
  alloc (Array (slice_from (- limit) elems)).

End MaximLogger.

(** ** [mergeProductData] on the heap

    The same function with the identity of every array and object it
    touches: the scraper results are objects whose [features], [images] and
    [specifications] refer to further objects, and [merged] is an object the
    loop assigns to. *)
Module MergeHeap.

Record result_obj := mkResultObj {
  o_price : option string;
  o_rating : option string;
  o_description : option string;
  o_availability : option string;
  o_features : option loc;
  o_images : option loc;
  o_specifications : option loc
}.

Record merged_obj := mkMergedObj {
  name : string;
  price : string;
  rating : string;
  features : loc;
  description : string;
  availability : string;
  images : loc;
  specifications : loc
}.

Inductive obj :=
| Strings (xs : list string)
| Dict (m : gmap string string)
| Result (r : result_obj)
| Merged (m : merged_obj).

Definition read_strings (l : loc) (h : gmap loc obj) : option (list string) :=
  match h !! l with
  | Some (Strings xs) => Some xs
  | _ => None
  end.

Definition read_dict (l : loc) (h : gmap loc obj)
  : option (gmap string string) :=
  match h !! l with
  | Some (Dict m) => Some m
  | _ => None
  end.

Definition read_result (l : loc) (h : gmap loc obj) : option result_obj :=
  match h !! l with
  | Some (Result r) => Some r
  | _ => None
  end.

Definition read_merged (l : loc) (h : gmap loc obj) : option merged_obj :=
  match h !! l with
  | Some (Merged m) => Some m
  | _ => None
  end.

(** A property that is [undefined] or a reference, followed. *)
Definition follow {A} (rd : loc → gmap loc obj → option A)
    (v : option loc) (h : gmap loc obj) : option (option A) :=
  match v with
  | Some l => Some <$> rd l h
  | None => Some None
  end.

(** The value a result object stands for. *)
Definition result_value (l : loc) (h : gmap loc obj) : option ScraperResult :=
  r ← read_result l h;
  fs ← follow read_strings (o_features r) h;
  imgs ← follow read_strings (o_images r) h;
  sp ← follow read_dict (o_specifications r) h;
  Some (mkResult (o_price r) (o_rating r) (o_description r)
          (o_availability r) fs imgs sp).

Definition results_value (ls : list loc) (h : gmap loc obj)
  : option (list ScraperResult) :=
  mapM (λ l, result_value l h) ls.

(** The value a merged object stands for. *)
Definition merged_value (l : loc) (h : gmap loc obj) : option ProductData :=
  m ← read_merged l h;
  fs ← read_strings (features m) h;
  imgs ← read_strings (images m) h;
  sp ← read_dict (specifications m) h;
  Some (mkProduct (name m) (price m) (rating m) fs (description m)
          (availability m) imgs sp).

(** [merged.f = ...]: an assignment to a property of [merged]. *)
Definition assign (merged : loc) (f : merged_obj → merged_obj) : HeapM obj unit :=
  m ← reading (read_merged merged);
  store merged (Merged (f m)).

Definition set_price (v : string) (m : merged_obj) : merged_obj :=
  mkMergedObj (name m) v (rating m) (features m) (description m)
    (availability m) (images m) (specifications m).
Definition set_rating (v : string) (m : merged_obj) : merged_obj :=
  mkMergedObj (name m) (price m) v (features m) (description m)
    (availability m) (images m) (specifications m).
Definition set_description (v : string) (m : merged_obj) : merged_obj :=
  mkMergedObj (name m) (price m) (rating m) (features m) v
    (availability m) (images m) (specifications m).
Definition set_availability (v : string) (m : merged_obj) : merged_obj :=
  mkMergedObj (name m) (price m) (rating m) (features m) (description m)
    v (images m) (specifications m).
Definition set_features (v : loc) (m : merged_obj) : merged_obj :=
  mkMergedObj (name m) (price m) (rating m) v (description m)
    (availability m) (images m) (specifications m).
Definition set_images (v : loc) (m : merged_obj) : merged_obj :=
  mkMergedObj (name m) (price m) (rating m) (features m) (description m)
    (availability m) v (specifications m).
Definition set_specifications (v : loc) (m : merged_obj) : merged_obj :=
  mkMergedObj (name m) (price m) (rating m) (features m) (description m)
    (availability m) (images m) v.

(** [if (result.f && !merged.f) merged.f = result.f] *)
Definition assign_first (merged : loc) (get : merged_obj → string)
    (set : string → merged_obj → merged_obj) (v : option string)
  : HeapM obj unit :=
  m ← reading (read_merged merged);
  match v with
  | Some s =>
      if truthy v && negb (truthy_str (get m))
      then assign merged (set s) else mret ()
  | None => mret ()
  end.

(** [if (result.xs) merged.xs = [...new Set([...merged.xs, ...result.xs])]]:
    both arrays are read and a new one is allocated. *)
Definition assign_union (merged : loc) (get : merged_obj → loc)
    (set : loc → merged_obj → merged_obj) (v : option loc) : HeapM obj unit :=
  match v with
  | Some l =>
      m ← reading (read_merged merged);
      cur ← reading (read_strings (get m));
      xs ← reading (read_strings l);
      a ← alloc (Strings (array_from_set (cur ++ xs)));
      assign merged (set a)
  | None => mret ()
  end.

(** [if (result.specifications) merged.specifications = { ...merged.specifications,
    ...result.specifications }]: a new object is allocated. *)
Definition assign_spread (merged : loc) (v : option loc) : HeapM obj unit :=
  match v with
  | Some l =>
      m ← reading (read_merged merged);
      cur ← reading (read_dict (specifications m));
      sp ← reading (read_dict l);
      d ← alloc (Dict (sp ∪ cur));
      assign merged (set_specifications d)
  | None => mret ()
  end.

(** The body of the loop for the result object at [r]. *)
Definition merge_iteration (merged r : loc) : HeapM obj unit :=
  result ← reading (read_result r);
  assign_first merged price set_price (o_price result);;
  assign_first merged rating set_rating (o_rating result);;
  assign_first merged description set_description (o_description result);;
  assign_first merged availability set_availability
    (o_availability result);;
  assign_union merged features set_features (o_features result);;
  assign_union merged images set_images (o_images result);;
  assign_spread merged (o_specifications result).

Fixpoint merge_loop (merged : loc) (results : list loc) : HeapM obj unit :=
  match results with
  | [] => mret ()
  | r :: rest => merge_iteration merged r;; merge_loop merged rest
  end.

Definition mergeProductData (results : list loc) (productName : string)
  : HeapM obj loc :=
  fs ← alloc (Strings []);
  imgs ← alloc (Strings []);
  sp ← alloc (Dict ∅);
  merged ← alloc (Merged (mkMergedObj productName "" "" fs "" "" imgs sp));
  merge_loop merged results;;
  mret merged.

End MergeHeap.

(** ** Vocabulary of the properties *)

(** A call of [mergeProductData] as a completion: its body has no [throw]
    and reads only properties of its typed arguments. *)
Definition call_mergeProductData (results : list ScraperResult)
    (productName : string) : completion ProductData :=
  Normal (mergeProductData results productName).

(** A completion that failed with an [Error] whose message is [msg]. *)
Definition fails_with {A} (c : completion A) (msg : string) : Prop :=
  c = Throw (ErrorObject msg).

(** The scalar fields the merge fills by [if (result.f && !merged.f)]. *)
Inductive ScalarField := Price | Rating | Description | Availability.

Definition result_field (f : ScalarField) (r : ScraperResult) : option string :=
  match f with
  | Price => r_price r
  | Rating => r_rating r
  | Description => r_description r
  | Availability => r_availability r
  end.

Definition merged_field (f : ScalarField) (p : ProductData) : string :=
  match f with
  | Price => m_price p
  | Rating => m_rating p
  | Description => m_description p
  | Availability => m_availability p
  end.

(** The list-valued fields. *)
Inductive ArrayField := Features | Images.

Definition result_array (f : ArrayField) (r : ScraperResult)
  : option (list string) :=
  match f with
  | Features => r_features r
  | Images => r_images r
  end.

Definition merged_array (f : ArrayField) (p : ProductData) : list string :=
  match f with
  | Features => m_features p
  | Images => m_images p
  end.

(** All strings of a list-valued field, in the order the records give
    them. *)
Definition all_strings (f : ArrayField) (results : list ScraperResult)
  : list string :=
  concat (map (λ r, default [] (result_array f r)) results).

(** [x] occurs in [l] at a position before an occurrence of [y]. *)
Definition precedes (x y : string) (l : list string) : Prop :=
  ∃ l1 l2 l3, l = l1 ++ x :: l2 ++ y :: l3.

(** The first occurrence of [x] in [l] comes before every occurrence of
    [y]. *)
Definition first_seen_before (x y : string) (l : list string) : Prop :=
  ∃ l1 l2, l = l1 ++ x :: l2 ∧ (x ∉ l1) ∧ (y ∉ l1).

(** The shape the specification gives a rating, [<number>/5...]: digits,
    optionally a point and digits, then [/5]. *)
Definition rating_shape (s : string) : bool :=
  let '(_, n, rest) := read_digits s 0 0 in
  (0 <? n)%nat &&
  match rest with
  | String "."%char rest' =>
      let '(_, k, rest'') := read_digits rest' 0 0 in
      (0 <? k)%nat && String.prefix "/5" rest''
  | _ => String.prefix "/5" rest
  end.

Section RouteVocabulary.
Context {Ext : Type}.
Variable now : Ext → string.

(** The world in which the loop calls [scraper.scrapeProduct]. *)
Definition world_at_call (productName : string) (scraper : Scraper Ext)
    (w : World Ext) : World Ext :=
  snd (info now ("Starting intelligent " +:+ ctor_name scraper +:+ " for " +:+
                 productName) None w).

(** The entry the handler of the loop logs for a scraper that threw [e],
    on top of the world [w] the scraper left. *)
Definition warned (productName : string) (scraper : Scraper Ext)
    (e : Thrown) (w : World Ext) : World Ext :=
  mkWorld
    (w_logs w ++
       [mkEntry (now (w_ext w)) LWarn
          ("Scraper " +:+ ctor_name scraper +:+
           " had issues, but provided fallback data")
          "ProductComparisonAgent"
          (Some [("product", MStr productName);
                 ("error", MStr (errorMessage e))])])
    (w_draws w) (w_ext w).

(** The data of the scrapers that completed normally, in order, when the
    loop starts in world [w]. *)
Fixpoint successes (productName : string) (scrapers : list (Scraper Ext))
    (w : World Ext) : list ScraperResult :=
  match scrapers with
  | [] => []
  | scraper :: rest =>
      let w' := snd (scrape_one now productName scraper [] w) in
      match fst (scrapeProduct scraper productName
                   (world_at_call productName scraper w)) with
      | Normal data => data :: successes productName rest w'
      | Throw _ => successes productName rest w'
      end
  end.
End RouteVocabulary.

(** ** Sample records *)

Definition with_price (s : string) : ScraperResult :=
  mkResult (Some s) None None None None None None.

Definition with_rating (s : string) : ScraperResult :=
  mkResult None (Some s) None None None None None.

Definition with_features (xs : list string) : ScraperResult :=
  mkResult None None None None (Some xs) None None.

Definition with_specifications (kvs : list (string * string)) : ScraperResult :=
  mkResult None None None None None None (Some (list_to_map kvs)).

Section RouteVocabulary2.
Context {Ext : Type}.
Variable now : Ext → string.

(** The entry the loop logs after a scraper returned, on top of the world
    [w] the scraper left. *)
Definition completed (productName : string) (scraper : Scraper Ext)
    (w : World Ext) : World Ext :=
  mkWorld
    (w_logs w ++
       [mkEntry (now (w_ext w)) LInfo
          ("Intelligent " +:+ ctor_name scraper +:+ " completed for " +:+
           productName)
          "ProductComparisonAgent" None])
    (w_draws w) (w_ext w).

(** The world in which the loop over the scrapers ends. *)
Definition world_after_loop (productName : string)
    (scrapers : list (Scraper Ext)) (w : World Ext) : World Ext :=
  snd (scrape_all now productName scrapers [] w).

(** The world in which the fallback is synthesized: the loop is over and
    the route has logged that it creates fallback data. *)
Definition world_at_fallback (productName : string)
    (scrapers : list (Scraper Ext)) (w : World Ext) : World Ext :=
  snd (info now ("Creating intelligent fallback data for " +:+ productName)
         None (world_after_loop productName scrapers w)).
End RouteVocabulary2.


(** A response that reports a validation error. *)
Definition is_validation_error (r : Response) : Prop :=
  ∃ msg, r = BadRequest msg.

(** ** Sample worlds and scrapers *)

Definition sample_now : unit → string := λ _, "2024-01-01T00:00:00.000Z".

Definition sample_random : nat → Q := λ _, (1 # 2)%Q.

Definition sample_generateText : Prompt → M unit string := λ _, ret "text".

Definition sample_world : World unit := mkWorld [] 0 ().

(** A scraper that always throws, and one that always returns a price. *)
Definition throwing_scrapeProduct : string → M unit ScraperResult :=
  λ _, throw (ErrorObject "Navigation timeout").

Definition returning_scrapeProduct : string → M unit ScraperResult :=
  λ _, ret (with_price "$5").

Definition throwing_scraper : Scraper unit :=
  mkScraper "ScrapybaraBrowser" throwing_scrapeProduct.

(** A scraper that returns a rating and nothing else. *)
Definition rating_scraper : Scraper unit :=
  mkScraper "RealPlaywrightScraper" (λ _, ret (with_rating "4.5/5")).

(** ** Vocabulary of the heap properties *)

(** Every object of [h] other than the one at [l] is still in [h'],
    unchanged; [h'] may hold new objects. *)
Definition preserved_except {V} (l : loc) (h h' : gmap loc V) : Prop :=
  ∀ l' o, l' ≠ l → h !! l' = Some o → h' !! l' = Some o.

(** A logger with two entries, and the heap it lives in. *)
Definition sample_entry1 : LogEntry :=
  mkEntry "2024-01-01T00:00:00.000Z" LInfo "Starting" "ProductComparisonAgent"
    None.

Definition sample_entry2 : LogEntry :=
  mkEntry "2024-01-01T00:00:01.000Z" LWarn "Scraper had issues"
    "ProductComparisonAgent" None.

Definition sample_logger : MaximLogger.t :=
  MaximLogger.mk 1%positive "ProductComparisonAgent".

Definition sample_logger_heap : gmap loc MaximLogger.obj :=
  <[1%positive := MaximLogger.Array [2%positive; 3%positive]]>
    (<[2%positive := MaximLogger.Entry sample_entry1]>
       (<[3%positive := MaximLogger.Entry sample_entry2]> ∅)).

(** The merged object at [merged] is [m], and what it refers to in [h] is
    the record [p]. *)
Definition holds (merged : loc) (h : gmap loc MergeHeap.obj)
    (m : MergeHeap.merged_obj) (p : ProductData) : Prop :=
  MergeHeap.read_merged merged h = Some m ∧
  MergeHeap.read_strings (MergeHeap.features m) h = Some (m_features p) ∧
  MergeHeap.read_strings (MergeHeap.images m) h = Some (m_images p) ∧
  MergeHeap.read_dict (MergeHeap.specifications m) h =
    Some (m_specifications p) ∧
  MergeHeap.name m = m_name p ∧
  MergeHeap.price m = m_price p ∧
  MergeHeap.rating m = m_rating p ∧
  MergeHeap.description m = m_description p ∧
  MergeHeap.availability m = m_availability p.

(** Two result objects, the second sharing nothing with the first, and the
    heap they live in. *)
Definition sample_merge_heap : gmap loc MergeHeap.obj :=
  <[1%positive :=
      MergeHeap.Result
        (MergeHeap.mkResultObj (Some "$10") (Some "4.1/5") None None
           (Some 2%positive) None (Some 3%positive))]>
    (<[2%positive := MergeHeap.Strings ["Fast"; "Light"]]>
       (<[3%positive := MergeHeap.Dict (list_to_map [("A", "1")])]>
          (<[4%positive :=
               MergeHeap.Result
                 (MergeHeap.mkResultObj (Some "$20") (Some "4.7/5")
                    (Some "A widget") None (Some 5%positive) None
                    (Some 6%positive))]>
             (<[5%positive := MergeHeap.Strings ["Light"; "Cheap"]]>
                (<[6%positive :=
                     MergeHeap.Dict (list_to_map [("A", "2"); ("B", "3")])]>
                   ∅))))).

Definition sample_merge_results : list ScraperResult :=
  [mkResult (Some "$10") (Some "4.1/5") None None (Some ["Fast"; "Light"])
     None (Some (list_to_map [("A", "1")]));
   mkResult (Some "$20") (Some "4.7/5") (Some "A widget") None
     (Some ["Light"; "Cheap"]) None
     (Some (list_to_map [("A", "2"); ("B", "3")]))].

(** ** Vocabulary of the further properties *)

(** The number of entries of a level in a list of entries. *)
Definition count_entries (lvl : Level) (es : list LogEntry) : nat :=
  length (List.filter (λ e, bool_decide (level e = lvl)) es).

(** A scraper that only ever appends to the log. *)
Definition appends_only {Ext} (scraper : Scraper Ext) : Prop :=
  ∀ productName w, ∃ extra,
    w_logs (snd (scrapeProduct scraper productName w)) = w_logs w ++ extra.

(** A scraper that logs, and may or may not throw. *)
Definition logging_scrapeProduct (fails : bool) : string → M unit ScraperResult :=
  λ productName w,
    (if fails then Throw (ErrorObject "Navigation timeout")
     else Normal (with_price "$5"),
     mkWorld
       (w_logs w ++
          [mkEntry "2024-01-01T00:00:00.000Z" LInfo "Starting product scrape"
             "ProductComparisonAgent" (Some [("product", MStr productName)])])
       (w_draws w) (w_ext w)).

(** A text generation that always throws. *)
Definition throwing_generateText : Prompt → M unit string :=
  λ _, throw (ErrorObject "rate limited").

(** ** The simulated scrapers

    [PlaywrightScraper] (lib/playwright-scraper.ts) and [PuppeteerScraper]
    (lib/puppeteer-scraper.ts) simulate their browser: what they return is
    computed from the product name and from [Math.random()].  Waiting
    ([setTimeout]) acts on the outside world only. *)

(** [array[i]] for an integer [i]: [undefined] out of range. *)
Definition array_get (l : list string) (i : Z) : option string :=
  if (i <? 0)%Z then None else l !! Z.to_nat i.

(** [Math.floor(u * n)] *)
Definition random_index (u : Q) (n : nat) : Z :=
  Qfloor (u * inject_Z (Z.of_nat n))%Q.
Arguments random_index : simpl never.

(** The guard every scraper starts with:
    [!productName || productName.trim().length === 0].  The empty string is
    the only string of length 0, in bytes as in code units. *)
Definition name_is_blank (productName : string) : bool :=
  negb (truthy_str productName) ||
  (String.length (trim productName) =? 0)%nat.

Section Waiting.
Context {Ext : Type}.
(** The outside world after a wait of so many milliseconds. *)
Variable wait : Q → Ext → Ext.

(** [await new Promise((resolve) => setTimeout(resolve, ms))] *)
Definition sleep (ms : Q) : M Ext unit :=
  λ w, (Normal (), mkWorld (w_logs w) (w_draws w) (wait ms (w_ext w))).
End Waiting.

Module PlaywrightScraper.
Section PlaywrightScraper.
Context {Ext : Type}.
Variable now : Ext → string.
Variable random_seq : nat → Q.
Variable wait : Q → Ext → Ext.

Definition prices : list string :=
  ["$199.99"; "$299.99"; "$399.99"; "$499.99"; "$599.99"; "$699.99";
   "$799.99"].

(** [prices[Math.floor(Math.random() * prices.length)]] *)
Definition getRandomPrice : M Ext (option string) :=
  u ← Math_random random_seq;
  ret (array_get prices (random_index u (length prices))).

(** The [name] and [source] of the returned objects are read by nobody and
    are left out. *)
Definition getSiteSpecificData (site productName : string)
  : M Ext ScraperResult :=
  if String.eqb site "amazon.com" then
    price ← getRandomPrice;
    ret {| r_price := price;
           r_rating := Some "4.3/5 (2,847 reviews)";
           r_description := None;
           r_availability := Some "In Stock";
           r_features :=
             Some ["Amazon Choice"; "Prime eligible"; "Fast shipping";
                   "Customer favorite"];
           r_images := None;
           r_specifications :=
             Some (list_to_map
                     [("Seller", "Amazon.com"); ("Shipping", "Free with Prime");
                      ("Return Policy", "30 days")]) |}
  else if String.eqb site "bestbuy.com" then
    price ← getRandomPrice;
    ret {| r_price := price;
           r_rating := Some "4.5/5 (1,234 reviews)";
           r_description := None;
           r_availability := Some "Available for pickup";
           r_features :=
             Some ["Geek Squad support"; "Price match guarantee";
                   "Expert installation"; "Extended warranty available"];
           r_images := None;
           r_specifications :=
             Some (list_to_map
                     [("Store Pickup", "Available");
                      ("Geek Squad", "Setup available");
                      ("Warranty", "Manufacturer + Extended options")]) |}
  else if String.eqb site "target.com" then
    price ← getRandomPrice;
    ret {| r_price := price;
           r_rating := Some "4.2/5 (892 reviews)";
           r_description := None;
           r_availability := Some "Limited stock";
           r_features :=
             Some ["Target Circle rewards"; "Same day delivery";
                   "Drive up available"; "RedCard discount"];
           r_images := None;
           r_specifications :=
             Some (list_to_map
                     [("Delivery", "Same day available");
                      ("Pickup", "Drive up or in-store");
                      ("Returns", "90 days with receipt")]) |}
  else if String.eqb site "walmart.com" then
    price ← getRandomPrice;
    ret {| r_price := price;
           r_rating := Some "4.1/5 (567 reviews)";
           r_description := None;
           r_availability := Some "In Stock";
           r_features :=
             Some ["Everyday low price"; "Free shipping $35+";
                   "Pickup available"; "Rollback pricing"];
           r_images := None;
           r_specifications :=
             Some (list_to_map
                     [("Shipping", "Free on $35+");
                      ("Pickup", "Free store pickup");
                      ("Returns", "90 days")]) |}
  else ret empty_result.

Definition scrapeSite (site productName : string) : M Ext ScraperResult :=
  info now "PlaywrightScraper: Navigating to site"
    (Some [("site", MStr site)]);;
  getSiteSpecificData site productName.

(** The loop over the sites, with its [try]/[catch] and the wait that ends
    every turn. *)
Fixpoint scrape_sites (productName : string) (sites : list string)
    (results : list ScraperResult) : M Ext (list ScraperResult) :=
  match sites with
  | [] => ret results
  | site :: rest =>
      info now "PlaywrightScraper: Scraping site"
        (Some [("site", MStr site); ("product", MStr productName)]);;
      results' ←
        try_catch
          (siteData ← scrapeSite site productName;
           ret (results ++ [siteData]))
          (λ e,
           warn now "PlaywrightScraper: Site scraping failed"
             (Some [("site", MStr site); ("error", MStr (errorMessage e))]);;
           ret results);
      u ← Math_random random_seq;
      sleep wait (1000 + u * 500)%Q;;
      scrape_sites productName rest results'
  end.

Definition sites : list string :=
  ["amazon.com"; "bestbuy.com"; "target.com"; "walmart.com"].

(** The object [scrapeProduct] resolves to is the one [mergeResults]
    builds. *)
Definition scrapeProduct (productName : string) : M Ext ProductData :=
  info now "PlaywrightScraper: Starting product scrape"
    (Some [("product", MStr productName)]);;
  try_catch
    ((if name_is_blank productName
      then throw (ErrorObject "Product name is required")
      else ret ());;
     results ← scrape_sites productName sites [];
     if (length results =? 0)%nat
     then throw (ErrorObject "No data could be scraped from any site")
     else
       let productData := mergeResults parseFloat_decimal results productName in
       info now "PlaywrightScraper: Product scrape completed"
         (Some [("product", MStr productName);
                ("sitesScraped", MNum (length results))]);;
       ret productData)
    (λ e,
     error now "PlaywrightScraper: Scrape failed"
       (Some [("product", MStr productName);
              ("error", MStr (errorMessage e))]);;
     throw e).
End PlaywrightScraper.
End PlaywrightScraper.

Definition sample_wait : Q → unit → unit := λ _ e, e.

Module PuppeteerScraper.

(** What [executeVisionTask] resolves to, read as [any] by
    [aggregateVisionResults]. *)
Record VisionResult := mkVision {
  visualFeatures : option (list string);
  extractedText : option string;
  v_specifications : option (gmap string string);
  v_price : option string;
  v_rating : option string;
  v_availability : option string
}.

(** One turn of the loop of [aggregateVisionResults]. *)
Definition aggregate_step (aggregated : ProductData) (result : VisionResult)
  : ProductData :=
  {| m_name := m_name aggregated;
     m_price := first_writer (m_price aggregated) (v_price result);
     m_rating := first_writer (m_rating aggregated) (v_rating result);
     m_features :=
       union_array (m_features aggregated) (visualFeatures result);
     m_description :=
       first_writer (m_description aggregated) (extractedText result);
     m_availability :=
       first_writer (m_availability aggregated) (v_availability result);
     m_images := m_images aggregated;
     m_specifications :=
       spread_specs (m_specifications aggregated) (v_specifications result) |}.

(** The object literal [aggregated] has no [images]. *)
Definition aggregateVisionResults (results : list VisionResult)
    (productName : string) : ProductData :=
  fold_left aggregate_step results (merged_init productName).

Definition getMockVisualFeatures (productName : string) : list string :=
  let commonFeatures :=
    ["Sleek design identified"; "Premium materials detected";
     "Modern interface visible"; "Quality construction observed"] in
  let phoneFeatures :=
    ["Multiple camera lenses detected"; "Fingerprint sensor visible";
     "Charging port identified"; "Screen bezels analyzed";
     "Button placement mapped"] in
  if isPhone productName then commonFeatures ++ phoneFeatures
  else commonFeatures.

Definition getMockExtractedText (productName : string) : string :=
  productName +:+
  " features advanced technology with premium build quality. AI vision analysis reveals high-quality materials and thoughtful design elements throughout the product.".

Definition getMockVisualSpecs (productName : string) : gmap string string :=
  if isPhone productName then
    list_to_map
      [("Screen Size", "6.1-6.8 inches (visually measured)");
       ("Camera Count", "3-4 lenses detected");
       ("Build Material", "Glass and metal construction");
       ("Color Options", "Multiple variants identified");
       ("Port Type", "USB-C/Lightning detected")]
  else
    list_to_map
      [("Visual Quality", "Premium appearance");
       ("Build Type", "Solid construction");
       ("Design Style", "Modern aesthetic")].

Definition prices : list string :=
  ["$399"; "$599"; "$799"; "$999"; "$1199"; "$1399"].

Definition ratings : list string :=
  ["4.3/5 (AI analyzed)"; "4.6/5 (Vision detected)"; "4.4/5 (OCR extracted)";
   "4.7/5 (Image processed)"].

Definition visionTasks : list string :=
  ["Identify product images and extract visual features";
   "Analyze product screenshots for specifications";
   "Extract text from product images using OCR";
   "Identify UI elements for interaction"].

Section PuppeteerScraper.
Context {Ext : Type}.
Variable now : Ext → string.
Variable random_seq : nat → Q.
Variable wait : Q → Ext → Ext.

Definition getMockVisualPrice : M Ext (option string) :=
  u ← Math_random random_seq;
  ret (array_get prices (random_index u (length prices))).

Definition getMockVisualRating : M Ext (option string) :=
  u ← Math_random random_seq;
  ret (array_get ratings (random_index u (length ratings))).

(** The properties of [mockResults] are evaluated in the order they are
    written: the price is drawn before the rating. *)
Definition executeVisionTask (task productName : string) : M Ext VisionResult :=
  price ← getMockVisualPrice;
  rating ← getMockVisualRating;
  ret {| visualFeatures := Some (getMockVisualFeatures productName);
         extractedText := Some (getMockExtractedText productName);
         v_specifications := Some (getMockVisualSpecs productName);
         v_price := price;
         v_rating := rating;
         v_availability := Some "Visually confirmed in stock" |}.

Fixpoint run_tasks (productName : string) (tasks : list string)
    (results : list VisionResult) : M Ext (list VisionResult) :=
  match tasks with
  | [] => ret results
  | task :: rest =>
      info now "PuppeteerScraper: Executing vision task"
        (Some [("task", MStr task); ("product", MStr productName)]);;
      results' ←
        try_catch
          (taskData ← executeVisionTask task productName;
           ret (results ++ [taskData]))
          (λ e,
           warn now "PuppeteerScraper: Vision task failed"
             (Some [("task", MStr task); ("error", MStr (errorMessage e))]);;
           ret results);
      u ← Math_random random_seq;
      sleep wait (900 + u * 600)%Q;;
      run_tasks productName rest results'
  end.

Definition scrapeProduct (productName : string) : M Ext ProductData :=
  info now "PuppeteerScraper: Starting product scrape"
    (Some [("product", MStr productName)]);;
  try_catch
    ((if name_is_blank productName
      then throw (ErrorObject "Product name is required")
      else ret ());;
     results ← run_tasks productName visionTasks [];
     if (length results =? 0)%nat
     then throw (ErrorObject "No vision data could be extracted")
     else
       let productData := aggregateVisionResults results productName in
       info now "PuppeteerScraper: Product scrape completed"
         (Some [("product", MStr productName);
                ("visionTasksCompleted", MNum (length results))]);;
       ret productData)
    (λ e,
     error now "PuppeteerScraper: Scrape failed"
       (Some [("product", MStr productName);
              ("error", MStr (errorMessage e))]);;
     throw e).
End PuppeteerScraper.
End PuppeteerScraper.

(** A task result read as a scraper result: the visual features are the
    features, the extracted text is the description. *)
Definition vision_as_result (v : PuppeteerScraper.VisionResult) : ScraperResult :=
  mkResult (PuppeteerScraper.v_price v) (PuppeteerScraper.v_rating v)
    (PuppeteerScraper.extractedText v) (PuppeteerScraper.v_availability v)
    (PuppeteerScraper.visualFeatures v) None
    (PuppeteerScraper.v_specifications v).

(** ** The aggregation of [ScrapybaraBrowser]

    [aggregateAIResults] (lib/scrapybara-browser.ts) folds the strategy
    results into one product, then fills in what is still empty. *)

Module ScrapybaraBrowser.

(** The [data] of a strategy result, read as [any]: the properties the
    aggregation looks at.  Every strategy sets [confidence]. *)
Record StrategyData := mkData {
  d_price : option string;
  d_rating : option string;
  d_features : option (list string);
  d_keyPoints : option (list string);
  d_specifications : option (gmap string string);
  d_availability : option string;
  confidence : Q
}.

Record StrategyResult := mkStrategyResult {
  strategy : string;
  data : StrategyData
}.

(** The variables of the loop: the object [aggregated], [highestConfidence]
    and [bestPriceData] ([None] for [null]). *)
Record Aggregation := mkAggregation {
  aggregated : ProductData;
  highestConfidence : Q;
  bestPriceData : option StrategyData
}.

(** One turn of [for (const result of results)]. *)
Definition aggregate_step (st : Aggregation) (result : StrategyResult)
  : Aggregation :=
  let d := data result in
  let agg := aggregated st in
  let raised := Qltb (highestConfidence st) (confidence d) in
  {| aggregated :=
       {| m_name := m_name agg;
          m_price := m_price agg;
          m_rating :=
            if String.eqb (strategy result) "Review Analysis" &&
               truthy (d_rating d)
            then default "" (d_rating d) else m_rating agg;
          m_features :=
            union_array (union_array (m_features agg) (d_features d))
              (d_keyPoints d);
          m_description := m_description agg;
          m_availability :=
            first_writer (m_availability agg) (d_availability d);
          m_images := m_images agg;
          m_specifications :=
            spread_specs (m_specifications agg) (d_specifications d) |};
     highestConfidence :=
       if raised then confidence d else highestConfidence st;
     bestPriceData :=
       if raised && truthy (d_price d) then Some d else bestPriceData st |}.

Definition aggregation_init (productName : string) : Aggregation :=
  mkAggregation (merged_init productName) 0 None.

(** [if (!s) s = fallback] *)
Definition or_default (s fallback : string) : string :=
  if truthy_str s then s else fallback.

(** The loop, the use of [bestPriceData], the defaults, the description and
    the two specifications added at the end.  The product
    [highestConfidence * 100] is exact here, where the code rounds it to a
    double before [toFixed]. *)
Definition aggregateAIResults (results : list StrategyResult)
    (productName : string) : ProductData :=
  let st := fold_left aggregate_step results (aggregation_init productName) in
  let agg := aggregated st in
  let price :=
    match bestPriceData st with
    | Some d => default "" (d_price d)
    | None => m_price agg
    end in
  let rating :=
    match bestPriceData st with
    | Some d => first_writer (m_rating agg) (d_rating d)
    | None => m_rating agg
    end in
  {| m_name := m_name agg;
     m_price := or_default price "Price analysis in progress";
     m_rating := or_default rating "Rating analysis in progress";
     m_features := m_features agg;
     m_description :=
       productName +:+
       " analyzed using advanced AI-powered browser automation with computer vision and intelligent interaction capabilities.";
     m_availability :=
       or_default (m_availability agg) "Availability being verified";
     m_images := m_images agg;
     m_specifications :=
       <["Analysis Method" := "ScrapybaraBrowser AI"]>
         (<["AI Confidence" :=
              toFixed1 (highestConfidence st * 100)%Q +:+ "%"]>
            (m_specifications agg)) |}.

End ScrapybaraBrowser.

(** The object a scraper's aggregation returns, as the route's merge reads
    it: every property is set but [images], which the object does not
    have. *)
Definition product_as_result (p : ProductData) : ScraperResult :=
  mkResult (Some (m_price p)) (Some (m_rating p)) (Some (m_description p))
    (Some (m_availability p)) (Some (m_features p)) None
    (Some (m_specifications p)).

(** Strategy results of the shapes the four strategies return. *)
Definition sample_ecommerce : ScrapybaraBrowser.StrategyResult :=
  ScrapybaraBrowser.mkStrategyResult "E-commerce Search"
    (ScrapybaraBrowser.mkData (Some "$499.07")
       (Some "4.2/5 (1200 AI-analyzed reviews)")
       (Some ["AI-verified quality construction";
              "AI-detected premium materials";
              "AI-confirmed user-friendly design";
              "AI-validated performance metrics";
              "Fast shipping available"; "Return policy confirmed";
              "Warranty included"])
       None None (Some "AI-detected: In Stock") (23 # 25)).

Definition sample_price_comparison : ScrapybaraBrowser.StrategyResult :=
  ScrapybaraBrowser.mkStrategyResult "Price Comparison"
    (ScrapybaraBrowser.mkData (Some "$399.50") None None None None None
       (22 # 25)).

Definition sample_review : ScrapybaraBrowser.StrategyResult :=
  ScrapybaraBrowser.mkStrategyResult "Review Analysis"
    (ScrapybaraBrowser.mkData None (Some "4.6/5 (3000 AI-analyzed reviews)")
       None
       (Some ["AI-identified: Excellent build quality";
              "AI-identified: Great value for money";
              "AI-identified: Fast performance";
              "AI-identified: User-friendly design"])
       None None (17 # 20)).

Definition sample_specification : ScrapybaraBrowser.StrategyResult :=
  ScrapybaraBrowser.mkStrategyResult "Specification Lookup"
    (ScrapybaraBrowser.mkData None None None None
       (Some (list_to_map
                [("Brand", "AI-detected brand"); ("Model", "Widget");
                 ("Category", "AI-classified category");
                 ("Features", "AI-identified key features");
                 ("Warranty", "AI-found warranty info")]))
       None (9 # 10)).

(** ** The page that calls the route

    [validateInput] and the part of [handleCompare] that decides whether a
    request is sent and builds its body (app/page.tsx).  The button that
    runs [handleCompare] is disabled unless [validateInput] accepts both
    names. *)

(** [value.trim().length >= 2 && value.trim().length <= 100] *)
Definition validateInput (value : string) : bool :=
  (2 <=? length_utf16 (trim value))%nat &&
  (length_utf16 (trim value) <=? 100)%nat.

(** The request [handleCompare] sends, [None] where it alerts and returns
    instead.  [selectedMethods] are the ids of the selected methods. *)
Definition handleCompare_request (product1 product2 : string)
    (selectedMethods : list string) : option Request :=
  if negb (truthy_str (trim product1)) || negb (truthy_str (trim product2))
  then None
  else if (length selectedMethods =? 0)%nat then None
  else Some (mkRequest (Some (trim product1)) (Some (trim product2))
               (MethodsArray selectedMethods)).

(** Strings outside ASCII: U+00A0, U+2003 and U+1F4F1 (four bytes). *)
Definition nbsp : string :=
  String (ascii_of_nat 194) (String (ascii_of_nat 160) "").

Definition em_space : string :=
  String (ascii_of_nat 226)
    (String (ascii_of_nat 128) (String (ascii_of_nat 131) "")).

Definition phone_emoji : string :=
  String (ascii_of_nat 240)
    (String (ascii_of_nat 159)
       (String (ascii_of_nat 147) (String (ascii_of_nat 177) ""))).

(** * Properties *)

(** ** Scalar fields of the merge: the first non-empty value stays *)

Lemma truthy_Some s : truthy (Some s) = truthy_str s.
Proof. reflexivity. Qed.

Lemma truthy_str_true s : truthy_str s = true ↔ s ≠ "".
Proof.
  unfold truthy_str. destruct (String.eqb_spec s ""); simpl; split;
    congruence.
Qed.

Lemma first_writer_falsy cur v : truthy v = false → first_writer cur v = cur.
Proof.
  intros Hv. unfold first_writer. destruct v as [s|]; [|done].
  by rewrite Hv.
Qed.

Lemma first_writer_kept cur v :
  truthy_str cur = true → first_writer cur v = cur.
Proof.
  intros Hc. destruct v as [s|]; simpl; [|done].
  rewrite Hc. simpl. by rewrite andb_false_r.
Qed.

Lemma first_writer_taken s : truthy_str s = true → first_writer "" (Some s) = s.
Proof. intros Hs. unfold first_writer. rewrite truthy_Some, Hs. done. Qed.

Section FirstWriter.
Variable get : ScraperResult → option string.

Let step (cur : string) (r : ScraperResult) : string :=
  first_writer cur (get r).

Lemma fold_first_writer_kept rs cur :
  truthy_str cur = true → fold_left step rs cur = cur.
Proof.
  induction rs as [|r rs IH]; simpl; [done|]. intros Hc.
  unfold step at 2. rewrite first_writer_kept by done. auto.
Qed.

Lemma fold_first_writer_falsy rs cur :
  (∀ r, r ∈ rs → truthy (get r) = false) → fold_left step rs cur = cur.
Proof.
  induction rs as [|r rs IH]; simpl; [done|]. intros Hall.
  unfold step at 2. rewrite first_writer_falsy by (apply Hall; left).
  apply IH. intros r' Hr'. apply Hall. by right.
Qed.

Lemma fold_first_writer_first before r after s :
  (∀ r', r' ∈ before → truthy (get r') = false) →
  get r = Some s → s ≠ "" →
  fold_left step (before ++ r :: after) "" = s.
Proof.
  intros Hbefore Hr Hs. rewrite fold_left_app.
  rewrite (fold_first_writer_falsy before) by exact Hbefore. simpl.
  apply truthy_str_true in Hs.
  unfold step at 2. rewrite Hr, first_writer_taken by exact Hs.
  by apply fold_first_writer_kept.
Qed.
End FirstWriter.

(** The scalar fields of the accumulator evolve independently of each
    other. *)
Lemma merged_field_fold f rs p :
  merged_field f (fold_left merge_step rs p) =
  fold_left (λ cur r, first_writer cur (result_field f r)) rs
    (merged_field f p).
Proof.
  revert p. induction rs as [|r rs IH]; intros p; simpl; [done|].
  rewrite IH. by destruct f.
Qed.

Lemma merged_name_fold rs p : m_name (fold_left merge_step rs p) = m_name p.
Proof. revert p. induction rs as [|r rs IH]; intros p; simpl; [done|]. by rewrite IH. Qed.

Lemma mergeProductData_name results productName :
  m_name (mergeProductData results productName) = productName.
Proof. unfold mergeProductData. by rewrite merged_name_fold. Qed.

Lemma mergeProductData_field_first f before r after s productName :
  (∀ r', r' ∈ before → truthy (result_field f r') = false) →
  result_field f r = Some s → s ≠ "" →
  merged_field f (mergeProductData (before ++ r :: after) productName) = s.
Proof.
  intros Hbefore Hr Hs. unfold mergeProductData. rewrite merged_field_fold.
  replace (merged_field f (merged_init productName)) with "" by by destruct f.
  by apply (fold_first_writer_first (result_field f)).
Qed.

Lemma mergeProductData_field_none f results productName :
  (∀ r, r ∈ results → truthy (result_field f r) = false) →
  merged_field f (mergeProductData results productName) = "".
Proof.
  intros Hall. unfold mergeProductData. rewrite merged_field_fold.
  rewrite (fold_first_writer_falsy (result_field f)) by done. by destruct f.
Qed.

(** C6: for [price], [availability] and [description], the merged value is
    the value of the first record of the sequence whose value for that field
    is non-empty; whatever the later records hold is ignored. *)
Theorem mergeProductData_first_writer_wins
    (f : ScalarField) (before after : list ScraperResult) (r : ScraperResult)
    (s productName : string) :
  f ∈ [Price; Availability; Description] →
  (∀ r', r' ∈ before → truthy (result_field f r') = false) →
  result_field f r = Some s → s ≠ "" →
  merged_field f (mergeProductData (before ++ r :: after) productName) = s.
Proof.
  intros _ Hbefore Hr Hs. unfold mergeProductData.
  rewrite merged_field_fold, fold_left_app.
  rewrite (fold_first_writer_falsy (result_field f) before) by exact Hbefore.
  simpl. rewrite Hr. apply truthy_str_true in Hs.
  replace (merged_field f (merged_init productName)) with "" by by destruct f.
  rewrite first_writer_taken by exact Hs.
  by apply (fold_first_writer_kept (result_field f)).
Qed.

Lemma mergeProductData_first_writer_wins_witness :
  m_price (mergeProductData [with_price "$10"; with_price "$20"] "Widget")
  = "$10".
Proof.
  apply (mergeProductData_first_writer_wins Price [] [with_price "$20"]
           (with_price "$10") "$10" "Widget").
  - set_solver.
  - intros r' Hr'. inversion Hr'.
  - reflexivity.
  - discriminate.
Defined.

(** An empty or missing value never blocks a later one. *)
Example mergeProductData_price_skips_empty :
  m_price (mergeProductData
             [empty_result; with_price ""; with_price "$20"; with_price "$10"]
             "Widget") = "$20".
Proof. reflexivity. Qed.

(** ** The rating of the top-level merge *)




(** ** The merge of an empty sequence *)

(** The claim that an empty sequence makes the merge fail does not hold:
    the call completes normally. *)
Lemma empty_merge_does_not_fail :
  ¬ fails_with (call_mergeProductData [] "Widget") "EmptyMergeInput" ∧
  ∀ e, call_mergeProductData [] "Widget" ≠ Throw e.
Proof. split; [intros H|intros e H]; discriminate H. Qed.

(** C4, as the code has it: merging an empty sequence completes normally
    and returns the record that carries the requested name and is empty in
    every other field. *)
Theorem mergeProductData_empty (productName : string) :
  call_mergeProductData [] productName =
  Normal {| m_name := productName; m_price := ""; m_rating := "";
            m_features := []; m_description := ""; m_availability := "";
            m_images := []; m_specifications := ∅ |}.
Proof. reflexivity. Qed.

(** ** The rating of the per-scraper merge

    [PlaywrightScraper.mergeResults] is where the "highest rating" rule
    lives: among the ratings whose number is positive, the highest wins and
    the earliest on a tie. *)

Lemma Qltb_lt x y : Qltb x y = true ↔ (x < y)%Q.
Proof. unfold Qltb, Qlt. apply Z.ltb_lt. Qed.

Lemma Qltb_ge x y : Qltb x y = false ↔ (y <= x)%Q.
Proof. unfold Qltb, Qle. apply Z.ltb_ge. Qed.

Section HighestRating.
Variable parseFloat : string → option Q.

Local Abbreviation score := (rating_score parseFloat).

Lemma rating_number_Some_rating r q :
  rating_number parseFloat (r_rating r) = Some q →
  ∃ s, r_rating r = Some s ∧ score r = q.
Proof.
  intros Hq. unfold rating_score. rewrite Hq. simpl.
  destruct (r_rating r) as [s|]; [eauto|discriminate].
Qed.

Lemma rating_inv_step seen st x :
  rating_inv parseFloat seen st →
  rating_inv parseFloat (seen ++ [x]) (rating_step parseFloat st x).
Proof.
  intros Hinv. unfold rating_step.
  destruct (rating_number parseFloat (r_rating x)) as [q'|] eqn:Hq'.
  - destruct (rating_number_Some_rating _ _ Hq') as (s' & Hs' & Hsc).
    rewrite Hs'. destruct (Qltb (fst st) q') eqn:Hlt.
    + apply Qltb_lt in Hlt. right. simpl. split.
      { destruct Hinv as [[-> _]|[Hpos _]]; simpl in *; lra. }
      exists (length seen), x. rewrite list_lookup_middle by done.
      do 3 (split; [done|]). intros j r' H. split.
      * destruct (decide (j < length seen)) as [Hj|Hj].
        -- rewrite lookup_app_l in H by done.
           destruct Hinv as [[-> Hall]|(? & ? & ? & ? & ? & ? & Hall)].
           ++ specialize (Hall _ _ H). simpl in Hlt. lra.
           ++ destruct (Hall _ _ H). lra.
        -- apply lookup_lt_Some in H as Hlen. rewrite length_app in Hlen.
           simpl in Hlen. assert (j = length seen) as -> by lia.
           rewrite list_lookup_middle in H by done. simplify_eq. lra.
      * intros Hj. rewrite lookup_app_l in H by done.
        destruct Hinv as [[-> Hall]|(? & ? & ? & ? & ? & ? & Hall)].
        -- specialize (Hall _ _ H). simpl in Hlt. lra.
        -- destruct (Hall _ _ H). lra.
    + apply Qltb_ge in Hlt.
      destruct Hinv as [[-> Hall]|(Hpos & i & r & Hi & Hr & Hsr & Hall)].
      * left. split; [done|]. intros j r' Hj.
        destruct (decide (j < length seen)) as [Hlen|Hlen].
        -- rewrite lookup_app_l in Hj by done. eauto.
        -- apply lookup_lt_Some in Hj as Hlen'. rewrite length_app in Hlen'.
           simpl in Hlen'. assert (j = length seen) as -> by lia.
           rewrite list_lookup_middle in Hj by done. simplify_eq.
           simpl in Hlt. lra.
      * right. split; [done|]. exists i, r.
        apply lookup_lt_Some in Hi as Hilen.
        rewrite lookup_app_l by done. do 3 (split; [done|]). intros j r' H. split.
        -- destruct (decide (j < length seen)) as [Hlen|Hlen].
           ++ rewrite lookup_app_l in H by done. by destruct (Hall _ _ H).
           ++ apply lookup_lt_Some in H as Hlen'. rewrite length_app in Hlen'.
              simpl in Hlen'. assert (j = length seen) as -> by lia.
              rewrite list_lookup_middle in H by done. simplify_eq. lra.
        -- intros Hj. rewrite lookup_app_l in H by lia.
           destruct (Hall _ _ H) as [_ Hlt']. by apply Hlt'.
  - assert (score x = 0%Q) as Hx by (unfold rating_score; by rewrite Hq').
    assert (rating_inv parseFloat (seen ++ [x]) st) as Hgoal.
    { destruct Hinv as [[-> Hall]|(Hpos & i & r & Hi & Hr & Hsr & Hall)].
      - left. split; [done|]. intros j r' Hj.
        destruct (decide (j < length seen)) as [Hlen|Hlen].
        + rewrite lookup_app_l in Hj by done. eauto.
        + apply lookup_lt_Some in Hj as Hlen'. rewrite length_app in Hlen'.
          simpl in Hlen'. assert (j = length seen) as -> by lia.
          rewrite list_lookup_middle in Hj by done. simplify_eq.
          rewrite Hx. lra.
      - right. split; [done|]. exists i, r.
        apply lookup_lt_Some in Hi as Hilen.
        rewrite lookup_app_l by done. do 3 (split; [done|]). intros j r' H. split.
        + destruct (decide (j < length seen)) as [Hlen|Hlen].
          * rewrite lookup_app_l in H by done. by destruct (Hall _ _ H).
          * apply lookup_lt_Some in H as Hlen'. rewrite length_app in Hlen'.
            simpl in Hlen'. assert (j = length seen) as -> by lia.
            rewrite list_lookup_middle in H by done. simplify_eq.
            rewrite Hx. lra.
        + intros Hj. rewrite lookup_app_l in H by lia.
          destruct (Hall _ _ H) as [_ Hlt']. by apply Hlt'. }
    by destruct (r_rating x).
Qed.

Lemma rating_inv_fold results :
  rating_inv parseFloat results (fold_left (rating_step parseFloat) results (0%Q, "")).
Proof.
  induction results as [|x seen IH] using rev_ind.
  - left. split; [done|]. intros j r Hj. by rewrite lookup_nil in Hj.
  - rewrite fold_left_app. simpl. by apply rating_inv_step.
Qed.

(** When some record carries a positive rating number, the rating
    [PlaywrightScraper.mergeResults] keeps is the one of the earliest record
    with the highest number. *)
Lemma mergeResults_rating_highest results productName :
  (∃ r, r ∈ results ∧ (0 < score r)%Q) →
  rating_highest_earliest parseFloat results
    (m_rating (mergeResults parseFloat results productName)).
Proof.
  intros (r0 & Hr0 & Hpos0). simpl. unfold highest_rating.
  destruct (rating_inv_fold results)
    as [[_ Hall]|(Hpos & i & r & Hi & Hr & Hsr & Hall)].
  - apply list_elem_of_lookup in Hr0 as [j Hj].
    specialize (Hall _ _ Hj). lra.
  - exists i, r. split; [done|]. split; [done|].
    intros j r' Hj. rewrite Hsr. by apply Hall.
Qed.
End HighestRating.

Example mergeResults_rating_example :
  m_rating (mergeResults parseFloat_decimal
              [with_rating "4.1/5"; with_rating "4.7/5"; with_rating "4.7/5 (y)"]
              "Widget") = "4.7/5".
Proof. reflexivity. Qed.

(** ** Specifications: key union, the later record overwrites *)

Lemma merged_specifications_fold rs p :
  m_specifications (fold_left merge_step rs p) =
  fold_left (λ cur r, spread_specs cur (r_specifications r)) rs
    (m_specifications p).
Proof.
  revert p. induction rs as [|r rs IH]; intros p; simpl; [done|].
  by rewrite IH.
Qed.

Section SpreadSpecs.
Let step (cur : gmap string string) (r : ScraperResult) : gmap string string :=
  spread_specs cur (r_specifications r).

Lemma fold_spread_lookup_absent rs cur k :
  (∀ r m, r ∈ rs → r_specifications r = Some m → m !! k = None) →
  fold_left step rs cur !! k = cur !! k.
Proof.
  revert cur. induction rs as [|r rs IH]; intros cur Hrs; simpl; [done|].
  rewrite IH by (intros r' m' Hr'; apply Hrs; by right).
  unfold step, spread_specs.
  destruct (r_specifications r) as [m|] eqn:Hm; [|done].
  rewrite lookup_union_r; [done|]. apply (Hrs r); [left|done].
Qed.

Lemma fold_spread_lookup_last before r after m cur k v :
  r_specifications r = Some m → m !! k = Some v →
  (∀ r' m', r' ∈ after → r_specifications r' = Some m' → m' !! k = None) →
  fold_left step (before ++ r :: after) cur !! k = Some v.
Proof.
  intros Hm Hk Hafter. rewrite fold_left_app. simpl.
  rewrite fold_spread_lookup_absent by done.
  unfold step at 1, spread_specs. rewrite Hm.
  by apply lookup_union_Some_l.
Qed.

Lemma fold_spread_dom rs cur k :
  k ∈ dom (fold_left step rs cur) ↔
  k ∈ dom cur ∨ ∃ r m, r ∈ rs ∧ r_specifications r = Some m ∧ k ∈ dom m.
Proof.
  revert cur. induction rs as [|r rs IH]; intros cur; simpl.
  - split; [by left|]. intros [?|(r & m & Hr & _)]; [done|]. inversion Hr.
  - rewrite IH. unfold step at 1, spread_specs. split.
    + intros [Hk|(r' & m' & Hr' & Hm' & Hk)].
      * destruct (r_specifications r) as [m|] eqn:Hm; [|by left].
        rewrite dom_union in Hk. apply elem_of_union in Hk as [Hk|Hk].
        -- right. exists r, m. split; [left|done].
        -- by left.
      * right. exists r', m'. split; [by right|done].
    + intros [Hk|(r' & m' & Hr' & Hm' & Hk)].
      * left. destruct (r_specifications r); [|done].
        rewrite dom_union. apply elem_of_union. by right.
      * apply elem_of_cons in Hr' as [->|Hr'].
        -- left. rewrite Hm'. rewrite dom_union. apply elem_of_union. by left.
        -- right. by exists r', m'.
Qed.
End SpreadSpecs.

(** C7: the merged [specifications] has exactly the keys of the input
    records' specifications, and under each key the value of the last record
    of the sequence that has the key. *)
Theorem mergeProductData_specifications_last_writer_wins
    (results : list ScraperResult) (productName : string) :
  (∀ k, k ∈ dom (m_specifications (mergeProductData results productName)) ↔
        ∃ r m, r ∈ results ∧ r_specifications r = Some m ∧ k ∈ dom m) ∧
  (∀ before r after m k v,
     results = before ++ r :: after →
     r_specifications r = Some m → m !! k = Some v →
     (∀ r' m', r' ∈ after → r_specifications r' = Some m' → m' !! k = None) →
     m_specifications (mergeProductData results productName) !! k = Some v).
Proof.
  unfold mergeProductData. rewrite merged_specifications_fold. split.
  - intros k. rewrite fold_spread_dom. simpl. rewrite dom_empty.
    split; [intros [Hk|Hk]; [set_solver|done]|by right].
  - intros before r after m k v -> Hm Hk Hafter.
    by apply (fold_spread_lookup_last before r after m).
Qed.

Lemma mergeProductData_specifications_last_writer_wins_witness :
  m_specifications
    (mergeProductData
       [with_specifications [("A", "1")];
        with_specifications [("A", "2"); ("B", "3")]] "Widget") !! "A"
  = Some "2".
Proof.
  apply (proj2 (mergeProductData_specifications_last_writer_wins
                  [with_specifications [("A", "1")];
                   with_specifications [("A", "2"); ("B", "3")]] "Widget")
           [with_specifications [("A", "1")]]
           (with_specifications [("A", "2"); ("B", "3")]) []
           (list_to_map [("A", "2"); ("B", "3")])).
  - reflexivity.
  - reflexivity.
  - vm_compute. reflexivity.
  - intros r' m' Hr'. inversion Hr'.
Defined.

Example mergeProductData_specifications_example :
  m_specifications
    (mergeProductData
       [with_specifications [("A", "1")];
        with_specifications [("A", "2"); ("B", "3")]] "Widget")
  = list_to_map [("A", "2"); ("B", "3")].
Proof. by vm_compute. Qed.

(** ** Features and images: union without duplicates, in first-seen order *)

Lemma set_add_all_app seen xs ys :
  set_add_all seen (xs ++ ys) = set_add_all (set_add_all seen xs) ys.
Proof. revert seen. induction xs as [|x xs IH]; intros seen; simpl; auto. Qed.

Lemma set_add_all_NoDup seen xs : NoDup seen → NoDup (set_add_all seen xs).
Proof.
  revert seen. induction xs as [|x xs IH]; intros seen Hnd; simpl; [done|].
  apply IH. case_bool_decide; [done|].
  apply NoDup_app. split; [done|]. split; [|apply NoDup_singleton].
  intros y Hy ->%list_elem_of_singleton. done.
Qed.

Lemma set_add_all_elem_of seen xs x :
  x ∈ set_add_all seen xs ↔ x ∈ seen ∨ x ∈ xs.
Proof.
  revert seen. induction xs as [|a xs IH]; intros seen; simpl.
  - split; [by left|]. intros [?|Hx]; [done|]. inversion Hx.
  - rewrite IH. case_bool_decide as Ha.
    + rewrite elem_of_cons. split; [tauto|].
      intros [?|[->|?]]; auto.
    + rewrite elem_of_app, list_elem_of_singleton, elem_of_cons. tauto.
Qed.

(** Adding the elements of an array that has no duplicates to a set whose
    elements are all different from them rebuilds the array. *)
Lemma set_add_all_fresh seen xs :
  NoDup (seen ++ xs) → set_add_all seen xs = seen ++ xs.
Proof.
  revert seen. induction xs as [|x xs IH]; intros seen Hnd; simpl.
  - by rewrite app_nil_r.
  - apply NoDup_app in Hnd as Hnd'. destruct Hnd' as (_ & Hdisj & _).
    rewrite bool_decide_eq_false_2.
    + rewrite IH; rewrite <- app_assoc; done.
    + intros Hx. apply (Hdisj x Hx). left.
Qed.

Lemma array_from_set_NoDup_id xs : NoDup xs → array_from_set xs = xs.
Proof. intros Hnd. unfold array_from_set. by rewrite set_add_all_fresh. Qed.

Lemma union_array_set_add_all cur v :
  NoDup cur → union_array cur v = set_add_all cur (default [] v).
Proof.
  intros Hnd. destruct v as [xs|]; simpl; [|done].
  unfold array_from_set. rewrite set_add_all_app.
  by rewrite (set_add_all_fresh [] cur).
Qed.

Lemma merged_array_fold f rs p :
  merged_array f (fold_left merge_step rs p) =
  fold_left (λ cur r, union_array cur (result_array f r)) rs
    (merged_array f p).
Proof.
  revert p. induction rs as [|r rs IH]; intros p; simpl; [done|].
  rewrite IH. by destruct f.
Qed.

Lemma fold_union_array f rs cur :
  NoDup cur →
  fold_left (λ cur r, union_array cur (result_array f r)) rs cur =
  set_add_all cur (all_strings f rs).
Proof.
  revert cur. induction rs as [|r rs IH]; intros cur Hnd; simpl; [done|].
  unfold all_strings. simpl. rewrite set_add_all_app.
  rewrite union_array_set_add_all by done.
  apply IH. by apply set_add_all_NoDup.
Qed.

(** The merged array is the [Set] built from all the strings in sequence
    order. *)
Lemma mergeProductData_array f results productName :
  merged_array f (mergeProductData results productName) =
  array_from_set (all_strings f results).
Proof.
  unfold mergeProductData. rewrite merged_array_fold.
  replace (merged_array f (merged_init productName)) with (@nil string)
    by by destruct f.
  apply fold_union_array, NoDup_nil_2.
Qed.

Lemma precedes_snoc x y l a :
  precedes x y (l ++ [a]) → precedes x y l ∨ (y = a ∧ x ∈ l).
Proof.
  intros (l1 & l2 & l3 & Heq).
  destruct l3 as [|b l3 _] using rev_ind.
  - replace (l1 ++ x :: l2 ++ [y]) with ((l1 ++ x :: l2) ++ [y]) in Heq
      by (by rewrite <- app_assoc).
    apply app_inj_tail in Heq as [-> ->]. right. split; [done|].
    apply elem_of_app. right. left.
  - replace (l1 ++ x :: l2 ++ y :: l3 ++ [b])
      with ((l1 ++ x :: l2 ++ y :: l3) ++ [b]) in Heq.
    + apply app_inj_tail in Heq as [-> ->]. left. by exists l1, l2, l3.
    + rewrite <- app_assoc. simpl. rewrite <- app_assoc. done.
Qed.

Lemma first_seen_before_cons x y a l :
  x ≠ a → y ≠ a → first_seen_before x y l → first_seen_before x y (a :: l).
Proof.
  intros Hx Hy (l1 & l2 & -> & Hx1 & Hy1). exists (a :: l1), l2.
  split; [done|]. split; intros [?|?]%elem_of_cons; done.
Qed.

Lemma set_add_all_order seen xs x y :
  precedes x y (set_add_all seen xs) →
  precedes x y seen ∨ (x ∈ seen ∧ (y ∉ seen)) ∨
  ((x ∉ seen) ∧ (y ∉ seen) ∧ first_seen_before x y xs).
Proof.
  revert seen. induction xs as [|a xs IH]; intros seen; simpl; [by left|].
  intros Hp. apply IH in Hp. case_bool_decide as Ha.
  - destruct Hp as [Hp|[Hp|(Hx & Hy & Hp)]]; [by left|by right; left|].
    right. right. split; [done|]. split; [done|].
    apply first_seen_before_cons; [| |done]; by intros ->.
  - destruct Hp as [Hp|[[Hx Hy]|(Hx & Hy & Hp)]].
    + apply precedes_snoc in Hp as [Hp|[-> Hx]]; [by left|].
      right. left. done.
    + rewrite elem_of_app, list_elem_of_singleton in Hx, Hy.
      destruct Hx as [Hx| ->].
      * right. left. split; [done|]. tauto.
      * right. right. split; [done|]. split; [tauto|].
        exists [], xs. split; [done|]. split; apply not_elem_of_nil.
    + rewrite elem_of_app, list_elem_of_singleton in Hx, Hy.
      right. right. split; [tauto|]. split; [tauto|].
      apply first_seen_before_cons; [| |done]; intros ->; tauto.
Qed.

(** C8: the merged [features] and [images] hold every string of the
    corresponding lists of the records and nothing else, each exactly once,
    and a string stands before another in the output only if its first
    occurrence in the sequence comes before every occurrence of the other. *)
Theorem mergeProductData_arrays_union_dedup_first_seen
    (f : ArrayField) (results : list ScraperResult) (productName : string) :
  let out := merged_array f (mergeProductData results productName) in
  NoDup out ∧
  (∀ x, x ∈ out ↔ x ∈ all_strings f results) ∧
  (∀ x y, precedes x y out → first_seen_before x y (all_strings f results)).
Proof.
  simpl. rewrite mergeProductData_array. unfold array_from_set.
  split; [apply set_add_all_NoDup, NoDup_nil_2|]. split.
  - intros x. rewrite set_add_all_elem_of. split; [|by right].
    intros [Hx|?]; [inversion Hx|done].
  - intros x y Hp. apply set_add_all_order in Hp.
    destruct Hp as [(l1 & l2 & l3 & Hnil)|[[Hx _]|(_ & _ & Hp)]]; [|inversion Hx|done].
    by destruct l1.
Qed.

Example mergeProductData_features_example :
  m_features
    (mergeProductData
       [with_features ["Fast"; "Light"; "Fast"]; empty_result;
        with_features ["Cheap"; "Light"; "fast"]] "Widget")
  = ["Fast"; "Light"; "Cheap"; "fast"].
Proof. reflexivity. Qed.

(** ** The aggregation absorbs the failures of the scrapers *)

Ltac unfold_route :=
  unfold mbind, M_bind, mret, M_ret, bind, ret, throw, try_catch,
    info, warn, error, addLog, getLogs_route, Math_random in *.

Section RouteProperties.
Context {Ext : Type}.
Variable now : Ext → string.
Variable random_seq : nat → Q.
Variable generateText : Prompt → M Ext string.
Variable OPENAI_API_KEY : option string.
Variable scrapybara playwright puppeteer : string → M Ext ScraperResult.

(** A turn of the loop never completes abruptly: it pushes the data of a
    scraper that returned and logs a warning for one that threw. *)
Lemma scrape_one_run productName scraper results w :
  scrape_one now productName scraper results w =
  match scrapeProduct scraper productName
          (world_at_call now productName scraper w) with
  | (Normal data, w2) =>
      (Normal (results ++ [data]), completed now productName scraper w2)
  | (Throw e, w2) => (Normal results, warned now productName scraper e w2)
  end.
Proof.
  unfold scrape_one, world_at_call, completed, warned. unfold_route. simpl.
  by destruct (scrapeProduct scraper productName _) as [[data|e] w2].
Qed.

Lemma scrape_one_world productName scraper results w :
  snd (scrape_one now productName scraper results w) =
  snd (scrape_one now productName scraper [] w).
Proof.
  rewrite !scrape_one_run.
  by destruct (scrapeProduct scraper productName _) as [[data|e] w2].
Qed.

Lemma scrape_all_run productName scrapers results w :
  scrape_all now productName scrapers results w =
  (Normal (results ++ successes now productName scrapers w),
   world_after_loop now productName scrapers w).
Proof.
  unfold world_after_loop.
  revert results w. induction scrapers as [|scraper rest IH];
    intros results w; simpl.
  - by rewrite app_nil_r.
  - unfold mbind, M_bind, bind.
    rewrite (scrape_one_run productName scraper results w).
    rewrite (scrape_one_run productName scraper [] w).
    destruct (scrapeProduct scraper productName _) as [[data|e] w2]; simpl.
    + rewrite (IH (results ++ [data])), (IH [data]). simpl.
      by rewrite <- app_assoc.
    + by rewrite (IH results), (IH []).
Qed.

Lemma createIntelligentFallback_normal productName (w : World Ext) :
  ∃ fb w', createIntelligentFallback random_seq productName w = (Normal fb, w').
Proof.
  unfold createIntelligentFallback. destruct (isPhone productName);
    unfold_route; simpl; eauto.
Qed.

(** The aggregation, step by step: the loop, then the fallback when the
    loop produced nothing, then the merge. *)
Lemma scrapeProductDataWithFallback_unfold productName scrapers w :
  scrapeProductDataWithFallback now random_seq productName scrapers w =
  match successes now productName scrapers w with
  | [] =>
      match createIntelligentFallback random_seq productName
              (world_at_fallback now productName scrapers w) with
      | (Normal fb, w') => (Normal (mergeProductData [fb] productName), w')
      | (Throw e, w') => (Throw e, w')
      end
  | ok =>
      (Normal (mergeProductData ok productName),
       world_after_loop now productName scrapers w)
  end.
Proof.
  unfold scrapeProductDataWithFallback, world_at_fallback.
  unfold mbind at 1, M_bind at 1, bind at 1.
  rewrite scrape_all_run. simpl.
  destruct (successes now productName scrapers w) as [|d ok]; [|done].
  unfold_route. simpl.
  by destruct (createIntelligentFallback random_seq productName _)
    as [[fb|e] w'].
Qed.

Lemma scrapeProductDataWithFallback_run productName scrapers w :
  let ok := successes now productName scrapers w in
  (ok ≠ [] ∧
   scrapeProductDataWithFallback now random_seq productName scrapers w =
   (Normal (mergeProductData ok productName),
    world_after_loop now productName scrapers w)) ∨
  (ok = [] ∧ ∃ fb w',
     createIntelligentFallback random_seq productName
       (world_at_fallback now productName scrapers w) = (Normal fb, w') ∧
     scrapeProductDataWithFallback now random_seq productName scrapers w =
     (Normal (mergeProductData [fb] productName), w')).
Proof.
  simpl. rewrite scrapeProductDataWithFallback_unfold.
  destruct (successes now productName scrapers w) as [|d ok] eqn:Hok.
  - right. split; [done|].
    destruct (createIntelligentFallback_normal productName
                (world_at_fallback now productName scrapers w))
      as (fb & w' & Hfb).
    exists fb, w'. by rewrite Hfb.
  - left. by split.
Qed.

Lemma scrapeProductDataWithFallback_normal productName scrapers w :
  ∃ p w',
    scrapeProductDataWithFallback now random_seq productName scrapers w =
    (Normal p, w').
Proof.
  destruct (scrapeProductDataWithFallback_run productName scrapers w)
    as [[_ H]|(_ & fb & w' & _ & H)]; eauto.
Qed.
Lemma generateComparison_normal p1 p2 w :
  ∃ text w', generateComparison now generateText p1 p2 w = (Normal text, w').
Proof.
  unfold generateComparison. unfold_route.
  destruct (generateText (ComparisonPrompt p1 p2) w) as [[text|e] w'];
    simpl; eauto.
Qed.

Lemma generateReadme_normal p1 p2 comparison w :
  ∃ text w',
    generateReadme now generateText p1 p2 comparison w = (Normal text, w').
Proof.
  unfold generateReadme. unfold_route.
  destruct (generateText _ w) as [[text|e] w']; simpl; eauto.
Qed.

(** A request with two non-empty names, a key and a non-empty list of
    scrapers runs to the end and is answered with success. *)
Lemma POST_valid_run req n1 n2 ss w :
  product1 req = Some n1 → product2 req = Some n2 →
  truthy_str n1 = true → truthy_str n2 = true →
  truthy OPENAI_API_KEY = true →
  methods_scrapers scrapybara playwright puppeteer (methods req) = ret ss →
  ss ≠ [] →
  ∃ p1 p2 comparison readme logs w',
    POST now random_seq generateText OPENAI_API_KEY
      scrapybara playwright puppeteer req w =
    (Normal (Success p1 p2 comparison readme logs), w') ∧
    m_name p1 = n1 ∧ m_name p2 = n2 ∧
    w_logs w' =
    logs ++ [mkEntry (now (w_ext w')) LInfo
               "Product comparison completed successfully"
               "ProductComparisonAgent" None].
Proof.
  intros Hp1 Hp2 Hn1 Hn2 Hkey Hms Hss.
  unfold POST. rewrite Hp1, Hp2, Hn1, Hn2, Hkey, Hms. simpl.
  destruct ss as [|s ss]; [done|]. clear Hss Hms.
  unfold try_catch, mbind, M_bind, bind. simpl.
  match goal with
  | |- context [scrapeProductDataWithFallback _ _ n1 ?scr ?w1] =>
      destruct (scrapeProductDataWithFallback_run n1 scr w1)
        as [[_ ->]|(_ & fb1 & w2 & _ & ->)]
  end;
  match goal with
  | |- context [scrapeProductDataWithFallback _ _ n2 ?scr ?w1] =>
      destruct (scrapeProductDataWithFallback_run n2 scr w1)
        as [[_ ->]|(_ & fb2 & w3 & _ & ->)]
  end;
  simpl;
  match goal with
  | |- context [generateComparison _ _ ?p1 ?p2 ?w1] =>
      destruct (generateComparison_normal p1 p2 w1) as (c & w4 & ->)
  end;
  match goal with
  | |- context [generateReadme _ _ ?p1 ?p2 ?c' ?w1] =>
      destruct (generateReadme_normal p1 p2 c' w1) as (rd & w5 & ->)
  end;
  simpl; eexists _, _, _, _, _, _; (split; [reflexivity|]);
  rewrite !mergeProductData_name; done.
Qed.

(** Without a key such a request is answered with the configuration error
    before anything else happens. *)
Lemma POST_without_key_run req n1 n2 w :
  product1 req = Some n1 → product2 req = Some n2 →
  truthy_str n1 = true → truthy_str n2 = true →
  truthy OPENAI_API_KEY = false →
  POST now random_seq generateText OPENAI_API_KEY
    scrapybara playwright puppeteer req w =
  (Normal
     (ConfigError
        "OpenAI API key not configured. Please add OPENAI_API_KEY to your .env file."
        "Create a .env file in your project root and add: OPENAI_API_KEY=your_key_here"),
   mkWorld
     (w_logs w ++
        [mkEntry (now (w_ext w)) LError "OpenAI API key not configured"
           "ProductComparisonAgent" None])
     (w_draws w) (w_ext w)).
Proof.
  intros Hp1 Hp2 Hn1 Hn2 Hkey.
  unfold POST. rewrite Hp1, Hp2, Hn1, Hn2, Hkey. simpl. by unfold_route.
Qed.
End RouteProperties.

(** ** The rating of the fallback *)

Lemma tenths_range (u : Q) :
  (0 <= u)%Q → (u < 1)%Q →
  (35 <= Qfloor ((u * (3 # 2) + (7 # 2)) * 10 + (1 # 2)) <= 50)%Z.
Proof.
  intros H0 H1.
  set (v := ((u * (3 # 2) + (7 # 2)) * 10 + (1 # 2))%Q).
  assert (35 + (1 # 2) <= v)%Q as Hlo by (unfold v; lra).
  assert (v < 50 + (1 # 2))%Q as Hhi by (unfold v; lra).
  pose proof (Qfloor_le v) as Hfl. pose proof (Qlt_floor v) as Hfu.
  clearbody v. clear H0 H1. split.
  - destruct (Z.le_gt_cases 35 (Qfloor v)) as [?|Hn]; [assumption|].
    assert (Qfloor v + 1 <= 35)%Z as Hz by lia.
    rewrite Zle_Qle in Hz. change (inject_Z 35) with (35 # 1)%Q in Hz. lra.
  - destruct (Z.le_gt_cases (Qfloor v) 50) as [?|Hn]; [assumption|].
    assert (51 <= Qfloor v)%Z as Hz by lia.
    rewrite Zle_Qle in Hz. change (inject_Z 51) with (51 # 1)%Q in Hz. lra.
Qed.

(** Of a number that is not negative [toFixed1] writes the tenths. *)
Lemma toFixed1_nonneg (x : Q) :
  (0 <= x)%Q →
  toFixed1 x =
  pretty (Qfloor (x * 10 + (1 # 2)) / 10)%Z +:+ "." +:+
  pretty (Qfloor (x * 10 + (1 # 2)) mod 10)%Z.
Proof.
  intros Hx. unfold toFixed1.
  assert (Qabs x = x) as ->.
  { destruct x as [a b]. unfold Qle in Hx. simpl in Hx. unfold Qabs.
    rewrite Z.abs_eq by lia. done. }
  assert (Qltb x 0 = false) as ->.
  { unfold Qltb. apply Z.ltb_ge. unfold Qle in Hx. simpl in *. lia. }
  reflexivity.
Qed.

(** The rating the phone branch of the fallback writes is [d.d/5
    (estimated)] with [d.d] from 3.5 to 5.0, whatever number is drawn. *)
Lemma fallback_phone_rating_form (u : Q) :
  (0 <= u)%Q → (u < 1)%Q →
  ∃ n : Z, (35 <= n <= 50)%Z ∧
    toFixed1 (u * (3 # 2) + (7 # 2)) +:+ "/5 (estimated)" =
    (pretty (n / 10)%Z +:+ "." +:+ pretty (n mod 10)%Z) +:+ "/5 (estimated)".
Proof.
  intros H0 H1. eexists. split; [exact (tenths_range u H0 H1)|].
  by rewrite toFixed1_nonneg by lra.
Qed.

(** The rating the phone branch of the fallback writes has the shape
    [<number>/5...], whatever number is drawn. *)
Lemma fallback_phone_rating_shape (u : Q) :
  (0 <= u)%Q → (u < 1)%Q →
  rating_shape (toFixed1 (u * (3 # 2) + (7 # 2)) +:+ "/5 (estimated)") = true.
Proof.
  intros H0 H1. rewrite toFixed1_nonneg by lra.
  pose proof (tenths_range u H0 H1) as Hn.
  set (n := Qfloor _) in *. clearbody n.
  assert (∃ k : nat, (k < 16)%nat ∧ n = (35 + Z.of_nat k)%Z) as (k & Hk & ->).
  { exists (Z.to_nat (n - 35)). lia. }
  do 16 (destruct k as [|k]; [by vm_compute|]). lia.
Qed.

Lemma first_writer_origin cur v :
  first_writer cur v = cur ∨
  ∃ s, v = Some s ∧ s ≠ "" ∧ first_writer cur v = s.
Proof.
  unfold first_writer. destruct v as [s|]; [|by left].
  destruct (truthy (Some s)) eqn:Hs; simpl; [|by left].
  destruct (negb (truthy_str cur)); [|by left].
  right. exists s. rewrite truthy_Some in Hs. by apply truthy_str_true in Hs.
Qed.

Lemma fold_first_writer_origin (get : ScraperResult → option string) rs cur :
  fold_left (λ cur r, first_writer cur (get r)) rs cur = cur ∨
  ∃ r s, r ∈ rs ∧ get r = Some s ∧ s ≠ "" ∧
         fold_left (λ cur r, first_writer cur (get r)) rs cur = s.
Proof.
  revert cur. induction rs as [|r rs IH]; intros cur; simpl; [by left|].
  destruct (IH (first_writer cur (get r))) as [->|(r' & s & Hr' & Hs & Hne & ->)].
  - destruct (first_writer_origin cur (get r)) as [->|(s & Hs & Hne & ->)];
      [by left|].
    right. exists r, s. split; [left|done].
  - right. exists r', s. split; [by right|done].
Qed.

(** A scalar field of the merged record is empty or is the non-empty value
    of one of the records. *)
Lemma mergeProductData_field_origin f results productName :
  merged_field f (mergeProductData results productName) = "" ∨
  ∃ r s, r ∈ results ∧ result_field f r = Some s ∧ s ≠ "" ∧
         merged_field f (mergeProductData results productName) = s.
Proof.
  unfold mergeProductData. rewrite merged_field_fold.
  replace (merged_field f (merged_init productName)) with "" by by destruct f.
  apply fold_first_writer_origin.
Qed.

(** What the fallback writes as rating. *)
Lemma createIntelligentFallback_rating {Ext} (random_seq : nat → Q)
    productName (w w' : World Ext) fb :
  createIntelligentFallback random_seq productName w = (Normal fb, w') →
  if isPhone productName
  then (∀ i, (0 <= random_seq i)%Q ∧ (random_seq i < 1)%Q) →
       ∃ s (n : Z),
         r_rating fb = Some s ∧ s ≠ "" ∧ rating_shape s = true ∧
         (35 <= n <= 50)%Z ∧
         s = (pretty (n / 10)%Z +:+ "." +:+ pretty (n mod 10)%Z) +:+
             "/5 (estimated)"
  else r_rating fb = Some "Rating varies" ∧ r_price fb = Some "Price varies".
Proof.
  unfold createIntelligentFallback.
  destruct (isPhone productName).
  - unfold mbind, M_bind, bind, Math_random, ret. cbv beta iota zeta.
    intros [= <- _] Hrand. cbv beta iota zeta.
    destruct (Hrand (S (w_draws w))) as [H0 H1].
    pose proof (fallback_phone_rating_shape _ H0 H1) as Hshape.
    destruct (fallback_phone_rating_form _ H0 H1) as (n & Hn & Hform).
    eexists _, n. split; [reflexivity|].
    split; [|done]. intros Heq. rewrite Heq in Hshape. discriminate.
  - unfold ret. by intros [= <- _].
Qed.

(** Two scrapers that both throw: the record is the generic fallback, and
    the log holds two warnings and the notice that fallback data is
    created. *)
Example all_strategies_fail :
  ∃ p w',
    scrapeProductDataWithFallback sample_now sample_random "Widget X"
      [throwing_scraper; throwing_scraper] sample_world = (Normal p, w') ∧
    m_name p = "Widget X" ∧
    m_features p = ["Product features available"; "Check retailer for details"] ∧
    m_availability p = "Check availability" ∧
    map level (w_logs w') = [LInfo; LWarn; LInfo; LWarn; LInfo] ∧
    (message <$> last (w_logs w')) =
      Some "Creating intelligent fallback data for Widget X".
Proof. eexists _, _. split; [by vm_compute|]. by vm_compute. Qed.

(** The rating of a generic fallback is not of the shape [<number>/5...]:
    the claim that every returned rating has that shape fails when every
    scraper throws for a name outside the phone family. *)
Lemma fallback_generic_rating_unshaped :
  ∃ p w',
    scrapeProductDataWithFallback sample_now sample_random "Widget X"
      [throwing_scraper; throwing_scraper] sample_world = (Normal p, w') ∧
    m_rating p = "Rating varies" ∧
    m_rating p ≠ "" ∧
    rating_shape (m_rating p) = false.
Proof. eexists _, _. split; [by vm_compute|]. by vm_compute. Qed.

Example fallback_phone_example :
  ∃ p w',
    scrapeProductDataWithFallback sample_now sample_random "iPhone 15"
      [throwing_scraper] sample_world = (Normal p, w') ∧
    m_price p = "$800.99" ∧ m_rating p = "4.3/5 (estimated)".
Proof. eexists _, _. split; [by vm_compute|]. by vm_compute. Qed.

(** ** Validation of a request *)

Section Validation.
Context {Ext : Type}.
Variable now : Ext → string.
Variable random_seq : nat → Q.
Variable generateText : Prompt → M Ext string.
Variable OPENAI_API_KEY : option string.
Variable scrapybara playwright puppeteer : string → M Ext ScraperResult.


End Validation.



(** ** The heap: allocation and frames *)

Lemma alloc_run {V} (v : V) (h : gmap loc V) :
  ∃ l, alloc v h = Some (l, <[l := v]> h) ∧ h !! l = None.
Proof.
  exists (fresh (dom h)). split; [done|].
  apply not_elem_of_dom, is_fresh.
Qed.

Lemma insert_fresh_subseteq {V} (h0 h : gmap loc V) l v :
  h0 ⊆ h → h0 !! l = None → h0 ⊆ <[l := v]> h.
Proof.
  intros Hsub Hl. apply map_subseteq_spec. intros l' o Hl'.
  rewrite lookup_insert_ne by congruence.
  by apply (lookup_weaken h0).
Qed.

Lemma subseteq_fresh {V} (h0 h : gmap loc V) l :
  h0 ⊆ h → h !! l = None → h0 !! l = None.
Proof.
  intros Hsub Hl. destruct (h0 !! l) as [o|] eqn:Ho; [|done].
  apply (lookup_weaken _ h) in Ho; [congruence|done].
Qed.

(** ** The logger hands out copies of its array *)

Module MaximLoggerFacts.
Import MaximLogger.

Lemma read_array_weaken l h h' elems :
  h ⊆ h' → read_array l h = Some elems → read_array l h' = Some elems.
Proof.
  unfold read_array. intros Hsub Hl.
  destruct (h !! l) as [[e|elems']|] eqn:Hh; simplify_eq.
  by rewrite (lookup_weaken _ _ _ _ Hh Hsub).
Qed.

Lemma read_entry_weaken l h h' e :
  h ⊆ h' → read_entry h l = Some e → read_entry h' l = Some e.
Proof.
  unfold read_entry. intros Hsub Hl.
  destruct (h !! l) as [[e'|elems']|] eqn:Hh; simplify_eq.
  by rewrite (lookup_weaken _ _ _ _ Hh Hsub).
Qed.

Lemma mapM_read_entry_weaken h h' elems es :
  h ⊆ h' →
  mapM (read_entry h) elems = Some es → mapM (read_entry h') elems = Some es.
Proof.
  intros Hsub. rewrite !mapM_Some. intros Hall.
  eapply Forall2_impl; [exact Hall|]. intros l e. by apply read_entry_weaken.
Qed.

Lemma array_entries_Some l h es :
  array_entries l h = Some es ↔
  ∃ elems, read_array l h = Some elems ∧
           mapM (read_entry h) elems = Some es.
Proof.
  unfold array_entries. destruct (read_array l h) as [elems|]; simpl.
  - split; [eauto|]. by intros (? & [= <-] & ?).
  - split; [done|]. by intros (? & ? & ?).
Qed.

Lemma array_entries_weaken l h h' es :
  h ⊆ h' → array_entries l h = Some es → array_entries l h' = Some es.
Proof.
  intros Hsub (elems & Harr & Hes)%array_entries_Some.
  apply array_entries_Some. exists elems.
  split; [by eapply read_array_weaken|by eapply mapM_read_entry_weaken].
Qed.

(** The copy: a new location holding the same references. *)
Lemma getLogs_run lg h es :
  entries_of lg h = Some es →
  ∃ b elems,
    read_array (this_logs lg) h = Some elems ∧
    getLogs lg h = Some (b, <[b := Array elems]> h) ∧
    h !! b = None ∧
    array_entries b (<[b := Array elems]> h) = Some es.
Proof.
  intros (elems & Harr & Hes)%array_entries_Some.
  destruct (alloc_run (Array elems) h) as (b & Hb & Hfresh).
  exists b, elems. split; [done|].
  split.
  { unfold getLogs, mbind, HeapM_bind, reading. by rewrite Harr. }
  split; [done|].
  apply array_entries_Some. exists elems. split.
  - unfold read_array. by rewrite lookup_insert_eq.
  - eapply mapM_read_entry_weaken; [|exact Hes]. by apply insert_subseteq.
Qed.

Lemma filter_entries h lvl elems es :
  mapM (read_entry h) elems = Some es →
  mapM (read_entry h) (List.filter (has_level h lvl) elems) =
  Some (List.filter (λ e, bool_decide (level e = lvl)) es).
Proof.
  rewrite !mapM_Some. induction 1 as [|l e elems es Hl _ IH]; simpl.
  - constructor.
  - unfold has_level at 1. rewrite Hl.
    case_bool_decide; [constructor|]; done.
Qed.

Lemma getLogsByLevel_run lg lvl h es :
  entries_of lg h = Some es →
  ∃ c h',
    getLogsByLevel lg lvl h = Some (c, h') ∧ h !! c = None ∧ h ⊆ h' ∧
    array_entries c h' =
    Some (List.filter (λ e, bool_decide (level e = lvl)) es).
Proof.
  intros (elems & Harr & Hes)%array_entries_Some.
  destruct (alloc_run (Array (List.filter (has_level h lvl) elems)) h)
    as (c & Hc & Hfresh).
  exists c, (<[c := Array (List.filter (has_level h lvl) elems)]> h).
  split.
  { unfold getLogsByLevel, mbind, HeapM_bind, reading. by rewrite Harr. }
  split; [done|]. split; [by apply insert_subseteq|].
  apply array_entries_Some. eexists. split.
  - unfold read_array. by rewrite lookup_insert_eq.
  - eapply mapM_read_entry_weaken; [by apply insert_subseteq|].
    by apply filter_entries.
Qed.

Lemma getLogsSummary_run lg h es :
  entries_of lg h = Some es →
  getLogsSummary lg h = Some (summary_of es, h).
Proof.
  intros Hes. unfold getLogsSummary, mbind, HeapM_bind, reading. by rewrite Hes.
Qed.

(** [addLog] appends exactly one entry to the log. *)
Lemma addLog_entries lg ts lvl msg meta h es :
  entries_of lg h = Some es →
  ∃ h', addLog lg ts lvl msg meta h = Some ((), h') ∧
        entries_of lg h' =
        Some (es ++ [mkEntry ts lvl msg (this_source lg) meta]).
Proof.
  intros (elems & Harr & Hes)%array_entries_Some.
  set (entry := mkEntry ts lvl msg (this_source lg) meta).
  destruct (alloc_run (Entry entry) h) as (e & He & Hfresh).
  assert (e ≠ this_logs lg) as Hne.
  { intros ->. unfold read_array in Harr. by rewrite Hfresh in Harr. }
  exists (<[this_logs lg := Array (elems ++ [e])]> (<[e := Entry entry]> h)).
  split.
  { unfold addLog, mbind, HeapM_bind, reading, store. fold entry. rewrite He.
    unfold read_array. rewrite lookup_insert_ne by done.
    unfold read_array in Harr. by rewrite Harr. }
  apply array_entries_Some. exists (elems ++ [e]). split.
  { unfold read_array. by rewrite lookup_insert_eq. }
  apply mapM_Some. apply Forall2_app.
  - apply mapM_Some in Hes. eapply Forall2_impl; [exact Hes|].
    intros l x Hl. unfold read_entry in *.
    destruct (h !! l) as [[x'|?]|] eqn:Hh; simplify_eq.
    assert (l ≠ this_logs lg) as Hl1.
    { intros ->. unfold read_array in Harr. by rewrite Hh in Harr. }
    assert (l ≠ e) as Hl2 by congruence.
    by rewrite !lookup_insert_ne, Hh by done.
  - constructor; [|constructor]. unfold read_entry.
    by rewrite lookup_insert_ne, lookup_insert_eq by done.
Qed.

(** [clearLogs] starts a new, empty array and leaves the old one alone. *)
Lemma clearLogs_entries lg h es :
  entries_of lg h = Some es →
  ∃ lg' h', clearLogs lg h = Some (lg', h') ∧
            entries_of lg' h' = Some [] ∧ entries_of lg h' = Some es.
Proof.
  intros Hes.
  destruct (alloc_run (Array []) h) as (a & Ha & Hfresh).
  exists (mk a (this_source lg)), (<[a := Array []]> h). split.
  { unfold clearLogs, mbind, HeapM_bind, mret, HeapM_ret. by rewrite Ha. }
  split.
  - unfold entries_of, array_entries, read_array. simpl.
    by rewrite lookup_insert_eq.
  - eapply array_entries_weaken; [|exact Hes]. by apply insert_subseteq.
Qed.

Lemma constructor_entries src h :
  ∃ lg h', constructor src h = Some (lg, h') ∧ this_source lg = src ∧
           h !! this_logs lg = None ∧ entries_of lg h' = Some [].
Proof.
  destruct (alloc_run (Array []) h) as (a & Ha & Hfresh).
  exists (mk a src), (<[a := Array []]> h). split.
  { unfold constructor, mbind, HeapM_bind, mret, HeapM_ret. by rewrite Ha. }
  do 2 (split; [done|]).
  unfold entries_of, array_entries, read_array. simpl.
  by rewrite lookup_insert_eq.
Qed.
End MaximLoggerFacts.

(** C10: [getLogs] returns a new array holding the logged entries.  However
    the caller then changes the content of that array, the log is what it
    was, and [getLogs], [getLogsByLevel] and [getLogsSummary] answer from
    the entries that were appended. *)
Theorem getLogs_returns_fresh_copy
    (lg : MaximLogger.t) (h : gmap loc MaximLogger.obj) (es : list LogEntry) :
  MaximLogger.entries_of lg h = Some es →
  ∃ b h1,
    MaximLogger.getLogs lg h = Some (b, h1) ∧
    h !! b = None ∧ b ≠ MaximLogger.this_logs lg ∧
    MaximLogger.array_entries b h1 = Some es ∧
    ∀ elems',
      let h2 := <[b := MaximLogger.Array elems']> h1 in
      MaximLogger.entries_of lg h2 = Some es ∧
      (∃ c h3, MaximLogger.getLogs lg h2 = Some (c, h3) ∧
               MaximLogger.array_entries c h3 = Some es) ∧
      (∀ lvl, ∃ c h3,
         MaximLogger.getLogsByLevel lg lvl h2 = Some (c, h3) ∧
         MaximLogger.array_entries c h3 =
         Some (List.filter (λ e, bool_decide (level e = lvl)) es)) ∧
      MaximLogger.getLogsSummary lg h2 =
      Some (MaximLogger.summary_of es, h2).
Proof.
  intros Hes.
  destruct (MaximLoggerFacts.getLogs_run lg h es Hes)
    as (b & elems & Harr & Hrun & Hfresh & Hcopy).
  exists b, (<[b := MaximLogger.Array elems]> h).
  split; [done|]. split; [done|]. split.
  { intros ->. unfold MaximLogger.read_array in Harr.
    by rewrite Hfresh in Harr. }
  split; [done|]. intros elems' h2.
  assert (h ⊆ h2) as Hsub.
  { unfold h2. rewrite insert_insert_eq. by apply insert_subseteq. }
  assert (MaximLogger.entries_of lg h2 = Some es) as Hes2
    by by apply (MaximLoggerFacts.array_entries_weaken _ h).
  split; [done|]. split; [|split].
  - destruct (MaximLoggerFacts.getLogs_run lg h2 es Hes2)
      as (c & elems2 & _ & Hrun2 & _ & Hcopy2). eauto.
  - intros lvl.
    destruct (MaximLoggerFacts.getLogsByLevel_run lg lvl h2 es Hes2)
      as (c & h3 & Hrun3 & _ & _ & Hcopy3). eauto.
  - by apply MaximLoggerFacts.getLogsSummary_run.
Qed.

Lemma getLogs_returns_fresh_copy_witness :
  ∃ b h1,
    MaximLogger.getLogs sample_logger sample_logger_heap = Some (b, h1) ∧
    sample_logger_heap !! b = None ∧
    b ≠ MaximLogger.this_logs sample_logger ∧
    MaximLogger.array_entries b h1 = Some [sample_entry1; sample_entry2] ∧
    ∀ elems',
      let h2 := <[b := MaximLogger.Array elems']> h1 in
      MaximLogger.entries_of sample_logger h2 =
        Some [sample_entry1; sample_entry2] ∧
      (∃ c h3, MaximLogger.getLogs sample_logger h2 = Some (c, h3) ∧
               MaximLogger.array_entries c h3 =
               Some [sample_entry1; sample_entry2]) ∧
      (∀ lvl, ∃ c h3,
         MaximLogger.getLogsByLevel sample_logger lvl h2 = Some (c, h3) ∧
         MaximLogger.array_entries c h3 =
         Some (List.filter (λ e, bool_decide (level e = lvl))
                 [sample_entry1; sample_entry2])) ∧
      MaximLogger.getLogsSummary sample_logger h2 =
      Some (MaximLogger.summary_of [sample_entry1; sample_entry2], h2).
Proof.
  apply (getLogs_returns_fresh_copy sample_logger sample_logger_heap
           [sample_entry1; sample_entry2]).
  vm_compute. reflexivity.
Defined.

(** Emptying the returned array leaves the log and its summary alone. *)
Example getLogs_copy_emptied :
  ∃ b h1,
    MaximLogger.getLogs sample_logger sample_logger_heap = Some (b, h1) ∧
    let h2 := <[b := MaximLogger.Array []]> h1 in
    MaximLogger.array_entries b h2 = Some [] ∧
    MaximLogger.entries_of sample_logger h2 =
      Some [sample_entry1; sample_entry2] ∧
    fst <$> MaximLogger.getLogsSummary sample_logger h2 =
      Some (MaximLogger.mkSummary 2 1 1 0
              (Some "2024-01-01T00:00:00.000Z")
              (Some "2024-01-01T00:00:01.000Z")).
Proof. eexists _, _. split; [by vm_compute|]. by vm_compute. Qed.

(** The copy is shallow: the entry objects are shared, so an assignment to
    a property of an entry reached through the copy shows in the log. *)
Example getLogs_shares_entries :
  ∃ b h1 e,
    MaximLogger.getLogs sample_logger sample_logger_heap = Some (b, h1) ∧
    MaximLogger.read_array b h1 = Some [e; 3%positive] ∧
    MaximLogger.entries_of sample_logger
      (<[e := MaximLogger.Entry sample_entry2]> h1) =
    Some [sample_entry2; sample_entry2].
Proof. eexists _, _, _. split; [by vm_compute|]. by vm_compute. Qed.

(** ** The merge on the heap touches nothing that existed before *)

Lemma preserved_except_refl {V} l (h : gmap loc V) : preserved_except l h h.
Proof. by intros l' o _ Ho. Qed.

Lemma preserved_except_trans {V} l (h1 h2 h3 : gmap loc V) :
  preserved_except l h1 h2 → preserved_except l h2 h3 →
  preserved_except l h1 h3.
Proof. intros H12 H23 l' o Hne Ho. by apply H23, H12. Qed.

Lemma subseteq_preserved {V} l (h0 h h' : gmap loc V) :
  h0 ⊆ h → h0 !! l = None → preserved_except l h h' → h0 ⊆ h'.
Proof.
  intros Hsub Hl Hpres. apply map_subseteq_spec. intros l' o Ho.
  apply Hpres; [congruence|]. by apply (lookup_weaken h0).
Qed.

Module MergeHeapFacts.
Local Abbreviation pure_merge := mergeProductData.
Import MergeHeap.

Lemma read_strings_weaken l h h' xs :
  h ⊆ h' → read_strings l h = Some xs → read_strings l h' = Some xs.
Proof.
  unfold read_strings. intros Hsub Hl.
  destruct (h !! l) as [o|] eqn:Hh; [|done].
  by rewrite (lookup_weaken _ _ _ _ Hh Hsub).
Qed.

Lemma read_dict_weaken l h h' d :
  h ⊆ h' → read_dict l h = Some d → read_dict l h' = Some d.
Proof.
  unfold read_dict. intros Hsub Hl.
  destruct (h !! l) as [o|] eqn:Hh; [|done].
  by rewrite (lookup_weaken _ _ _ _ Hh Hsub).
Qed.

Lemma read_result_weaken l h h' r :
  h ⊆ h' → read_result l h = Some r → read_result l h' = Some r.
Proof.
  unfold read_result. intros Hsub Hl.
  destruct (h !! l) as [o|] eqn:Hh; [|done].
  by rewrite (lookup_weaken _ _ _ _ Hh Hsub).
Qed.

Lemma follow_weaken {A} (rd : loc → gmap loc obj → option A) v h h' x :
  (∀ l y, rd l h = Some y → rd l h' = Some y) →
  follow rd v h = Some x → follow rd v h' = Some x.
Proof.
  intros Hrd. unfold follow. destruct v as [l|]; [|done].
  destruct (rd l h) as [y|] eqn:Hy; [|done]. by rewrite (Hrd _ _ Hy).
Qed.

(** What it takes for a result object to stand for a record. *)
Lemma result_value_Some l h res :
  result_value l h = Some res ↔
  ∃ r, read_result l h = Some r ∧
       follow read_strings (o_features r) h = Some (r_features res) ∧
       follow read_strings (o_images r) h = Some (r_images res) ∧
       follow read_dict (o_specifications r) h = Some (r_specifications res) ∧
       o_price r = r_price res ∧ o_rating r = r_rating res ∧
       o_description r = r_description res ∧
       o_availability r = r_availability res.
Proof.
  unfold result_value. split.
  - intros Hres. destruct (read_result l h) as [r|]; [|done]. simpl in Hres.
    destruct (follow read_strings (o_features r) h) as [fs|] eqn:Hfs; [|done].
    destruct (follow read_strings (o_images r) h) as [imgs|] eqn:Himgs;
      [|done].
    destruct (follow read_dict (o_specifications r) h) as [sp|] eqn:Hsp;
      [|done].
    simpl in Hres. injection Hres as <-. exists r. simpl.
    by rewrite Hfs, Himgs, Hsp.
  - intros (r & Hrd & Hfs & Himgs & Hsp & Hp & Hr & Hd & Ha).
    rewrite Hrd. simpl. rewrite Hfs. simpl. rewrite Himgs. simpl.
    rewrite Hsp. simpl. rewrite Hp, Hr, Hd, Ha. by destruct res.
Qed.

Lemma result_value_weaken l h h' res :
  h ⊆ h' → result_value l h = Some res → result_value l h' = Some res.
Proof.
  intros Hsub (r & Hr & Hfs & Himgs & Hsp & Heqs)%result_value_Some.
  apply result_value_Some. exists r.
  split; [by eapply read_result_weaken|].
  split; [eapply follow_weaken; [|done]; intros ??; by apply read_strings_weaken|].
  split; [eapply follow_weaken; [|done]; intros ??; by apply read_strings_weaken|].
  split; [eapply follow_weaken; [|done]; intros ??; by apply read_dict_weaken|].
  done.
Qed.

Lemma results_value_weaken ls h h' rs :
  h ⊆ h' → results_value ls h = Some rs → results_value ls h' = Some rs.
Proof.
  intros Hsub. unfold results_value. rewrite !mapM_Some. intros Hall.
  eapply Forall2_impl; [exact Hall|]. intros l r. by apply result_value_weaken.
Qed.

Lemma merged_value_holds merged h p :
  merged_value merged h = Some p ↔ ∃ m, holds merged h m p.
Proof.
  unfold merged_value, holds. split.
  - intros Hp. destruct (read_merged merged h) as [m|]; [|done]. simpl in Hp.
    destruct (read_strings (features m) h) as [fs|] eqn:Hfs; [|done].
    destruct (read_strings (images m) h) as [imgs|] eqn:Himgs; [|done].
    destruct (read_dict (specifications m) h) as [sp|] eqn:Hsp; [|done].
    simpl in Hp. injection Hp as <-. exists m. simpl.
    by rewrite Hfs, Himgs, Hsp.
  - intros (m & Hrd & Hfs & Himgs & Hsp & Hn & Hp & Hr & Hd & Ha).
    rewrite Hrd. simpl. rewrite Hfs. simpl. rewrite Himgs. simpl.
    rewrite Hsp. simpl. rewrite Hn, Hp, Hr, Hd, Ha. by destruct p.
Qed.
Lemma read_merged_lookup merged h m :
  read_merged merged h = Some m ↔ h !! merged = Some (Merged m).
Proof.
  unfold read_merged. destruct (h !! merged) as [[?|?|?|?]|]; split; congruence.
Qed.

Lemma read_strings_lookup l h xs :
  read_strings l h = Some xs ↔ h !! l = Some (Strings xs).
Proof.
  unfold read_strings. destruct (h !! l) as [[?|?|?|?]|]; split; congruence.
Qed.

Lemma read_dict_lookup l h d :
  read_dict l h = Some d ↔ h !! l = Some (Dict d).
Proof.
  unfold read_dict. destruct (h !! l) as [[?|?|?|?]|]; split; congruence.
Qed.

Lemma preserved_except_store l (h : gmap loc obj) o :
  preserved_except l h (<[l := o]> h).
Proof. intros l' o' Hne Ho. by rewrite lookup_insert_ne. Qed.

Lemma preserved_except_alloc_store l a (h : gmap loc obj) oa o :
  h !! a = None → preserved_except l h (<[l := o]> (<[a := oa]> h)).
Proof.
  intros Ha l' o' Hne Ho. rewrite lookup_insert_ne by done.
  rewrite lookup_insert_ne by congruence. done.
Qed.

(** The merged object is not one of the arrays it refers to. *)
Lemma holds_distinct merged h m p :
  holds merged h m p →
  features m ≠ merged ∧ images m ≠ merged ∧ specifications m ≠ merged.
Proof.
  intros (Hm%read_merged_lookup & Hf%read_strings_lookup &
          Hi%read_strings_lookup & Hs%read_dict_lookup & _).
  repeat split; intros Heq; rewrite Heq in *; congruence.
Qed.

(** An assignment to scalar properties of the merged object. *)
Lemma holds_update merged h m p m' p' :
  holds merged h m p →
  features m' = features m → images m' = images m →
  specifications m' = specifications m →
  m_features p' = m_features p → m_images p' = m_images p →
  m_specifications p' = m_specifications p →
  name m' = m_name p' → price m' = m_price p' → rating m' = m_rating p' →
  description m' = m_description p' → availability m' = m_availability p' →
  holds merged (<[merged := Merged m']> h) m' p'.
Proof.
  intros Hh Hf Hi Hs Hpf Hpi Hps Hn Hp Hr Hd Ha.
  destruct (holds_distinct _ _ _ _ Hh) as (Hnf & Hni & Hns).
  destruct Hh as (_ & Hrf & Hri & Hrs & _).
  unfold holds. rewrite Hf, Hi, Hs, Hpf, Hpi, Hps.
  unfold read_merged, read_strings, read_dict in *.
  rewrite lookup_insert_eq, !lookup_insert_ne by done. done.
Qed.

Lemma assign_run merged f h m :
  read_merged merged h = Some m →
  assign merged f h = Some ((), <[merged := Merged (f m)]> h).
Proof.
  intros Hm. unfold assign, mbind, HeapM_bind, reading, store. by rewrite Hm.
Qed.

Lemma assign_first_run merged get set v h m :
  read_merged merged h = Some m →
  assign_first merged get set v h =
  Some ((), <[merged :=
               Merged (match v with
                       | Some s =>
                           if truthy v && negb (truthy_str (get m))
                           then set s m else m
                       | None => m
                       end)]> h).
Proof.
  intros Hm. unfold assign_first, mbind, HeapM_bind, reading. rewrite Hm.
  assert (<[merged := Merged m]> h = h) as Hid
    by by apply insert_id, read_merged_lookup.
  destruct v as [s|]; [|by rewrite Hid].
  destruct (truthy (Some s) && negb (truthy_str (get m)));
    [by apply assign_run|by rewrite Hid].
Qed.

Ltac scalar_step get set :=
  match goal with
  | Hh : holds ?merged ?h ?m ?p |- context [assign_first ?merged _ _ ?v ?h] =>
      pose proof Hh as (Hm & _ & _ & _ & Hn & Hp & Hr & Hd & Ha);
      eexists _, _; split; [by apply assign_first_run|];
      split; [apply preserved_except_store|];
      eapply holds_update; [exact Hh|..]; simpl;
      unfold first_writer;
      try (destruct v as [s|];
           [destruct (truthy (Some s) && negb (truthy_str (get m)))|];
           simpl; congruence)
  end.

Lemma step_price merged h m p v :
  holds merged h m p →
  ∃ h' m', assign_first merged price set_price v h = Some ((), h') ∧
    preserved_except merged h h' ∧
    holds merged h' m'
      (mkProduct (m_name p) (first_writer (m_price p) v) (m_rating p)
         (m_features p) (m_description p) (m_availability p) (m_images p)
         (m_specifications p)).
Proof.
  intros Hh. scalar_step price set_price.
  rewrite <- Hp. destruct v as [s|]; [|done].
  by destruct (truthy (Some s) && negb (truthy_str (price m))).
Qed.

Lemma step_rating merged h m p v :
  holds merged h m p →
  ∃ h' m', assign_first merged rating set_rating v h = Some ((), h') ∧
    preserved_except merged h h' ∧
    holds merged h' m'
      (mkProduct (m_name p) (m_price p) (first_writer (m_rating p) v)
         (m_features p) (m_description p) (m_availability p) (m_images p)
         (m_specifications p)).
Proof.
  intros Hh. scalar_step rating set_rating.
  rewrite <- Hr. destruct v as [s|]; [|done].
  by destruct (truthy (Some s) && negb (truthy_str (rating m))).
Qed.

Lemma step_description merged h m p v :
  holds merged h m p →
  ∃ h' m',
    assign_first merged description set_description v h = Some ((), h') ∧
    preserved_except merged h h' ∧
    holds merged h' m'
      (mkProduct (m_name p) (m_price p) (m_rating p) (m_features p)
         (first_writer (m_description p) v) (m_availability p) (m_images p)
         (m_specifications p)).
Proof.
  intros Hh. scalar_step description set_description.
  rewrite <- Hd. destruct v as [s|]; [|done].
  by destruct (truthy (Some s) && negb (truthy_str (description m))).
Qed.

Lemma step_availability merged h m p v :
  holds merged h m p →
  ∃ h' m',
    assign_first merged availability set_availability v h = Some ((), h') ∧
    preserved_except merged h h' ∧
    holds merged h' m'
      (mkProduct (m_name p) (m_price p) (m_rating p) (m_features p)
         (m_description p) (first_writer (m_availability p) v) (m_images p)
         (m_specifications p)).
Proof.
  intros Hh. scalar_step availability set_availability.
  rewrite <- Ha. destruct v as [s|]; [|done].
  by destruct (truthy (Some s) && negb (truthy_str (availability m))).
Qed.
(** After an allocation at [a] and an assignment to [merged], any other
    object is where it was. *)
Lemma lookup_alloc_store (h : gmap loc obj) a merged oa om l o :
  h !! a = None → l ≠ merged → h !! l = Some o →
  <[merged := om]> (<[a := oa]> h) !! l = Some o.
Proof.
  intros Ha Hne Hl. rewrite lookup_insert_ne by done.
  rewrite lookup_insert_ne by congruence. done.
Qed.

Lemma assign_union_run merged get set l h m cur xs :
  read_merged merged h = Some m →
  read_strings (get m) h = Some cur →
  read_strings l h = Some xs →
  ∃ a, h !! a = None ∧
    assign_union merged get set (Some l) h =
    Some ((), <[merged := Merged (set a m)]>
                (<[a := Strings (array_from_set (cur ++ xs))]> h)).
Proof.
  intros Hm Hcur Hxs.
  destruct (alloc_run (Strings (array_from_set (cur ++ xs))) h)
    as (a & Ha & Hfresh).
  exists a. split; [done|].
  unfold assign_union, mbind, HeapM_bind, reading. rewrite Hm, Hcur, Hxs, Ha.
  apply assign_run. apply read_merged_lookup.
  rewrite lookup_insert_ne; [by apply read_merged_lookup|].
  intros ->. apply read_merged_lookup in Hm. congruence.
Qed.

Lemma step_features merged h m p v xs :
  holds merged h m p →
  follow read_strings v h = Some xs →
  ∃ h' m', assign_union merged features set_features v h = Some ((), h') ∧
    preserved_except merged h h' ∧
    holds merged h' m'
      (mkProduct (m_name p) (m_price p) (m_rating p)
         (union_array (m_features p) xs) (m_description p)
         (m_availability p) (m_images p) (m_specifications p)).
Proof.
  intros Hh Hv. destruct v as [l|]; simpl in Hv.
  - destruct (read_strings l h) as [ys|] eqn:Hys; [|done].
    injection Hv as <-.
    destruct (holds_distinct _ _ _ _ Hh) as (Hnf & Hni & Hns).
    destruct Hh as (Hm & Hf & Hi & Hs & Heqs).
    destruct (assign_union_run merged features set_features l h m _ _
                Hm Hf Hys) as (a & Ha & Hrun).
    eexists _, (set_features a m). split; [exact Hrun|].
    split; [by apply preserved_except_alloc_store|].
    assert (a ≠ merged) as Hna.
    { intros ->. apply read_merged_lookup in Hm. congruence. }
    unfold holds. simpl. split; [|split; [|split; [|split; [|done]]]].
    + apply read_merged_lookup. by rewrite lookup_insert_eq.
    + apply read_strings_lookup.
      by rewrite lookup_insert_ne, lookup_insert_eq by done.
    + apply read_strings_lookup, lookup_alloc_store; [done..|].
      by apply read_strings_lookup.
    + apply read_dict_lookup, lookup_alloc_store; [done..|].
      by apply read_dict_lookup.
  - injection Hv as <-. exists h, m.
    split; [done|]. split; [apply preserved_except_refl|]. exact Hh.
Qed.

Lemma step_images merged h m p v xs :
  holds merged h m p →
  follow read_strings v h = Some xs →
  ∃ h' m', assign_union merged images set_images v h = Some ((), h') ∧
    preserved_except merged h h' ∧
    holds merged h' m'
      (mkProduct (m_name p) (m_price p) (m_rating p) (m_features p)
         (m_description p) (m_availability p)
         (union_array (m_images p) xs) (m_specifications p)).
Proof.
  intros Hh Hv. destruct v as [l|]; simpl in Hv.
  - destruct (read_strings l h) as [ys|] eqn:Hys; [|done].
    injection Hv as <-.
    destruct (holds_distinct _ _ _ _ Hh) as (Hnf & Hni & Hns).
    destruct Hh as (Hm & Hf & Hi & Hs & Heqs).
    destruct (assign_union_run merged images set_images l h m _ _
                Hm Hi Hys) as (a & Ha & Hrun).
    eexists _, (set_images a m). split; [exact Hrun|].
    split; [by apply preserved_except_alloc_store|].
    assert (a ≠ merged) as Hna.
    { intros ->. apply read_merged_lookup in Hm. congruence. }
    unfold holds. simpl. split; [|split; [|split; [|split; [|done]]]].
    + apply read_merged_lookup. by rewrite lookup_insert_eq.
    + apply read_strings_lookup, lookup_alloc_store; [done..|].
      by apply read_strings_lookup.
    + apply read_strings_lookup.
      by rewrite lookup_insert_ne, lookup_insert_eq by done.
    + apply read_dict_lookup, lookup_alloc_store; [done..|].
      by apply read_dict_lookup.
  - injection Hv as <-. exists h, m.
    split; [done|]. split; [apply preserved_except_refl|]. exact Hh.
Qed.

Lemma step_specifications merged h m p v sp :
  holds merged h m p →
  follow read_dict v h = Some sp →
  ∃ h' m', assign_spread merged v h = Some ((), h') ∧
    preserved_except merged h h' ∧
    holds merged h' m'
      (mkProduct (m_name p) (m_price p) (m_rating p) (m_features p)
         (m_description p) (m_availability p) (m_images p)
         (spread_specs (m_specifications p) sp)).
Proof.
  intros Hh Hv. destruct v as [l|]; simpl in Hv.
  - destruct (read_dict l h) as [d|] eqn:Hd; [|done].
    injection Hv as <-.
    destruct (holds_distinct _ _ _ _ Hh) as (Hnf & Hni & Hns).
    destruct Hh as (Hm & Hf & Hi & Hs & Heqs).
    destruct (alloc_run (Dict (d ∪ m_specifications p)) h)
      as (a & Ha & Hfresh).
    assert (a ≠ merged) as Hna.
    { intros ->. apply read_merged_lookup in Hm. congruence. }
    eexists _, (set_specifications a m). split.
    { unfold assign_spread, mbind, HeapM_bind, reading.
      rewrite Hm, Hs, Hd, Ha. apply assign_run. apply read_merged_lookup.
      rewrite lookup_insert_ne by done. by apply read_merged_lookup. }
    split; [by apply preserved_except_alloc_store|].
    unfold holds. simpl. split; [|split; [|split; [|split; [|done]]]].
    + apply read_merged_lookup. by rewrite lookup_insert_eq.
    + apply read_strings_lookup, lookup_alloc_store; [done..|].
      by apply read_strings_lookup.
    + apply read_strings_lookup, lookup_alloc_store; [done..|].
      by apply read_strings_lookup.
    + apply read_dict_lookup.
      by rewrite lookup_insert_ne, lookup_insert_eq by done.
  - injection Hv as <-. exists h, m.
    split; [done|]. split; [apply preserved_except_refl|]. exact Hh.
Qed.
Ltac flatten_product H :=
  cbn [m_name m_price m_rating m_features m_description m_availability
       m_images m_specifications] in H.

(** One turn of the loop on the heap is [merge_step] on the values, and
    leaves every object of the initial heap [h0] as it was. *)
Lemma merge_iteration_run h0 merged h m p r res :
  h0 ⊆ h → h0 !! merged = None →
  result_value r h0 = Some res →
  holds merged h m p →
  ∃ h' m', merge_iteration merged r h = Some ((), h') ∧ h0 ⊆ h' ∧
           holds merged h' m' (merge_step p res).
Proof.
  intros Hsub Hfresh
    (ro & Hro & Hfs & Himgs & Hsp & Hp & Hr & Hd & Ha)%result_value_Some Hh.
  destruct (step_price merged h m p (o_price ro) Hh)
    as (h1 & m1 & E1 & P1 & Hh1).
  pose proof (subseteq_preserved _ _ _ _ Hsub Hfresh P1) as Hsub1.
  destruct (step_rating merged h1 m1 _ (o_rating ro) Hh1)
    as (h2 & m2 & E2 & P2 & Hh2).
  flatten_product Hh2.
  pose proof (subseteq_preserved _ _ _ _ Hsub1 Hfresh P2) as Hsub2.
  destruct (step_description merged h2 m2 _ (o_description ro) Hh2)
    as (h3 & m3 & E3 & P3 & Hh3).
  flatten_product Hh3.
  pose proof (subseteq_preserved _ _ _ _ Hsub2 Hfresh P3) as Hsub3.
  destruct (step_availability merged h3 m3 _ (o_availability ro) Hh3)
    as (h4 & m4 & E4 & P4 & Hh4).
  flatten_product Hh4.
  pose proof (subseteq_preserved _ _ _ _ Hsub3 Hfresh P4) as Hsub4.
  destruct (step_features merged h4 m4 _ (o_features ro) (r_features res) Hh4)
    as (h5 & m5 & E5 & P5 & Hh5).
  { eapply follow_weaken; [|exact Hfs].
    intros ??. by apply read_strings_weaken. }
  flatten_product Hh5.
  pose proof (subseteq_preserved _ _ _ _ Hsub4 Hfresh P5) as Hsub5.
  destruct (step_images merged h5 m5 _ (o_images ro) (r_images res) Hh5)
    as (h6 & m6 & E6 & P6 & Hh6).
  { eapply follow_weaken; [|exact Himgs].
    intros ??. by apply read_strings_weaken. }
  flatten_product Hh6.
  pose proof (subseteq_preserved _ _ _ _ Hsub5 Hfresh P6) as Hsub6.
  destruct (step_specifications merged h6 m6 _ (o_specifications ro)
              (r_specifications res) Hh6)
    as (h7 & m7 & E7 & P7 & Hh7).
  { eapply follow_weaken; [|exact Hsp].
    intros ??. by apply read_dict_weaken. }
  flatten_product Hh7.
  pose proof (subseteq_preserved _ _ _ _ Hsub6 Hfresh P7) as Hsub7.
  exists h7, m7. split; [|split; [done|]].
  - unfold merge_iteration, mbind, HeapM_bind, reading.
    rewrite (read_result_weaken _ _ _ _ Hsub Hro).
    by rewrite E1, E2, E3, E4, E5, E6, E7.
  - unfold merge_step. rewrite <- Hp, <- Hr, <- Hd, <- Ha. exact Hh7.
Qed.

Lemma merge_loop_run h0 merged results rs :
  h0 !! merged = None →
  results_value results h0 = Some rs →
  ∀ h m p, h0 ⊆ h → holds merged h m p →
  ∃ h' m', merge_loop merged results h = Some ((), h') ∧ h0 ⊆ h' ∧
           holds merged h' m' (fold_left merge_step rs p).
Proof.
  intros Hfresh Hrs. unfold results_value in Hrs. apply mapM_Some in Hrs.
  induction Hrs as [|r res results rs Hres _ IH]; intros h m p Hsub Hh; simpl.
  - by exists h, m.
  - destruct (merge_iteration_run h0 merged h m p r res Hsub Hfresh Hres Hh)
      as (h1 & m1 & E1 & Hsub1 & Hh1).
    destruct (IH h1 m1 _ Hsub1 Hh1) as (h2 & m2 & E2 & Hsub2 & Hh2).
    exists h2, m2. split; [|done].
    unfold mbind, HeapM_bind. by rewrite E1.
Qed.

(** The merge on the heap: a new object that stands for the merge of the
    values, in a heap that extends the initial one. *)
Lemma mergeProductData_run results productName h rs :
  results_value results h = Some rs →
  ∃ merged h',
    MergeHeap.mergeProductData results productName h = Some (merged, h') ∧
    h !! merged = None ∧ h ⊆ h' ∧
    merged_value merged h' = Some (pure_merge rs productName).
Proof.
  intros Hrs.
  destruct (alloc_run (Strings []) h) as (fs & Efs & Hfs).
  destruct (alloc_run (Strings []) (<[fs := Strings []]> h))
    as (imgs & Eimgs & Himgs).
  destruct (alloc_run (Dict ∅) (<[imgs := Strings []]> (<[fs := Strings []]> h)))
    as (sp & Esp & Hsp).
  set (m0 := mkMergedObj productName "" "" fs "" "" imgs sp).
  destruct (alloc_run (Merged m0)
              (<[sp := Dict ∅]>
                 (<[imgs := Strings []]> (<[fs := Strings []]> h))))
    as (merged & Emerged & Hmerged).
  set (h4 := <[merged := Merged m0]>
               (<[sp := Dict ∅]>
                  (<[imgs := Strings []]> (<[fs := Strings []]> h)))) in *.
  apply lookup_insert_None in Himgs as [Himgs Hne1].
  apply lookup_insert_None in Hsp as [Hsp Hne2].
  apply lookup_insert_None in Hsp as [Hsp Hne3].
  apply lookup_insert_None in Hmerged as [Hmerged Hne4].
  apply lookup_insert_None in Hmerged as [Hmerged Hne5].
  apply lookup_insert_None in Hmerged as [Hmerged Hne6].
  assert (h ⊆ h4) as Hsub.
  { unfold h4. repeat apply insert_fresh_subseteq; done. }
  assert (holds merged h4 m0 (merged_init productName)) as Hh.
  { unfold holds, h4, read_merged, read_strings, read_dict. simpl.
    rewrite lookup_insert_eq.
    rewrite (lookup_insert_ne _ merged fs) by done.
    rewrite (lookup_insert_ne _ sp fs) by done.
    rewrite (lookup_insert_ne _ imgs fs) by done.
    rewrite lookup_insert_eq.
    rewrite (lookup_insert_ne _ merged imgs) by done.
    rewrite (lookup_insert_ne _ sp imgs) by done.
    rewrite lookup_insert_eq.
    rewrite (lookup_insert_ne _ merged sp) by done.
    rewrite lookup_insert_eq. done. }
  destruct (merge_loop_run h merged results rs Hmerged Hrs h4 m0 _ Hsub Hh)
    as (h' & m' & Eloop & Hsub' & Hh').
  exists merged, h'. split; [|split; [done|split; [done|]]].
  - unfold MergeHeap.mergeProductData, mbind, HeapM_bind, mret, HeapM_ret.
    rewrite Efs, Eimgs, Esp. fold m0. rewrite Emerged. fold h4.
    by rewrite Eloop.
  - apply merged_value_holds. by exists m'.
Qed.
Lemma merged_value_weaken merged h h' p :
  h ⊆ h' → merged_value merged h = Some p → merged_value merged h' = Some p.
Proof.
  intros Hsub (m & Hm & Hf & Hi & Hs & Heqs)%merged_value_holds.
  apply merged_value_holds. exists m.
  split.
  { apply read_merged_lookup. apply read_merged_lookup in Hm.
    by apply (lookup_weaken h). }
  split; [by eapply read_strings_weaken|].
  split; [by eapply read_strings_weaken|].
  split; [by eapply read_dict_weaken|done].
Qed.
End MergeHeapFacts.

(** C9: the merge reads its input records and writes only to objects it
    allocates.  Every object of the initial heap, the records and the arrays
    and dictionaries they refer to included, is unchanged; the result is a
    new object whose value is a function of the values of the records; and
    a second run on the same records yields a result of the same value. *)
Theorem mergeProductData_pure
    (results : list loc) (productName : string)
    (h : gmap loc MergeHeap.obj) (rs : list ScraperResult) :
  MergeHeap.results_value results h = Some rs →
  ∃ merged h',
    MergeHeap.mergeProductData results productName h = Some (merged, h') ∧
    h !! merged = None ∧ h ⊆ h' ∧
    MergeHeap.results_value results h' = Some rs ∧
    MergeHeap.merged_value merged h' =
      Some (mergeProductData rs productName) ∧
    ∃ merged2 h'',
      MergeHeap.mergeProductData results productName h' =
        Some (merged2, h'') ∧
      merged2 ≠ merged ∧ h' ⊆ h'' ∧
      MergeHeap.results_value results h'' = Some rs ∧
      MergeHeap.merged_value merged2 h'' =
        Some (mergeProductData rs productName) ∧
      MergeHeap.merged_value merged h'' =
        Some (mergeProductData rs productName).
Proof.
  intros Hrs.
  destruct (MergeHeapFacts.mergeProductData_run results productName h rs Hrs)
    as (merged & h' & Hrun & Hfresh & Hsub & Hval).
  pose proof (MergeHeapFacts.results_value_weaken _ _ _ _ Hsub Hrs) as Hrs'.
  destruct (MergeHeapFacts.mergeProductData_run results productName h' rs Hrs')
    as (merged2 & h'' & Hrun2 & Hfresh2 & Hsub2 & Hval2).
  exists merged, h'. do 4 (split; [done|]). split; [done|].
  exists merged2, h''. split; [done|]. split.
  { intros ->. apply MergeHeapFacts.merged_value_holds in Hval as (m & Hm & _).
    apply MergeHeapFacts.read_merged_lookup in Hm. congruence. }
  split; [done|].
  split; [by apply (MergeHeapFacts.results_value_weaken _ h')|].
  split; [done|]. by apply (MergeHeapFacts.merged_value_weaken _ h').
Qed.

Lemma mergeProductData_pure_witness :
  ∃ merged h',
    MergeHeap.mergeProductData [1%positive; 4%positive] "Widget"
      sample_merge_heap = Some (merged, h') ∧
    sample_merge_heap !! merged = None ∧ sample_merge_heap ⊆ h' ∧
    MergeHeap.results_value [1%positive; 4%positive] h' =
      Some sample_merge_results ∧
    MergeHeap.merged_value merged h' =
      Some (mergeProductData sample_merge_results "Widget") ∧
    ∃ merged2 h'',
      MergeHeap.mergeProductData [1%positive; 4%positive] "Widget" h' =
        Some (merged2, h'') ∧
      merged2 ≠ merged ∧ h' ⊆ h'' ∧
      MergeHeap.results_value [1%positive; 4%positive] h'' =
        Some sample_merge_results ∧
      MergeHeap.merged_value merged2 h'' =
        Some (mergeProductData sample_merge_results "Widget") ∧
      MergeHeap.merged_value merged h'' =
        Some (mergeProductData sample_merge_results "Widget").
Proof.
  apply (mergeProductData_pure [1%positive; 4%positive] "Widget"
           sample_merge_heap sample_merge_results).
  vm_compute. reflexivity.
Defined.

Example mergeProductData_heap_example :
  ∃ merged h',
    MergeHeap.mergeProductData [1%positive; 4%positive] "Widget"
      sample_merge_heap = Some (merged, h') ∧
    MergeHeap.merged_value merged h' =
    Some (mkProduct "Widget" "$10" "4.1/5" ["Fast"; "Light"; "Cheap"]
            "A widget" "" [] (list_to_map [("A", "2"); ("B", "3")])) ∧
    MergeHeap.read_strings 2%positive h' = Some ["Fast"; "Light"].
Proof. eexists _, _. split; [by vm_compute|]. by vm_compute. Qed.

(** * Further properties of the merge *)

Lemma fold_first_writer_empty_iff (get : ScraperResult → option string) rs :
  fold_left (λ cur r, first_writer cur (get r)) rs "" = "" ↔
  ∀ r, r ∈ rs → truthy (get r) = false.
Proof.
  split.
  - intros Hempty r Hr. destruct (truthy (get r)) eqn:Ht; [|done].
    apply list_elem_of_split in Hr as (l1 & l2 & ->).
    rewrite fold_left_app in Hempty. simpl in Hempty.
    destruct (get r) as [s|] eqn:Hs; [|done]. rewrite truthy_Some in Ht.
    set (cur := fold_left _ l1 "") in Hempty.
    destruct (truthy_str cur) eqn:Hcur.
    + rewrite first_writer_kept, fold_first_writer_kept in Hempty by done.
      by rewrite Hempty in Hcur.
    + assert (cur = "") as ->.
      { destruct (decide (cur = "")) as [|Hne]; [done|].
        apply truthy_str_true in Hne. congruence. }
      rewrite first_writer_taken, fold_first_writer_kept in Hempty by done.
      by rewrite Hempty in Ht.
  - intros Hall. by apply fold_first_writer_falsy.
Qed.

(** The merged record carries the requested name whatever the records say,
    and a scalar field of it is never invented: it is the non-empty value
    of one of the records, or it is empty, which happens exactly when no
    record has a non-empty value for the field. *)
Theorem mergeProductData_scalars_come_from_records
    (results : list ScraperResult) (productName : string) (f : ScalarField) :
  m_name (mergeProductData results productName) = productName ∧
  (merged_field f (mergeProductData results productName) = "" ∨
   ∃ r, r ∈ results ∧
        result_field f r =
        Some (merged_field f (mergeProductData results productName))) ∧
  (merged_field f (mergeProductData results productName) = "" ↔
   ∀ r, r ∈ results → truthy (result_field f r) = false).
Proof.
  split; [apply mergeProductData_name|]. split.
  - destruct (mergeProductData_field_origin f results productName)
      as [?|(r & s & Hr & Hs & _ & Heq)]; [by left|].
    right. exists r. by rewrite Heq.
  - unfold mergeProductData. rewrite merged_field_fold.
    replace (merged_field f (merged_init productName)) with ""
      by by destruct f.
    apply fold_first_writer_empty_iff.
Qed.

Lemma fold_first_writer_twice (get : ScraperResult → option string) rs :
  fold_left (λ cur r, first_writer cur (get r)) (rs ++ rs) "" =
  fold_left (λ cur r, first_writer cur (get r)) rs "".
Proof.
  rewrite fold_left_app.
  destruct (truthy_str (fold_left (λ cur r, first_writer cur (get r)) rs ""))
    eqn:Hcur.
  - by apply fold_first_writer_kept.
  - assert (fold_left (λ cur r, first_writer cur (get r)) rs "" = "") as Heq.
    { destruct (decide (fold_left (λ cur r, first_writer cur (get r)) rs ""
                        = "")) as [|Hne]; [done|].
      apply truthy_str_true in Hne. congruence. }
    rewrite Heq. exact Heq.
Qed.

Lemma set_add_all_known seen xs :
  (∀ x, x ∈ xs → x ∈ seen) → set_add_all seen xs = seen.
Proof.
  induction xs as [|x xs IH]; intros Hall; simpl; [done|].
  rewrite bool_decide_eq_true_2 by (apply Hall; left).
  apply IH. intros y Hy. apply Hall. by right.
Qed.

(** The value the spreads leave under key [k], the accumulator holding
    [acc] there before. *)
Lemma fold_spread_lookup rs cur k :
  fold_left (λ cur r, spread_specs cur (r_specifications r)) rs cur !! k =
  fold_left (λ acc r, match r_specifications r ≫= (.!! k) with
                      | Some v => Some v
                      | None => acc
                      end) rs (cur !! k).
Proof.
  revert cur. induction rs as [|r rs IH]; intros cur; simpl; [done|].
  rewrite IH. f_equal. unfold spread_specs.
  destruct (r_specifications r) as [m|]; simpl; [|done].
  rewrite lookup_union. by destruct (m !! k), (cur !! k).
Qed.

Lemma fold_overwrite_from {A B} (g : B → option A) (rs : list B) acc :
  fold_left (λ acc r, match g r with Some v => Some v | None => acc end)
    rs acc =
  match fold_left (λ acc r, match g r with Some v => Some v | None => acc end)
          rs None with
  | Some v => Some v
  | None => acc
  end.
Proof.
  revert acc. induction rs as [|r rs IH]; intros acc; simpl; [done|].
  rewrite IH. rewrite (IH (match g r with Some v => Some v | None => None end)).
  destruct (fold_left _ rs None); [done|]. by destruct (g r).
Qed.

(** Merging a sequence of records followed by a second copy of itself
    gives the record the sequence alone gives: asking the same sources
    twice changes nothing. *)
Theorem mergeProductData_twice
    (results : list ScraperResult) (productName : string) :
  mergeProductData (results ++ results) productName =
  mergeProductData results productName.
Proof.
  assert (∀ p q : ProductData,
            m_name p = m_name q →
            (∀ f, merged_field f p = merged_field f q) →
            (∀ f, merged_array f p = merged_array f q) →
            m_specifications p = m_specifications q → p = q) as Hext.
  { intros [] [] Hn Hf Ha Hs. simpl in *.
    pose proof (Hf Price). pose proof (Hf Rating).
    pose proof (Hf Description). pose proof (Hf Availability).
    pose proof (Ha Features). pose proof (Ha Images). simpl in *.
    by subst. }
  apply Hext.
  - by rewrite !mergeProductData_name.
  - intros f. unfold mergeProductData. rewrite !merged_field_fold.
    replace (merged_field f (merged_init productName)) with ""
      by by destruct f.
    apply (fold_first_writer_twice (result_field f)).
  - intros f. rewrite !mergeProductData_array. unfold array_from_set.
    assert (all_strings f (results ++ results) =
            all_strings f results ++ all_strings f results) as ->.
    { unfold all_strings. by rewrite map_app, concat_app. }
    rewrite set_add_all_app. apply set_add_all_known.
    intros x Hx. apply set_add_all_elem_of. by right.
  - unfold mergeProductData. rewrite !merged_specifications_fold.
    apply map_eq. intros k. rewrite !fold_spread_lookup.
    rewrite fold_left_app.
    rewrite (fold_overwrite_from (λ r, r_specifications r ≫= (.!! k))
               results (fold_left _ results _)).
    simpl. rewrite lookup_empty. by destruct (fold_left _ results None).
Qed.

(** * Further properties of the per-scraper merge *)

Lemma mergeResults_rating_highest_witness :
  rating_highest_earliest parseFloat_decimal
    [with_rating "4.1/5"; with_rating "4.7/5"; with_rating "4.7/5 (y)"]
    (m_rating (mergeResults parseFloat_decimal
                 [with_rating "4.1/5"; with_rating "4.7/5";
                  with_rating "4.7/5 (y)"] "Widget")).
Proof.
  apply (mergeResults_rating_highest parseFloat_decimal
           [with_rating "4.1/5"; with_rating "4.7/5"; with_rating "4.7/5 (y)"]
           "Widget").
  exists (with_rating "4.1/5"). split; [left|]. by vm_compute.
Defined.

Lemma rating_score_pos_rating (parseFloat : string → option Q) r :
  (0 < rating_score parseFloat r)%Q →
  ∃ s, r_rating r = Some s ∧ s ≠ "".
Proof.
  unfold rating_score, rating_number. destruct (r_rating r) as [s|].
  - destruct (truthy (Some s)) eqn:Hs.
    + intros _. exists s. split; [done|]. by apply truthy_str_true.
    + simpl. intros Hlt. lra.
  - simpl. intros Hlt. lra.
Qed.

(** The "highest rating" loop of [mergeResults] leaves the rating empty
    exactly when no record has a rating whose number is above 0: ratings
    that do not parse, and a rating of 0, are never kept. *)
Theorem mergeResults_rating_empty_iff
    (parseFloat : string → option Q) (results : list ScraperResult)
    (productName : string) :
  m_rating (mergeResults parseFloat results productName) = "" ↔
  ∀ r, r ∈ results → (rating_score parseFloat r <= 0)%Q.
Proof.
  simpl. unfold highest_rating.
  destruct (rating_inv_fold parseFloat results)
    as [[-> Hall]|(Hpos & i & r & Hi & Hr & Hsr & Hall)].
  - split; [|done]. intros _ r Hr.
    apply list_elem_of_lookup in Hr as [j Hj]. by apply (Hall j).
  - rewrite <- Hsr in Hpos.
    destruct (rating_score_pos_rating _ _ Hpos) as (s & Hs & Hne).
    rewrite Hs in Hr. injection Hr as Hr. split.
    + intros Hempty. congruence.
    + intros Hle. assert (r ∈ results) as Hin
        by (apply list_elem_of_lookup; eauto).
      specialize (Hle r Hin). lra.
Qed.

Example mergeResults_rating_zero_dropped :
  m_rating (mergeResults parseFloat_decimal
              [with_rating "0/5"; with_rating "n/a"; with_rating "-1/5"]
              "Widget") = "".
Proof. reflexivity. Qed.

(** [PlaywrightScraper.mergeResults] and the top-level [mergeProductData]
    agree on the name, the price, the availability, the features and the
    specifications of the same records; they differ in the rating rule, the
    description, which [mergeResults] always writes itself, and the
    images. *)
Theorem mergeResults_agrees_with_mergeProductData
    (parseFloat : string → option Q) (results : list ScraperResult)
    (productName : string) :
  let a := mergeResults parseFloat results productName in
  let b := mergeProductData results productName in
  m_name a = m_name b ∧ m_price a = m_price b ∧
  m_availability a = m_availability b ∧ m_features a = m_features b ∧
  m_specifications a = m_specifications b ∧
  m_description a ≠ "" ∧ m_images a = [].
Proof.
  simpl. unfold mergeProductData.
  split; [by rewrite merged_name_fold|].
  split; [by rewrite (merged_field_fold Price)|].
  split; [by rewrite (merged_field_fold Availability)|].
  split; [by rewrite (merged_array_fold Features)|].
  split; [by rewrite merged_specifications_fold|].
  split; [|done]. by destruct productName.
Qed.

(** * Further properties of the logger *)

Module MaximLoggerMore.
Import MaximLogger MaximLoggerFacts.

Lemma addLog_run lg ts lvl msg meta h elems :
  read_array (this_logs lg) h = Some elems →
  ∃ e, h !! e = None ∧ e ≠ this_logs lg ∧
    addLog lg ts lvl msg meta h =
    Some ((), <[this_logs lg := Array (elems ++ [e])]>
                (<[e := Entry (mkEntry ts lvl msg (this_source lg) meta)]> h)).
Proof.
  intros Harr.
  destruct (alloc_run (Entry (mkEntry ts lvl msg (this_source lg) meta)) h)
    as (e & He & Hfresh).
  assert (e ≠ this_logs lg) as Hne.
  { intros ->. unfold read_array in Harr. by rewrite Hfresh in Harr. }
  exists e. do 2 (split; [done|]).
  unfold addLog, mbind, HeapM_bind, reading, store. rewrite He.
  unfold read_array. rewrite lookup_insert_ne by done.
  unfold read_array in Harr. by rewrite Harr.
Qed.

(** An array other than the logger's own keeps its entries through
    [addLog]. *)
Lemma addLog_other_array lg ts lvl msg meta h h' c es :
  is_Some (read_array (this_logs lg) h) →
  addLog lg ts lvl msg meta h = Some ((), h') →
  c ≠ this_logs lg →
  array_entries c h = Some es → array_entries c h' = Some es.
Proof.
  intros [elems Harr] Hrun Hc (celems & Hcarr & Hces)%array_entries_Some.
  destruct (addLog_run lg ts lvl msg meta h elems Harr)
    as (e & Hfresh & Hne & Hrun').
  rewrite Hrun' in Hrun. injection Hrun as <-.
  apply array_entries_Some. exists celems. split.
  - unfold read_array in *. rewrite lookup_insert_ne by done.
    rewrite lookup_insert_ne; [done|]. intros ->. by rewrite Hfresh in Hcarr.
  - apply mapM_Some. apply mapM_Some in Hces.
    eapply Forall2_impl; [exact Hces|]. intros l x Hl.
    unfold read_entry in *.
    destruct (h !! l) as [[x'|?]|] eqn:Hh; simplify_eq.
    assert (l ≠ this_logs lg) as Hl1.
    { intros ->. unfold read_array in Harr. by rewrite Hh in Harr. }
    assert (l ≠ e) as Hl2 by congruence.
    by rewrite !lookup_insert_ne, Hh by done.
Qed.
End MaximLoggerMore.

(** The array [getLogs] returned is a snapshot: an entry logged afterwards
    is appended to the log and does not show in the array returned
    before. *)
Theorem getLogs_copy_is_snapshot
    (lg : MaximLogger.t) (h : gmap loc MaximLogger.obj) (es : list LogEntry)
    (ts : string) (lvl : Level) (msg : string)
    (meta : option (list (string * MetaValue))) :
  MaximLogger.entries_of lg h = Some es →
  ∃ b h1 h2,
    MaximLogger.getLogs lg h = Some (b, h1) ∧
    MaximLogger.addLog lg ts lvl msg meta h1 = Some ((), h2) ∧
    MaximLogger.entries_of lg h2 =
      Some (es ++ [mkEntry ts lvl msg (MaximLogger.this_source lg) meta]) ∧
    MaximLogger.array_entries b h2 = Some es.
Proof.
  intros Hes.
  destruct (MaximLoggerFacts.getLogs_run lg h es Hes)
    as (b & elems & Harr & Hrun & Hfresh & Hcopy).
  assert (b ≠ MaximLogger.this_logs lg) as Hb.
  { intros ->. unfold MaximLogger.read_array in Harr.
    by rewrite Hfresh in Harr. }
  assert (MaximLogger.entries_of lg (<[b := MaximLogger.Array elems]> h)
          = Some es) as Hes1.
  { eapply MaximLoggerFacts.array_entries_weaken; [|exact Hes].
    by apply insert_subseteq. }
  destruct (MaximLoggerFacts.addLog_entries lg ts lvl msg meta _ es Hes1)
    as (h2 & Hadd & Hes2).
  exists b, (<[b := MaximLogger.Array elems]> h), h2.
  do 3 (split; [done|]).
  eapply MaximLoggerMore.addLog_other_array; [|exact Hadd|exact Hb|exact Hcopy].
  apply MaximLoggerFacts.array_entries_Some in Hes1 as (? & -> & _). eauto.
Qed.

Lemma getLogs_copy_is_snapshot_witness :
  ∃ b h1 h2,
    MaximLogger.getLogs sample_logger sample_logger_heap = Some (b, h1) ∧
    MaximLogger.addLog sample_logger "2024-01-01T00:00:02.000Z" LError
      "Failed" None h1 = Some ((), h2) ∧
    MaximLogger.entries_of sample_logger h2 =
      Some ([sample_entry1; sample_entry2] ++
            [mkEntry "2024-01-01T00:00:02.000Z" LError "Failed"
               (MaximLogger.this_source sample_logger) None]) ∧
    MaximLogger.array_entries b h2 = Some [sample_entry1; sample_entry2].
Proof.
  apply (getLogs_copy_is_snapshot sample_logger sample_logger_heap
           [sample_entry1; sample_entry2]).
  vm_compute. reflexivity.
Defined.

(** [clearLogs] gives the logger a new, empty array and does not touch the
    old one: the logger reports no entries, while whoever still holds the
    old array (or a copy of it) keeps the entries that were logged. *)
Theorem clearLogs_starts_a_new_array
    (lg : MaximLogger.t) (h : gmap loc MaximLogger.obj) (es : list LogEntry) :
  MaximLogger.entries_of lg h = Some es →
  ∃ lg' h',
    MaximLogger.clearLogs lg h = Some (lg', h') ∧
    MaximLogger.this_source lg' = MaximLogger.this_source lg ∧
    h !! MaximLogger.this_logs lg' = None ∧ h ⊆ h' ∧
    MaximLogger.entries_of lg' h' = Some [] ∧
    MaximLogger.array_entries (MaximLogger.this_logs lg) h' = Some es ∧
    fst <$> MaximLogger.getLogsSummary lg' h' =
      Some (MaximLogger.mkSummary 0 0 0 0 None None).
Proof.
  intros Hes.
  destruct (alloc_run (MaximLogger.Array []) h) as (a & Ha & Hfresh).
  exists (MaximLogger.mk a (MaximLogger.this_source lg)),
         (<[a := MaximLogger.Array []]> h).
  split.
  { unfold MaximLogger.clearLogs, mbind, HeapM_bind, mret, HeapM_ret.
    by rewrite Ha. }
  do 2 (split; [done|]). split; [by apply insert_subseteq|].
  assert (MaximLogger.entries_of
            (MaximLogger.mk a (MaximLogger.this_source lg))
            (<[a := MaximLogger.Array []]> h) = Some []) as Hnew.
  { unfold MaximLogger.entries_of, MaximLogger.array_entries,
      MaximLogger.read_array. simpl. by rewrite lookup_insert_eq. }
  split; [done|]. split.
  - eapply MaximLoggerFacts.array_entries_weaken; [|exact Hes].
    by apply insert_subseteq.
  - by rewrite (MaximLoggerFacts.getLogsSummary_run _ _ _ Hnew).
Qed.

Lemma clearLogs_starts_a_new_array_witness :
  ∃ lg' h',
    MaximLogger.clearLogs sample_logger sample_logger_heap = Some (lg', h') ∧
    MaximLogger.this_source lg' = MaximLogger.this_source sample_logger ∧
    sample_logger_heap !! MaximLogger.this_logs lg' = None ∧
    sample_logger_heap ⊆ h' ∧
    MaximLogger.entries_of lg' h' = Some [] ∧
    MaximLogger.array_entries (MaximLogger.this_logs sample_logger) h' =
      Some [sample_entry1; sample_entry2] ∧
    fst <$> MaximLogger.getLogsSummary lg' h' =
      Some (MaximLogger.mkSummary 0 0 0 0 None None).
Proof.
  apply (clearLogs_starts_a_new_array sample_logger sample_logger_heap
           [sample_entry1; sample_entry2]).
  vm_compute. reflexivity.
Defined.

Lemma count_level_partition (es : list LogEntry) :
  (MaximLogger.count_level LInfo es + MaximLogger.count_level LWarn es +
   MaximLogger.count_level LError es = length es)%nat.
Proof.
  unfold MaximLogger.count_level.
  induction es as [|e es IH]; simpl; [done|].
  destruct (level e); simpl; lia.
Qed.

(** The summary counts every entry once: the total is the number of entries
    logged and the sum of the three per-level counts, each per-level count
    is the length of what [getLogsByLevel] returns for that level, and
    taking the summary leaves the heap as it was. *)
Theorem getLogsSummary_counts
    (lg : MaximLogger.t) (h : gmap loc MaximLogger.obj) (es : list LogEntry) :
  MaximLogger.entries_of lg h = Some es →
  ∃ s,
    MaximLogger.getLogsSummary lg h = Some (s, h) ∧
    MaximLogger.total s = length es ∧
    (MaximLogger.total s =
     MaximLogger.info_count s + MaximLogger.warn_count s +
     MaximLogger.error_count s)%nat ∧
    ∀ lvl, ∃ c h' fs,
      MaximLogger.getLogsByLevel lg lvl h = Some (c, h') ∧
      MaximLogger.array_entries c h' = Some fs ∧
      Forall (λ e, level e = lvl) fs ∧
      length fs =
      match lvl with
      | LInfo => MaximLogger.info_count s
      | LWarn => MaximLogger.warn_count s
      | LError => MaximLogger.error_count s
      end.
Proof.
  intros Hes. exists (MaximLogger.summary_of es).
  split; [by apply MaximLoggerFacts.getLogsSummary_run|].
  split; [done|]. split; [simpl; by rewrite count_level_partition|].
  intros lvl.
  destruct (MaximLoggerFacts.getLogsByLevel_run lg lvl h es Hes)
    as (c & h' & Hrun & _ & _ & Hfs).
  exists c, h', (List.filter (λ e, bool_decide (level e = lvl)) es).
  split; [done|]. split; [done|]. split.
  - apply Forall_forall. intros e He. apply list_elem_of_In in He.
    apply filter_In in He as [_ He]. by apply bool_decide_eq_true in He.
  - by destruct lvl.
Qed.

Lemma getLogsSummary_counts_witness :
  ∃ s,
    MaximLogger.getLogsSummary sample_logger sample_logger_heap =
      Some (s, sample_logger_heap) ∧
    MaximLogger.total s = length [sample_entry1; sample_entry2] ∧
    (MaximLogger.total s =
     MaximLogger.info_count s + MaximLogger.warn_count s +
     MaximLogger.error_count s)%nat ∧
    ∀ lvl, ∃ c h' fs,
      MaximLogger.getLogsByLevel sample_logger lvl sample_logger_heap =
        Some (c, h') ∧
      MaximLogger.array_entries c h' = Some fs ∧
      Forall (λ e, level e = lvl) fs ∧
      length fs =
      match lvl with
      | LInfo => MaximLogger.info_count s
      | LWarn => MaximLogger.warn_count s
      | LError => MaximLogger.error_count s
      end.
Proof.
  apply (getLogsSummary_counts sample_logger sample_logger_heap
           [sample_entry1; sample_entry2]).
  vm_compute. reflexivity.
Defined.

(** The time range of the summary: both ends are [null] for an empty log;
    otherwise, the timestamps being non-empty strings, the start is the
    timestamp of the first entry logged and the end that of the last. *)
Theorem getLogsSummary_timeRange
    (lg : MaximLogger.t) (h : gmap loc MaximLogger.obj) (es : list LogEntry) :
  MaximLogger.entries_of lg h = Some es →
  ∃ s,
    MaximLogger.getLogsSummary lg h = Some (s, h) ∧
    (es = [] →
     MaximLogger.timeRange_start s = None ∧
     MaximLogger.timeRange_end s = None) ∧
    (∀ first rest final,
       es = first :: rest → last es = Some final →
       timestamp first ≠ "" → timestamp final ≠ "" →
       MaximLogger.timeRange_start s = Some (timestamp first) ∧
       MaximLogger.timeRange_end s = Some (timestamp final)).
Proof.
  intros Hes. exists (MaximLogger.summary_of es).
  split; [by apply MaximLoggerFacts.getLogsSummary_run|]. split.
  - by intros ->.
  - intros first rest final -> Hlast Hf%truthy_str_true Hl%truthy_str_true.
    unfold MaximLogger.summary_of. cbn [MaximLogger.timeRange_start
      MaximLogger.timeRange_end]. rewrite Hlast. simpl.
    by rewrite Hf, Hl.
Qed.

Lemma getLogsSummary_timeRange_witness :
  ∃ s,
    MaximLogger.getLogsSummary sample_logger sample_logger_heap =
      Some (s, sample_logger_heap) ∧
    MaximLogger.timeRange_start s = Some "2024-01-01T00:00:00.000Z" ∧
    MaximLogger.timeRange_end s = Some "2024-01-01T00:00:01.000Z".
Proof.
  destruct (getLogsSummary_timeRange sample_logger sample_logger_heap
              [sample_entry1; sample_entry2]) as (s & Hrun & _ & Hrange).
  { vm_compute. reflexivity. }
  exists s. split; [exact Hrun|].
  apply (Hrange sample_entry1 [sample_entry2] sample_entry2);
    [reflexivity|reflexivity|discriminate|discriminate].
Defined.

(** ** The most recent entries *)

Lemma slice_from_suffix {A} start (l : list A) :
  ∃ pre, l = pre ++ slice_from start l.
Proof.
  unfold slice_from. eexists. symmetry. apply take_drop.
Qed.

Lemma slice_from_Forall2 {A B} (R : A → B → Prop) start l k :
  Forall2 R l k → Forall2 R (slice_from start l) (slice_from start k).
Proof.
  intros Hall. unfold slice_from.
  rewrite (Forall2_length _ _ _ Hall). by apply Forall2_drop.
Qed.

(** [getRecentLogs(limit)] returns a new array with the end of the log: the
    last [limit] entries, or all of them when there are fewer, for a
    positive [limit]; the whole log for [limit = 0], because [slice(-0)] is
    [slice(0)]; and the log without its first [-limit] entries for a
    negative [limit]. *)
Theorem getRecentLogs_slice
    (lg : MaximLogger.t) (h : gmap loc MaximLogger.obj) (es : list LogEntry)
    (limit : Z) :
  MaximLogger.entries_of lg h = Some es →
  ∃ c h' rs,
    MaximLogger.getRecentLogs lg limit h = Some (c, h') ∧
    h !! c = None ∧ h ⊆ h' ∧
    MaximLogger.array_entries c h' = Some rs ∧
    (∃ pre, es = pre ++ rs) ∧
    ((0 < limit)%Z → length rs = Nat.min (Z.to_nat limit) (length es)) ∧
    (limit = 0%Z → rs = es) ∧
    ((limit < 0)%Z → rs = drop (Z.to_nat (- limit)) es).
Proof.
  intros (elems & Harr & Helems)%MaximLoggerFacts.array_entries_Some.
  destruct (alloc_run (MaximLogger.Array (slice_from (- limit) elems)) h)
    as (c & Hc & Hfresh).
  exists c, (<[c := MaximLogger.Array (slice_from (- limit) elems)]> h),
         (slice_from (- limit) es).
  split.
  { unfold MaximLogger.getRecentLogs, mbind, HeapM_bind, reading.
    by rewrite Harr. }
  split; [done|]. split; [by apply insert_subseteq|]. split.
  { apply MaximLoggerFacts.array_entries_Some. eexists. split.
    - unfold MaximLogger.read_array. by rewrite lookup_insert_eq.
    - apply mapM_Some. apply slice_from_Forall2.
      apply mapM_Some.
      eapply MaximLoggerFacts.mapM_read_entry_weaken; [|exact Helems].
      by apply insert_subseteq. }
  split; [apply slice_from_suffix|].
  unfold slice_from. split; [|split].
  - intros Hpos. assert ((- limit <? 0)%Z = true) as -> by lia.
    rewrite length_drop. lia.
  - intros ->. simpl. by rewrite Z.min_l by lia.
  - intros Hneg. assert ((- limit <? 0)%Z = false) as -> by lia.
    destruct (Z.le_gt_cases (- limit) (Z.of_nat (length es))).
    + by rewrite Z.min_l by lia.
    + rewrite Z.min_r by lia. rewrite Nat2Z.id.
      rewrite !drop_ge; [done|lia|lia].
Qed.

Lemma getRecentLogs_slice_witness :
  ∃ c h' rs,
    MaximLogger.getRecentLogs sample_logger 0 sample_logger_heap =
      Some (c, h') ∧
    sample_logger_heap !! c = None ∧ sample_logger_heap ⊆ h' ∧
    MaximLogger.array_entries c h' = Some rs ∧
    (∃ pre, [sample_entry1; sample_entry2] = pre ++ rs) ∧
    ((0 < 0)%Z →
     length rs = Nat.min (Z.to_nat 0) (length [sample_entry1; sample_entry2])) ∧
    (0%Z = 0%Z → rs = [sample_entry1; sample_entry2]) ∧
    ((0 < 0)%Z → rs = drop (Z.to_nat (- 0)) [sample_entry1; sample_entry2]).
Proof.
  apply (getRecentLogs_slice sample_logger sample_logger_heap
           [sample_entry1; sample_entry2] 0).
  vm_compute. reflexivity.
Defined.

Example getRecentLogs_example :
  (∃ c h', MaximLogger.getRecentLogs sample_logger 1 sample_logger_heap =
             Some (c, h') ∧
           MaximLogger.array_entries c h' = Some [sample_entry2]) ∧
  (∃ c h', MaximLogger.getRecentLogs sample_logger 100 sample_logger_heap =
             Some (c, h') ∧
           MaximLogger.array_entries c h' =
           Some [sample_entry1; sample_entry2]).
Proof.
  split; eexists _, _; (split; [by vm_compute|by vm_compute]).
Qed.

(** * Further properties of the route *)

Lemma string_app_cons ch (s t : string) :
  String ch s +:+ t = String ch (s +:+ t).
Proof. reflexivity. Qed.

Lemma string_app_assoc (s t u : string) :
  (s +:+ t) +:+ u = s +:+ (t +:+ u).
Proof.
  induction s as [|ch s IH]; [done|].
  by rewrite !string_app_cons, IH.
Qed.

Lemma string_prefix_app (s t : string) : String.prefix s (s +:+ t) = true.
Proof.
  induction s as [|ch s IH]; [by destruct t|].
  rewrite string_app_cons. simpl. rewrite IH.
  by destruct (Ascii.ascii_dec ch ch).
Qed.

Section RouteMore.
Context {Ext : Type}.
Variable now : Ext → string.
Variable random_seq : nat → Q.
Variable generateText : Prompt → M Ext string.
Variable OPENAI_API_KEY : option string.
Variable scrapybara playwright puppeteer : string → M Ext ScraperResult.

(** The scrapers the route runs are picked by membership only: their
    constructor names are a part, in this order and without repetition, of
    Scrapybara, Playwright, Puppeteer, whatever the order of the method
    names in the request, however often they occur, and whatever other
    names the request holds. *)
Theorem selected_scrapers_by_membership (ms ms' : list string) :
  map ctor_name (selected_scrapers scrapybara playwright puppeteer ms)
    `sublist_of`
    ["ScrapybaraBrowser"; "RealPlaywrightScraper"; "RealPuppeteerScraper"] ∧
  (length (selected_scrapers scrapybara playwright puppeteer ms) ≤ 3)%nat ∧
  ((∀ x, x ∈ ["scrapybara"; "playwright"; "puppeteer"] →
         (x ∈ ms ↔ x ∈ ms')) →
   selected_scrapers scrapybara playwright puppeteer ms =
   selected_scrapers scrapybara playwright puppeteer ms').
Proof.
  unfold selected_scrapers. split; [|split].
  - repeat case_bool_decide; simpl; repeat constructor.
  - repeat case_bool_decide; simpl; lia.
  - intros Hsame.
    assert ("scrapybara" ∈ ms ↔ "scrapybara" ∈ ms') as H1
      by (apply Hsame; left).
    assert ("playwright" ∈ ms ↔ "playwright" ∈ ms') as H2
      by (apply Hsame; right; left).
    assert ("puppeteer" ∈ ms ↔ "puppeteer" ∈ ms') as H3
      by (apply Hsame; right; right; left).
    by rewrite (bool_decide_ext _ _ H1), (bool_decide_ext _ _ H2),
      (bool_decide_ext _ _ H3).
Qed.

(** With two non-empty names and no API key the answer is the
    configuration error, whatever methods are selected: one [error] entry
    is logged and nothing else happens. *)
Theorem POST_without_key (req : Request) (n1 n2 : string) (w : World Ext) :
  product1 req = Some n1 → product2 req = Some n2 →
  n1 ≠ "" → n2 ≠ "" →
  truthy OPENAI_API_KEY = false →
  ∃ err setup,
    POST now random_seq generateText OPENAI_API_KEY
      scrapybara playwright puppeteer req w =
    (Normal (ConfigError err setup),
     mkWorld
       (w_logs w ++
          [mkEntry (now (w_ext w)) LError "OpenAI API key not configured"
             "ProductComparisonAgent" None])
       (w_draws w) (w_ext w)).
Proof.
  intros Hp1 Hp2 Hn1%truthy_str_true Hn2%truthy_str_true Hkey.
  unfold POST. rewrite Hp1, Hp2, Hn1, Hn2, Hkey. simpl.
  eexists _, _. by unfold_route.
Qed.

(** A request that passes the three guards is answered with success: the
    two records carry the requested names, and the log copy in the answer
    was taken before the final entry, which is in the logger only. *)
Theorem POST_success (req : Request) (n1 n2 : string) (ms : list string)
    (w : World Ext) :
  product1 req = Some n1 → product2 req = Some n2 →
  n1 ≠ "" → n2 ≠ "" →
  truthy OPENAI_API_KEY = true →
  methods req = MethodsArray ms →
  selected_scrapers scrapybara playwright puppeteer ms ≠ [] →
  ∃ p1 p2 comparison readme logs w',
    POST now random_seq generateText OPENAI_API_KEY
      scrapybara playwright puppeteer req w =
    (Normal (Success p1 p2 comparison readme logs), w') ∧
    m_name p1 = n1 ∧ m_name p2 = n2 ∧
    w_logs w' =
    logs ++ [mkEntry (now (w_ext w')) LInfo
               "Product comparison completed successfully"
               "ProductComparisonAgent" None].
Proof.
  intros Hp1 Hp2 Hn1%truthy_str_true Hn2%truthy_str_true Hkey Hms Hsel.
  apply (POST_valid_run now random_seq generateText OPENAI_API_KEY
           scrapybara playwright puppeteer req n1 n2
           (selected_scrapers scrapybara playwright puppeteer ms) w);
    try done.
  by rewrite Hms.
Qed.

(** The handler at the end of the route is entered when [methods] has no
    [includes]: a request with two non-empty names and a configured API key
    whose [methods] is missing, or is neither an array nor a string, makes
    [methods.includes] throw after the start entry was logged; the handler
    logs the message of the error and answers "Failed to compare products"
    (status 500) with that message as details and with the log, the error
    entry included.  No scraper is called and no random number is
    drawn. *)
Theorem POST_catch_all_on_methods
    (req : Request) (n1 n2 message : string) (w : World Ext) :
  product1 req = Some n1 → product2 req = Some n2 →
  n1 ≠ "" → n2 ≠ "" →
  truthy OPENAI_API_KEY = true →
  methods req = MethodsOther message →
  let logs :=
    w_logs w ++
    [mkEntry (now (w_ext w)) LInfo
       "Starting product comparison with intelligent browser automation"
       "ProductComparisonAgent"
       (Some [("product1", MStr n1); ("product2", MStr n2);
              ("methods", MOther)]);
     mkEntry (now (w_ext w)) LError "Error in product comparison"
       "ProductComparisonAgent" (Some [("error", MStr message)])] in
  POST now random_seq generateText OPENAI_API_KEY
    scrapybara playwright puppeteer req w =
  (Normal
     (Failure "Failed to compare products. Check logs for details."
        message logs),
   mkWorld logs (w_draws w) (w_ext w)) ∧
  status (Failure "Failed to compare products. Check logs for details."
            message logs) = 500%nat.
Proof.
  intros Hp1 Hp2 Hn1%truthy_str_true Hn2%truthy_str_true Hkey Hms logs.
  split; [|done].
  unfold POST. rewrite Hp1, Hp2, Hn1, Hn2, Hkey, Hms. simpl.
  unfold_route. simpl. unfold logs. by rewrite <- !app_assoc.
Qed.

(** The text generation steps never throw: when [generateText] throws, the
    comparison and the README are fixed texts and one [error] entry with
    the message of what was thrown is logged; when it returns, its text is
    passed on. *)
Theorem generate_steps_absorb_failures
    (p1 p2 : ProductData) (comparison : string) (w : World Ext) :
  (∀ e w2, generateText (ComparisonPrompt p1 p2) w = (Throw e, w2) →
     generateComparison now generateText p1 p2 w =
     (Normal "Comparison generation failed. Please try again.",
      mkWorld
        (w_logs w2 ++
           [mkEntry (now (w_ext w2)) LError "Failed to generate comparison"
              "ProductComparisonAgent"
              (Some [("error", MStr (errorMessage e))])])
        (w_draws w2) (w_ext w2))) ∧
  (∀ text w2, generateText (ComparisonPrompt p1 p2) w = (Normal text, w2) →
     generateComparison now generateText p1 p2 w = (Normal text, w2)) ∧
  (∀ e w2,
     generateText (ReadmePrompt (m_name p1) (m_name p2) comparison) w =
       (Throw e, w2) →
     ∃ text,
       generateReadme now generateText p1 p2 comparison w =
       (Normal text,
        mkWorld
          (w_logs w2 ++
             [mkEntry (now (w_ext w2)) LError "Failed to generate README"
                "ProductComparisonAgent"
                (Some [("error", MStr (errorMessage e))])])
          (w_draws w2) (w_ext w2)) ∧
       String.prefix
         ("# Product Comparison: " +:+ m_name p1 +:+ " vs " +:+ m_name p2)
         text = true) ∧
  (∀ text w2,
     generateText (ReadmePrompt (m_name p1) (m_name p2) comparison) w =
       (Normal text, w2) →
     generateReadme now generateText p1 p2 comparison w = (Normal text, w2)).
Proof.
  unfold generateComparison, generateReadme. unfold_route.
  repeat split.
  - intros e w2 ->. done.
  - intros text w2 ->. done.
  - intros e w2 ->. eexists. split; [reflexivity|].
    generalize (m_name p1) (m_name p2). intros a b.
    rewrite <- !string_app_assoc. apply string_prefix_app.
  - intros text w2 ->. done.
Qed.
End RouteMore.

Lemma string_app_nonempty_r (s t : string) : t ≠ "" → s +:+ t ≠ "".
Proof. intros Ht. destruct s; [done|]. by rewrite string_app_cons. Qed.

Lemma string_length_zero (s : string) : String.length s = 0%nat ↔ s = "".
Proof. by destruct s. Qed.

Lemma count_entries_app lvl (a b : list LogEntry) :
  count_entries lvl (a ++ b) = (count_entries lvl a + count_entries lvl b)%nat.
Proof. unfold count_entries. by rewrite List.filter_app, length_app. Qed.

Section AggregationMore.
Context {Ext : Type}.
Variable now : Ext → string.
Variable random_seq : nat → Q.

Lemma createIntelligentFallback_facts (productName : string)
    (w : World Ext) :
  ∃ fb,
    createIntelligentFallback random_seq productName w =
    (Normal fb,
     if isPhone productName
     then mkWorld (w_logs w) (S (S (w_draws w))) (w_ext w) else w) ∧
    (∀ f, truthy (result_field f fb) = true) ∧
    (∃ fs, r_features fb = Some fs ∧ (2 ≤ length fs)%nat ∧ NoDup fs) ∧
    (∃ sp, r_specifications fb = Some sp ∧
           sp !! "Data Source" = Some "Intelligent estimation") ∧
    r_images fb = None.
Proof.
  assert (∀ s, truthy (Some s) = true ↔ s ≠ "") as Htruthy.
  { intros s. rewrite truthy_Some. apply truthy_str_true. }
  unfold createIntelligentFallback. destruct (isPhone productName).
  - unfold mbind, M_bind, bind, Math_random, ret. cbv beta iota zeta.
    eexists. split; [reflexivity|]. cbn [r_features r_specifications r_images].
    split; [|split; [|split; [|done]]].
    + intros []; cbn [result_field r_price r_rating r_description
                        r_availability]; apply Htruthy; try done.
      * by apply string_app_nonempty_r.
      * unfold fallback_description. by apply string_app_nonempty_r.
    + eexists. split; [reflexivity|]. split; [simpl; lia|].
      apply (bool_decide_unpack _). by vm_compute.
    + eexists. split; [reflexivity|]. by vm_compute.
  - unfold ret. eexists. split; [reflexivity|].
    cbn [r_features r_specifications r_images].
    split; [|split; [|split; [|done]]].
    + intros []; cbn [result_field r_price r_rating r_description
                        r_availability]; apply Htruthy; try done.
      unfold fallback_description. by apply string_app_nonempty_r.
    + eexists. split; [reflexivity|]. split; [simpl; lia|].
      apply (bool_decide_unpack _). by vm_compute.
    + eexists. split; [reflexivity|]. simpl.
      rewrite lookup_insert_ne by done. by rewrite lookup_insert_eq.
Qed.

(** The fallback never logs and never fails.  For a name of the phone
    family it draws exactly two random numbers, for any other name none.
    Its record has a non-empty price, rating, description and availability,
    at least two features, the key [Data Source] among its specifications,
    and no images. *)
Theorem createIntelligentFallback_effects (productName : string)
    (w : World Ext) :
  ∃ fb,
    createIntelligentFallback random_seq productName w =
    (Normal fb,
     if isPhone productName
     then mkWorld (w_logs w) (S (S (w_draws w))) (w_ext w) else w) ∧
    (∀ f, truthy (result_field f fb) = true) ∧
    (∃ fs, r_features fb = Some fs ∧ (2 ≤ length fs)%nat ∧ NoDup fs) ∧
    (∃ sp, r_specifications fb = Some sp ∧
           sp !! "Data Source" = Some "Intelligent estimation") ∧
    r_images fb = None.
Proof. apply createIntelligentFallback_facts. Qed.

Lemma successes_length productName (scrapers : list (Scraper Ext)) w :
  (length (successes now productName scrapers w) ≤ length scrapers)%nat.
Proof.
  revert w. induction scrapers as [|s rest IH]; intros w; simpl; [done|].
  destruct (fst (scrapeProduct s productName _)); simpl;
    specialize (IH (snd (scrape_one now productName s [] w))); lia.
Qed.

(** When no scraper returned, the record comes from the fallback, and it
    is populated. *)
Lemma scrapeProductDataWithFallback_fallback_run
    (productName : string) (scrapers : list (Scraper Ext)) (w : World Ext) :
  successes now productName scrapers w = [] →
  ∃ fb w',
    createIntelligentFallback random_seq productName
      (world_at_fallback now productName scrapers w) = (Normal fb, w') ∧
    scrapeProductDataWithFallback now random_seq productName scrapers w =
    (Normal (mergeProductData [fb] productName), w') ∧
    (∀ f, truthy (result_field f fb) = true) ∧
    (∀ f, merged_field f (mergeProductData [fb] productName) ≠ "") ∧
    m_features (mergeProductData [fb] productName) ≠ [] ∧
    m_images (mergeProductData [fb] productName) = [] ∧
    m_specifications (mergeProductData [fb] productName) !! "Data Source" =
      Some "Intelligent estimation".
Proof.
  intros Hnone.
  destruct (scrapeProductDataWithFallback_run now random_seq productName
              scrapers w) as [[Hok _]|(_ & fb & w' & Hfb & Hrun)]; [done|].
  destruct (createIntelligentFallback_facts productName
              (world_at_fallback now productName scrapers w))
    as (fb' & Hfb' & Hscalar & (fs & Hfs & Hlen & Hnd) & (sp & Hsp & Hds)
        & Himg).
  rewrite Hfb in Hfb'. injection Hfb' as <- _.
  exists fb, w'. split; [exact Hfb|]. split; [exact Hrun|].
  split; [exact Hscalar|]. split; [|split; [|split]].
  - intros f. specialize (Hscalar f).
    destruct (result_field f fb) as [s|] eqn:Hs; [|done].
    rewrite truthy_Some in Hscalar. apply truthy_str_true in Hscalar.
    pose proof (mergeProductData_field_first f [] fb [] s productName)
      as Hfirst. simpl in Hfirst. rewrite Hfirst; [done| |done..].
    intros r' Hr'. inversion Hr'.
  - change (merged_array Features (mergeProductData [fb] productName) ≠ []).
    rewrite mergeProductData_array. unfold all_strings. simpl.
    rewrite Hfs. simpl. rewrite app_nil_r.
    rewrite array_from_set_NoDup_id by done.
    intros ->. simpl in Hlen. lia.
  - change (merged_array Images (mergeProductData [fb] productName) = []).
    rewrite mergeProductData_array. unfold all_strings. simpl.
    by rewrite Himg.
  - unfold mergeProductData. simpl. rewrite Hsp. simpl.
    by apply lookup_union_Some_l.
Qed.

(** The aggregation never hands the merge an empty sequence: what it merges
    is the data of the scrapers that returned, at most one record per
    scraper, or, when there is none, the one record the fallback returns,
    whose scalars are all non-empty, so that the result is not the merge
    of nothing. *)
Theorem scrapeProductDataWithFallback_merges_nonempty
    (productName : string) (scrapers : list (Scraper Ext)) (w : World Ext) :
  ∃ rs w',
    scrapeProductDataWithFallback now random_seq productName scrapers w =
    (Normal (mergeProductData rs productName), w') ∧
    rs ≠ [] ∧
    (length rs ≤ Nat.max 1 (length scrapers))%nat ∧
    ((successes now productName scrapers w ≠ [] ∧
      rs = successes now productName scrapers w ∧
      w' = world_after_loop now productName scrapers w) ∨
     (successes now productName scrapers w = [] ∧
      ∃ fb,
        rs = [fb] ∧
        createIntelligentFallback random_seq productName
          (world_at_fallback now productName scrapers w) = (Normal fb, w') ∧
        (∀ f, truthy (result_field f fb) = true) ∧
        mergeProductData rs productName ≠ mergeProductData [] productName)).
Proof.
  pose proof (successes_length productName scrapers w) as Hlen.
  destruct (successes now productName scrapers w) as [|d ok] eqn:Hok.
  - destruct (scrapeProductDataWithFallback_fallback_run productName
                scrapers w Hok)
      as (fb & w' & Hfb & Hrun & Hscalar & Hfield & _).
    exists [fb], w'. split; [exact Hrun|]. split; [done|].
    split; [simpl; lia|]. right. split; [done|].
    exists fb. split; [done|]. split; [exact Hfb|]. split; [exact Hscalar|].
    intros Heq. apply (Hfield Price). by rewrite Heq.
  - destruct (scrapeProductDataWithFallback_run now random_seq productName
                scrapers w) as [[_ Hrun]|(Hnone & _)];
      [|by rewrite Hok in Hnone].
    rewrite Hok in Hrun. eexists _, _. split; [exact Hrun|].
    split; [done|]. split; [simpl in *; lia|]. by left.
Qed.

(** When every scraper throws, the record returned is synthesized and
    populated all the same: its price, rating, description and
    availability are non-empty, it has features, and it has no images. *)
Theorem scrapeProductDataWithFallback_all_failed
    (productName : string) (scrapers : list (Scraper Ext)) (w : World Ext) :
  successes now productName scrapers w = [] →
  ∃ p w',
    scrapeProductDataWithFallback now random_seq productName scrapers w =
    (Normal p, w') ∧
    m_name p = productName ∧
    (∀ f, merged_field f p ≠ "") ∧
    m_features p ≠ [] ∧ m_images p = [] ∧
    m_specifications p !! "Data Source" = Some "Intelligent estimation".
Proof.
  intros Hnone.
  destruct (scrapeProductDataWithFallback_fallback_run productName
              scrapers w Hnone)
    as (fb & w' & _ & Hrun & _ & Hfield & Hfeatures & Himages & Hspec).
  exists (mergeProductData [fb] productName), w'. split; [exact Hrun|].
  split; [apply mergeProductData_name|]. done.
Qed.

Section AggregationClaims.
Variable generateText : Prompt → M Ext string.
Variable OPENAI_API_KEY : option string.
Variable scrapybara playwright puppeteer : string → M Ext ScraperResult.

(** C2, as the code has it: a scraper that throws leaves the accumulated
    results as they were and has a [warn] entry logged; the aggregation
    always returns a record with the requested name, merged from the data
    of the scrapers that returned, or, when none did, from the record the
    fallback synthesizes, which is populated; and a request with two
    non-empty names that selects a scraper is answered with success when
    the API key is configured, whatever the scrapers and the text
    generation do, and with the configuration error when it is not. *)
Theorem scrapeProductDataWithFallback_absorbs_failures (productName : string) :
  (∀ scraper results w e w2,
     scrapeProduct scraper productName
       (world_at_call now productName scraper w) = (Throw e, w2) →
     scrape_one now productName scraper results w =
     (Normal results, warned now productName scraper e w2)) ∧
  (∀ scrapers w, ∃ p w',
     scrapeProductDataWithFallback now random_seq productName scrapers w =
     (Normal p, w') ∧
     m_name p = productName ∧
     (successes now productName scrapers w ≠ [] →
      p = mergeProductData (successes now productName scrapers w)
            productName) ∧
     (successes now productName scrapers w = [] →
      ∃ fb,
        createIntelligentFallback random_seq productName
          (world_at_fallback now productName scrapers w) = (Normal fb, w') ∧
        p = mergeProductData [fb] productName ∧
        (∀ f, merged_field f p ≠ "") ∧ m_features p ≠ [] ∧
        m_specifications p !! "Data Source" =
          Some "Intelligent estimation")) ∧
  (∀ req n1 n2 ms w,
     product1 req = Some n1 → product2 req = Some n2 →
     n1 ≠ "" → n2 ≠ "" →
     methods req = MethodsArray ms →
     selected_scrapers scrapybara playwright puppeteer ms ≠ [] →
     ∃ r w',
       POST now random_seq generateText OPENAI_API_KEY
         scrapybara playwright puppeteer req w = (Normal r, w') ∧
       (truthy OPENAI_API_KEY = true →
        ∃ p1 p2 comparison readme logs,
          r = Success p1 p2 comparison readme logs) ∧
       (truthy OPENAI_API_KEY = false →
        ∃ err setup, r = ConfigError err setup)).
Proof.
  split; [|split].
  - intros scraper results w e w2 Hthrow.
    by rewrite scrape_one_run, Hthrow.
  - intros scrapers w.
    destruct (successes now productName scrapers w) as [|d ok] eqn:Hok.
    + destruct (scrapeProductDataWithFallback_fallback_run productName
                  scrapers w Hok)
        as (fb & w' & Hfb & Hrun & _ & Hfield & Hfeatures & _ & Hspec).
      exists (mergeProductData [fb] productName), w'.
      split; [exact Hrun|]. split; [apply mergeProductData_name|].
      split; [done|]. intros _. by exists fb.
    + destruct (scrapeProductDataWithFallback_run now random_seq productName
                  scrapers w) as [[_ Hrun]|(Hnone & _)];
        [|by rewrite Hok in Hnone].
      rewrite Hok in Hrun. eexists _, _. split; [exact Hrun|].
      split; [apply mergeProductData_name|]. split; [done|]. done.
  - intros req n1 n2 ms w Hp1 Hp2 Hn1%truthy_str_true Hn2%truthy_str_true
      Hms Hsel.
    destruct (truthy OPENAI_API_KEY) eqn:Hkey.
    + destruct (POST_valid_run now random_seq generateText OPENAI_API_KEY
                  scrapybara playwright puppeteer req n1 n2
                  (selected_scrapers scrapybara playwright puppeteer ms) w)
        as (p1 & p2 & c & rd & logs & w' & Hrun & _); try done.
      { by rewrite Hms. }
      exists (Success p1 p2 c rd logs), w'. split; [exact Hrun|].
      split; [eauto 6|done].
    + eexists _, _. split.
      { by apply (POST_without_key_run now random_seq generateText
                    OPENAI_API_KEY scrapybara playwright puppeteer
                    req n1 n2 w). }
      split; [done|]. eauto.
Qed.

(** C5, as the code has it: the aggregation always returns a record with
    the requested name.  When a scraper returned and the ratings of the
    scrapers that returned are empty or of the shape [<number>/5...], the
    returned rating is empty or of that shape.  When no scraper returned
    and the name is of the phone family, the rating is [d.d/5 (estimated)]
    with [d.d] from 3.5 to 5.0, which is of that shape.  When no scraper
    returned and the name is not of the phone family, the rating is the
    literal [Rating varies] and the price the literal [Price varies]. *)
Theorem scrapeProductDataWithFallback_rating
    (productName : string) (scrapers : list (Scraper Ext)) (w : World Ext) :
  ∃ p w',
    scrapeProductDataWithFallback now random_seq productName scrapers w =
    (Normal p, w') ∧
    m_name p = productName ∧
    (successes now productName scrapers w ≠ [] →
     (∀ d s, d ∈ successes now productName scrapers w →
             r_rating d = Some s → s ≠ "" → rating_shape s = true) →
     m_rating p = "" ∨ rating_shape (m_rating p) = true) ∧
    (successes now productName scrapers w = [] →
     isPhone productName = true →
     (∀ i, (0 <= random_seq i)%Q ∧ (random_seq i < 1)%Q) →
     ∃ n : Z,
       (35 <= n <= 50)%Z ∧
       m_rating p =
         (pretty (n / 10)%Z +:+ "." +:+ pretty (n mod 10)%Z) +:+
         "/5 (estimated)" ∧
       rating_shape (m_rating p) = true) ∧
    (successes now productName scrapers w = [] →
     isPhone productName = false →
     m_rating p = "Rating varies" ∧ m_price p = "Price varies").
Proof.
  destruct (successes now productName scrapers w) as [|d0 ok] eqn:Hok.
  - destruct (scrapeProductDataWithFallback_fallback_run productName
                scrapers w Hok) as (fb & w' & Hfb & Hrun & _).
    exists (mergeProductData [fb] productName), w'. split; [exact Hrun|].
    split; [apply mergeProductData_name|]. split; [done|].
    assert (∀ f s, result_field f fb = Some s → s ≠ "" →
              merged_field f (mergeProductData [fb] productName) = s)
      as Hfirst.
    { intros f s Hs Hne.
      apply (mergeProductData_field_first f [] fb [] s productName);
        [|done..].
      intros r' Hr'. inversion Hr'. }
    pose proof (createIntelligentFallback_rating random_seq productName
                  _ _ _ Hfb) as Hrating.
    destruct (isPhone productName).
    + split; [|done]. intros _ _ Hrand.
      destruct (Hrating Hrand) as (s & n & Hs & Hne & Hshape & Hn & ->).
      exists n. split; [exact Hn|].
      pose proof (Hfirst Rating _ Hs Hne) as Hr. cbn [merged_field] in Hr.
      by rewrite Hr.
    + destruct Hrating as [Hrating Hprice]. split; [done|]. intros _ _.
      split; [by apply (Hfirst Rating)|by apply (Hfirst Price)].
  - destruct (scrapeProductDataWithFallback_run now random_seq productName
                scrapers w) as [[_ Hrun]|(Hnone & _)];
      [|by rewrite Hok in Hnone].
    rewrite Hok in Hrun. eexists _, _. split; [exact Hrun|].
    split; [apply mergeProductData_name|]. split; [|done].
    intros _ Hshape.
    destruct (mergeProductData_field_origin Rating (d0 :: ok) productName)
      as [Hempty|(r & s & Hr & Hs & Hne & Heq)]; [by left|].
    right. simpl in Heq. rewrite Heq. by apply (Hshape r).
Qed.
End AggregationClaims.
End AggregationMore.

Section LogFootprint.
Context {Ext : Type}.
Variable now : Ext → string.
Variable random_seq : nat → Q.

Lemma scrape_all_logs productName (scrapers : list (Scraper Ext)) w :
  Forall appends_only scrapers →
  ∃ added,
    w_logs (world_after_loop now productName scrapers w) = w_logs w ++ added ∧
    (2 * length scrapers ≤ length added)%nat ∧
    (length scrapers ≤
     length (successes now productName scrapers w) +
     count_entries LWarn added)%nat.
Proof.
  unfold world_after_loop. intros Hall. revert w.
  induction Hall as [|s rest Hs _ IH]; intros w.
  - exists []. simpl. by rewrite app_nil_r.
  - cbn [scrape_all successes]. unfold mbind, M_bind, bind.
    rewrite (scrape_one_run now productName s [] w).
    destruct (Hs productName (world_at_call now productName s w))
      as (extra & Hextra).
    destruct (scrapeProduct s productName _) as [[data|e] w2] eqn:Hrun;
      cbn [fst snd] in *.
    + rewrite scrape_all_run. cbn [snd]. unfold world_after_loop.
      destruct (IH (completed now productName s w2)) as (added & Hw & Hlen & Hcnt).
      rewrite Hw. unfold completed at 1. cbn [w_logs]. rewrite Hextra.
      unfold world_at_call. cbn [snd w_logs info addLog].
      eexists. split; [by rewrite <- !app_assoc|].
      rewrite !length_app, !count_entries_app. simpl. split; lia.
    + rewrite scrape_all_run. cbn [snd]. unfold world_after_loop.
      destruct (IH (warned now productName s e w2)) as (added & Hw & Hlen & Hcnt).
      rewrite Hw. unfold warned at 1. cbn [w_logs]. rewrite Hextra.
      unfold world_at_call. cbn [snd w_logs info addLog].
      eexists. split; [by rewrite <- !app_assoc|].
      rewrite !length_app, !count_entries_app.
      unfold count_entries at 3. simpl. split; lia.
Qed.

(** When the scrapers only append to the log, so does the aggregation: the
    log it leaves is the log it found followed by new entries, at least two
    per scraper, among them at least one [warn] entry for every scraper
    that did not return data. *)
Theorem scrapeProductDataWithFallback_appends_to_log
    (productName : string) (scrapers : list (Scraper Ext)) (w : World Ext) :
  Forall appends_only scrapers →
  ∃ p w' added,
    scrapeProductDataWithFallback now random_seq productName scrapers w =
    (Normal p, w') ∧
    w_logs w' = w_logs w ++ added ∧
    (2 * length scrapers ≤ length added)%nat ∧
    (length scrapers ≤
     length (successes now productName scrapers w) +
     count_entries LWarn added)%nat.
Proof.
  intros Hall.
  destruct (scrape_all_logs productName scrapers w Hall)
    as (added & Hw & Hlen & Hcnt).
  destruct (scrapeProductDataWithFallback_run now random_seq productName
              scrapers w) as [[Hok Hrun]|(Hok & fb & w' & Hfb & Hrun)].
  - eexists _, _, added. split; [exact Hrun|]. done.
  - destruct (createIntelligentFallback_facts random_seq productName
                (world_at_fallback now productName scrapers w))
      as (fb' & Hfb' & _).
    rewrite Hfb in Hfb'. injection Hfb' as _ Hw'.
    exists (mergeProductData [fb] productName), w',
      (added ++ [mkEntry
                   (now (w_ext (world_after_loop now productName scrapers w)))
                   LInfo
                   ("Creating intelligent fallback data for " +:+ productName)
                   "ProductComparisonAgent" None]).
    split; [exact Hrun|]. split.
    + rewrite Hw'. rewrite app_assoc, <- Hw.
      unfold world_at_fallback. by destruct (isPhone productName).
    + rewrite length_app, count_entries_app. simpl. split; lia.
Qed.
End LogFootprint.

Lemma scrapeProductDataWithFallback_appends_to_log_witness :
  ∃ p w' added,
    scrapeProductDataWithFallback sample_now sample_random "Widget X"
      [mkScraper "ScrapybaraBrowser" (logging_scrapeProduct true);
       mkScraper "RealPlaywrightScraper" (logging_scrapeProduct false)]
      sample_world = (Normal p, w') ∧
    w_logs w' = w_logs sample_world ++ added ∧
    (2 * 2 ≤ length added)%nat ∧
    (2 ≤
     length (successes sample_now "Widget X"
               [mkScraper "ScrapybaraBrowser" (logging_scrapeProduct true);
                mkScraper "RealPlaywrightScraper" (logging_scrapeProduct false)]
               sample_world) +
     count_entries LWarn added)%nat.
Proof.
  apply (scrapeProductDataWithFallback_appends_to_log sample_now sample_random
           "Widget X"
           [mkScraper "ScrapybaraBrowser" (logging_scrapeProduct true);
            mkScraper "RealPlaywrightScraper" (logging_scrapeProduct false)]
           sample_world).
  repeat constructor; intros productName w; eexists; reflexivity.
Defined.

Lemma selected_scrapers_by_membership_witness :
  selected_scrapers throwing_scrapeProduct returning_scrapeProduct
    returning_scrapeProduct ["puppeteer"; "scrapybara"; "puppeteer"; "curl"] =
  selected_scrapers throwing_scrapeProduct returning_scrapeProduct
    returning_scrapeProduct ["scrapybara"; "puppeteer"].
Proof.
  apply (proj2 (proj2 (selected_scrapers_by_membership
                         throwing_scrapeProduct returning_scrapeProduct
                         returning_scrapeProduct
                         ["puppeteer"; "scrapybara"; "puppeteer"; "curl"]
                         ["scrapybara"; "puppeteer"]))).
  intros x Hx. apply list_elem_of_In in Hx. simpl in Hx.
  destruct Hx as [<-|[<-|[<-|[]]]]; split; intros Hin;
    try (by repeat constructor);
    apply list_elem_of_In in Hin; simpl in Hin;
    repeat (destruct Hin as [Hin|Hin]; [discriminate Hin|]); done.
Defined.

Lemma POST_without_key_witness :
  ∃ err setup,
    POST sample_now sample_random sample_generateText None
      throwing_scrapeProduct returning_scrapeProduct returning_scrapeProduct
      (mkRequest (Some "Widget") (Some "Gadget") (MethodsArray []))
      sample_world =
    (Normal (ConfigError err setup),
     mkWorld
       [mkEntry (sample_now ()) LError "OpenAI API key not configured"
          "ProductComparisonAgent" None] 0 ()).
Proof.
  apply (POST_without_key sample_now sample_random sample_generateText None
           throwing_scrapeProduct returning_scrapeProduct
           returning_scrapeProduct
           (mkRequest (Some "Widget") (Some "Gadget") (MethodsArray []))
           "Widget" "Gadget" sample_world);
    [reflexivity|reflexivity|discriminate|discriminate|reflexivity].
Defined.

Lemma POST_success_witness :
  ∃ p1 p2 comparison readme logs w',
    POST sample_now sample_random throwing_generateText (Some "sk-test")
      throwing_scrapeProduct returning_scrapeProduct returning_scrapeProduct
      (mkRequest (Some "Widget") (Some "Gadget")
         (MethodsArray ["scrapybara"; "playwright"]))
      sample_world =
    (Normal (Success p1 p2 comparison readme logs), w') ∧
    m_name p1 = "Widget" ∧ m_name p2 = "Gadget" ∧
    w_logs w' =
    logs ++ [mkEntry (sample_now (w_ext w')) LInfo
               "Product comparison completed successfully"
               "ProductComparisonAgent" None].
Proof.
  apply (POST_success sample_now sample_random throwing_generateText
           (Some "sk-test") throwing_scrapeProduct returning_scrapeProduct
           returning_scrapeProduct
           (mkRequest (Some "Widget") (Some "Gadget")
              (MethodsArray ["scrapybara"; "playwright"]))
           "Widget" "Gadget" ["scrapybara"; "playwright"] sample_world);
    [reflexivity|reflexivity|discriminate|discriminate|reflexivity
    |reflexivity|].
  vm_compute. discriminate.
Defined.

Lemma POST_catch_all_on_methods_witness :
  fst (POST sample_now sample_random sample_generateText (Some "sk-test")
         returning_scrapeProduct returning_scrapeProduct
         returning_scrapeProduct
         (mkRequest (Some "Widget") (Some "Gadget")
            (MethodsOther
               "Cannot read properties of undefined (reading 'includes')"))
         sample_world) =
  Normal
    (Failure "Failed to compare products. Check logs for details."
       "Cannot read properties of undefined (reading 'includes')"
       [mkEntry (sample_now ()) LInfo
          "Starting product comparison with intelligent browser automation"
          "ProductComparisonAgent"
          (Some [("product1", MStr "Widget"); ("product2", MStr "Gadget");
                 ("methods", MOther)]);
        mkEntry (sample_now ()) LError "Error in product comparison"
          "ProductComparisonAgent"
          (Some [("error",
                  MStr "Cannot read properties of undefined (reading 'includes')")])]).
Proof.
  rewrite (proj1 (POST_catch_all_on_methods sample_now sample_random
                    sample_generateText (Some "sk-test")
                    returning_scrapeProduct returning_scrapeProduct
                    returning_scrapeProduct
                    (mkRequest (Some "Widget") (Some "Gadget")
                       (MethodsOther
                          "Cannot read properties of undefined (reading 'includes')"))
                    "Widget" "Gadget"
                    "Cannot read properties of undefined (reading 'includes')"
                    sample_world eq_refl eq_refl ltac:(discriminate)
                    ltac:(discriminate) eq_refl eq_refl)).
  reflexivity.
Defined.

Lemma generate_steps_absorb_failures_witness :
  generateComparison sample_now throwing_generateText
    (merged_init "Widget") (merged_init "Gadget") sample_world =
  (Normal "Comparison generation failed. Please try again.",
   mkWorld
     [mkEntry (sample_now ()) LError "Failed to generate comparison"
        "ProductComparisonAgent" (Some [("error", MStr "rate limited")])]
     0 ()) ∧
  generateComparison sample_now sample_generateText
    (merged_init "Widget") (merged_init "Gadget") sample_world =
  (Normal "text", sample_world).
Proof.
  split.
  - apply (proj1 (generate_steps_absorb_failures sample_now
                    throwing_generateText (merged_init "Widget")
                    (merged_init "Gadget") "" sample_world)
             (ErrorObject "rate limited") sample_world).
    reflexivity.
  - apply (proj1 (proj2 (generate_steps_absorb_failures sample_now
                           sample_generateText (merged_init "Widget")
                           (merged_init "Gadget") "" sample_world))
             "text" sample_world).
    reflexivity.
Defined.

Lemma scrapeProductDataWithFallback_all_failed_witness :
  ∃ p w',
    scrapeProductDataWithFallback sample_now sample_random "Galaxy S24"
      [throwing_scraper; throwing_scraper] sample_world = (Normal p, w') ∧
    m_name p = "Galaxy S24" ∧
    (∀ f, merged_field f p ≠ "") ∧
    m_features p ≠ [] ∧ m_images p = [] ∧
    m_specifications p !! "Data Source" = Some "Intelligent estimation".
Proof.
  apply (scrapeProductDataWithFallback_all_failed sample_now sample_random
           "Galaxy S24" [throwing_scraper; throwing_scraper] sample_world).
  reflexivity.
Defined.

Lemma scrapeProductDataWithFallback_absorbs_failures_witness :
  scrape_one sample_now "Widget X" throwing_scraper [] sample_world =
  (Normal [],
   warned sample_now "Widget X" throwing_scraper
     (ErrorObject "Navigation timeout")
     (world_at_call sample_now "Widget X" throwing_scraper sample_world)) ∧
  (∃ r w',
     POST sample_now sample_random sample_generateText (Some "sk-test")
       throwing_scrapeProduct returning_scrapeProduct returning_scrapeProduct
       (mkRequest (Some "Widget X") (Some "Gadget")
          (MethodsArray ["scrapybara"]))
       sample_world = (Normal r, w') ∧
     ∃ p1 p2 comparison readme logs,
       r = Success p1 p2 comparison readme logs) ∧
  (∃ r w',
     POST sample_now sample_random sample_generateText None
       throwing_scrapeProduct returning_scrapeProduct returning_scrapeProduct
       (mkRequest (Some "Widget X") (Some "Gadget")
          (MethodsArray ["scrapybara"]))
       sample_world = (Normal r, w') ∧
     ∃ err setup, r = ConfigError err setup) ∧
  (∃ p w',
     scrapeProductDataWithFallback sample_now sample_random "Widget X"
       [throwing_scraper; rating_scraper] sample_world = (Normal p, w') ∧
     p = mergeProductData [with_rating "4.5/5"] "Widget X") ∧
  (∃ p w',
     scrapeProductDataWithFallback sample_now sample_random "Widget X"
       [throwing_scraper; throwing_scraper] sample_world = (Normal p, w') ∧
     (∀ f, merged_field f p ≠ "") ∧ m_features p ≠ []).
Proof.
  split; [|split; [|split; [|split]]].
  - apply (proj1 (scrapeProductDataWithFallback_absorbs_failures
                    sample_now sample_random sample_generateText
                    (Some "sk-test") throwing_scrapeProduct
                    returning_scrapeProduct returning_scrapeProduct
                    "Widget X")).
    reflexivity.
  - destruct (proj2 (proj2 (scrapeProductDataWithFallback_absorbs_failures
                              sample_now sample_random sample_generateText
                              (Some "sk-test") throwing_scrapeProduct
                              returning_scrapeProduct returning_scrapeProduct
                              "Widget X"))
                (mkRequest (Some "Widget X") (Some "Gadget")
                   (MethodsArray ["scrapybara"]))
                "Widget X" "Gadget" ["scrapybara"] sample_world
                eq_refl eq_refl ltac:(discriminate) ltac:(discriminate)
                eq_refl ltac:(discriminate))
      as (r & w' & Hrun & Hkey & _).
    exists r, w'. split; [exact Hrun|]. apply Hkey. reflexivity.
  - destruct (proj2 (proj2 (scrapeProductDataWithFallback_absorbs_failures
                              sample_now sample_random sample_generateText
                              None throwing_scrapeProduct
                              returning_scrapeProduct returning_scrapeProduct
                              "Widget X"))
                (mkRequest (Some "Widget X") (Some "Gadget")
                   (MethodsArray ["scrapybara"]))
                "Widget X" "Gadget" ["scrapybara"] sample_world
                eq_refl eq_refl ltac:(discriminate) ltac:(discriminate)
                eq_refl ltac:(discriminate))
      as (r & w' & Hrun & _ & Hnokey).
    exists r, w'. split; [exact Hrun|]. apply Hnokey. reflexivity.
  - destruct (proj1 (proj2 (scrapeProductDataWithFallback_absorbs_failures
                              sample_now sample_random sample_generateText
                              None throwing_scrapeProduct
                              returning_scrapeProduct returning_scrapeProduct
                              "Widget X"))
                [throwing_scraper; rating_scraper] sample_world)
      as (p & w' & Hrun & _ & Hsome & _).
    exists p, w'. split; [exact Hrun|]. apply Hsome.
    vm_compute. discriminate.
  - destruct (proj1 (proj2 (scrapeProductDataWithFallback_absorbs_failures
                              sample_now sample_random sample_generateText
                              None throwing_scrapeProduct
                              returning_scrapeProduct returning_scrapeProduct
                              "Widget X"))
                [throwing_scraper; throwing_scraper] sample_world)
      as (p & w' & Hrun & _ & _ & Hnone).
    destruct Hnone as (fb & _ & _ & Hfield & Hfeatures & _); [reflexivity|].
    exists p, w'. split; [exact Hrun|]. split; [exact Hfield|exact Hfeatures].
Defined.

(** The claim that the only error a request can end in is a validation
    error fails without an API key: two valid names and a selected scraper
    are answered with the configuration error, status 500, though no
    scraper failed: none was called. *)
Lemma POST_config_error_is_no_validation_error :
  ∃ r w',
    POST sample_now sample_random sample_generateText None
      returning_scrapeProduct returning_scrapeProduct returning_scrapeProduct
      (mkRequest (Some "Widget") (Some "Gadget")
         (MethodsArray ["scrapybara"]))
      sample_world = (Normal r, w') ∧
    status r = 500%nat ∧ ¬ is_validation_error r ∧
    map level (w_logs w') = [LError] ∧ w_draws w' = 0%nat.
Proof.
  eexists _, _. split; [by vm_compute|].
  split; [reflexivity|]. split; [intros [msg Hmsg]; discriminate Hmsg|].
  split; reflexivity.
Qed.

Lemma scrapeProductDataWithFallback_rating_witness :
  (∃ p w',
     scrapeProductDataWithFallback sample_now sample_random "Widget"
       [throwing_scraper; rating_scraper] sample_world = (Normal p, w') ∧
     m_name p = "Widget" ∧
     (m_rating p = "" ∨ rating_shape (m_rating p) = true)) ∧
  (∃ p w' (n : Z),
     scrapeProductDataWithFallback sample_now sample_random "iPhone 15"
       [throwing_scraper] sample_world = (Normal p, w') ∧
     (35 <= n <= 50)%Z ∧
     m_rating p =
       (pretty (n / 10)%Z +:+ "." +:+ pretty (n mod 10)%Z) +:+
       "/5 (estimated)").
Proof.
  split.
  - destruct (scrapeProductDataWithFallback_rating sample_now sample_random
                "Widget" [throwing_scraper; rating_scraper] sample_world)
      as (p & w' & Hrun & Hname & Hshape & _).
    exists p, w'. split; [exact Hrun|]. split; [exact Hname|].
    apply Hshape.
    + vm_compute. discriminate.
    + intros d s Hd. vm_compute in Hd.
      apply list_elem_of_singleton in Hd. subst d.
      intros [= <-] _. reflexivity.
  - destruct (scrapeProductDataWithFallback_rating sample_now sample_random
                "iPhone 15" [throwing_scraper] sample_world)
      as (p & w' & Hrun & _ & _ & Hphone & _).
    destruct Hphone as (n & Hn & Hrating & _).
    + reflexivity.
    + reflexivity.
    + intros i. split; vm_compute; [discriminate|reflexivity].
    + exists p, w', n. split; [exact Hrun|]. split; [exact Hn|exact Hrating].
Defined.

(** ** The entry of [ScrapybaraBrowser.scrapeProduct] *)

Section ScraperGuard.
Context {Ext : Type}.
Variable now : Ext → string.

(** [ScrapybaraBrowser.scrapeProduct] logs its start, then rejects an empty
    or blank name by throwing "Product name is required" without running
    the rest, logging the failure on the way out.  For any other name it
    runs the rest: data is returned as it is, and what the rest throws is
    logged and thrown again unchanged. *)
Theorem ScrapybaraBrowser_scrapeProduct_guard
    (body : string → M Ext ScraperResult) (productName : string)
    (w : World Ext) :
  let started :=
    mkWorld
      (w_logs w ++
         [mkEntry (now (w_ext w)) LInfo
            "ScrapybaraBrowser: Starting AI-powered product scrape"
            "ProductComparisonAgent" (Some [("product", MStr productName)])])
      (w_draws w) (w_ext w) in
  let failed e w2 :=
    mkWorld
      (w_logs w2 ++
         [mkEntry (now (w_ext w2)) LError "ScrapybaraBrowser: AI scrape failed"
            "ProductComparisonAgent"
            (Some [("product", MStr productName);
                   ("error", MStr (errorMessage e))])])
      (w_draws w2) (w_ext w2) in
  (trim productName = "" →
   ScrapybaraBrowser_scrapeProduct now body productName w =
   (Throw (ErrorObject "Product name is required"),
    failed (ErrorObject "Product name is required") started)) ∧
  (trim productName ≠ "" →
   ScrapybaraBrowser_scrapeProduct now body productName w =
   match body productName started with
   | (Normal data, w2) => (Normal data, w2)
   | (Throw e, w2) => (Throw e, failed e w2)
   end).
Proof.
  simpl. unfold ScrapybaraBrowser_scrapeProduct. unfold_route. split.
  - intros Hblank. rewrite Hblank. simpl. by rewrite orb_true_r.
  - intros Hname.
    assert (truthy_str productName = true) as ->.
    { apply truthy_str_true. intros ->. by apply Hname. }
    assert ((String.length (trim productName) =? 0)%nat = false) as ->.
    { apply Nat.eqb_neq. by rewrite string_length_zero. }
    simpl. by destruct (body productName _) as [[data|e] w2].
Qed.
End ScraperGuard.

Lemma ScrapybaraBrowser_scrapeProduct_guard_witness :
  fst (ScrapybaraBrowser_scrapeProduct sample_now returning_scrapeProduct
         "   " sample_world) =
    Throw (ErrorObject "Product name is required") ∧
  fst (ScrapybaraBrowser_scrapeProduct sample_now returning_scrapeProduct
         " Widget " sample_world) = Normal (with_price "$5").
Proof.
  split.
  - rewrite (proj1 (ScrapybaraBrowser_scrapeProduct_guard sample_now
                      returning_scrapeProduct "   " sample_world));
      reflexivity.
  - rewrite (proj2 (ScrapybaraBrowser_scrapeProduct_guard sample_now
                      returning_scrapeProduct " Widget " sample_world));
      [reflexivity|]. vm_compute. discriminate.
Defined.

(** * The simulated scrapers *)

Lemma array_get_in_range (l : list string) (u : Q) :
  l ≠ [] → (0 <= u)%Q → (u < 1)%Q →
  ∃ i s, (i < length l)%nat ∧ l !! i = Some s ∧
         array_get l (random_index u (length l)) = Some s.
Proof.
  intros Hl H0 H1. unfold array_get, random_index.
  set (n := Z.of_nat (length l)).
  assert (0 < n)%Z as Hn by (destruct l; [done|]; unfold n; simpl; lia).
  assert (0 <= inject_Z n)%Q as Hn0.
  { change 0%Q with (inject_Z 0). rewrite <- Zle_Qle. lia. }
  assert (0 < inject_Z n)%Q as Hn1.
  { change 0%Q with (inject_Z 0). rewrite <- Zlt_Qlt. lia. }
  pose proof (Qfloor_le (u * inject_Z n)) as Hfl.
  pose proof (Qlt_floor (u * inject_Z n)) as Hfu.
  assert (0 <= Qfloor (u * inject_Z n) < n)%Z as [Hlo Hhi].
  { split.
    - destruct (Z.le_gt_cases 0 (Qfloor (u * inject_Z n))) as [?|Hneg];
        [done|].
      assert (Qfloor (u * inject_Z n) + 1 <= 0)%Z as Hz by lia.
      rewrite Zle_Qle in Hz. change (inject_Z 0) with 0%Q in Hz.
      assert (0 <= u * inject_Z n)%Q by by apply Qmult_le_0_compat.
      lra.
    - destruct (Z.lt_ge_cases (Qfloor (u * inject_Z n)) n) as [?|Hge];
        [done|].
      rewrite Zle_Qle in Hge.
      assert (u * inject_Z n < 1 * inject_Z n)%Q
        by by apply Qmult_lt_compat_r.
      lra. }
  assert ((Qfloor (u * inject_Z n) <? 0)%Z = false) as -> by lia.
  assert (Z.to_nat (Qfloor (u * inject_Z n)) < length l)%nat as Hidx
    by (unfold n in *; lia).
  destruct (lookup_lt_is_Some_2 l _ Hidx) as [s Hs]. eauto.
Qed.

Section PlaywrightScraperFacts.
Context {Ext : Type}.
Variable now : Ext → string.
Variable random_seq : nat → Q.
Variable wait : Q → Ext → Ext.

Ltac unfold_scraper :=
  unfold mbind, M_bind, mret, M_ret, bind, ret, throw, try_catch,
    info, warn, error, addLog, Math_random, sleep in *.

(** What the four sites give, one after the other. *)
Lemma PlaywrightScraper_scrape_sites_run productName (w : World Ext) :
  ∃ p1 p2 p3 p4 w',
    PlaywrightScraper.scrape_sites now random_seq wait productName
      PlaywrightScraper.sites [] w =
    (Normal [p1; p2; p3; p4], w') ∧
    map r_rating [p1; p2; p3; p4] =
      [Some "4.3/5 (2,847 reviews)"; Some "4.5/5 (1,234 reviews)";
       Some "4.2/5 (892 reviews)"; Some "4.1/5 (567 reviews)"] ∧
    r_price p1 =
      array_get PlaywrightScraper.prices
        (random_index (random_seq (w_draws w)) 7) ∧
    w_draws w' = (8 + w_draws w)%nat ∧
    ∃ added, w_logs w' = w_logs w ++ added ∧ map level added = replicate 8 LInfo.
Proof.
  unfold PlaywrightScraper.sites. cbn [PlaywrightScraper.scrape_sites].
  unfold PlaywrightScraper.scrapeSite, PlaywrightScraper.getSiteSpecificData,
    PlaywrightScraper.getRandomPrice.
  unfold_scraper. cbn -[random_index PlaywrightScraper.prices].
  eexists _, _, _, _, _. split; [reflexivity|].
  cbn -[random_index PlaywrightScraper.prices].
  do 3 (split; [reflexivity|]).
  eexists. split; [by rewrite <- !app_assoc|]. reflexivity.
Qed.

(** A blank name is rejected before any site is looked at: the scraper
    throws "Product name is required", the log gains the start entry and
    the failure entry, no random number is drawn and no time is spent. *)
Theorem PlaywrightScraper_scrapeProduct_blank
    (productName : string) (w : World Ext) :
  name_is_blank productName = true →
  PlaywrightScraper.scrapeProduct now random_seq wait productName w =
  (Throw (ErrorObject "Product name is required"),
   mkWorld
     (w_logs w ++
        [mkEntry (now (w_ext w)) LInfo
           "PlaywrightScraper: Starting product scrape"
           "ProductComparisonAgent" (Some [("product", MStr productName)]);
         mkEntry (now (w_ext w)) LError "PlaywrightScraper: Scrape failed"
           "ProductComparisonAgent"
           (Some [("product", MStr productName);
                  ("error", MStr "Product name is required")])])
     (w_draws w) (w_ext w)).
Proof.
  intros Hblank. unfold PlaywrightScraper.scrapeProduct. rewrite Hblank.
  unfold_scraper. cbn. by rewrite <- app_assoc.
Qed.

(** For any other name the scraper returns, and most of what it returns
    does not depend on the name or on chance: the rating is the one of
    Best Buy, the highest of the four; the availability is the one of
    Amazon, the first site; the features are the sixteen features of the
    four sites; and in the specifications Walmart, the last site, has
    overwritten the shipping of Amazon and the pickup and returns of
    Target.  The price is the one drawn for Amazon.  Eight random numbers
    are drawn and ten [info] entries are logged. *)
Theorem PlaywrightScraper_scrapeProduct_result
    (productName : string) (w : World Ext) :
  name_is_blank productName = false →
  ∃ p w',
    PlaywrightScraper.scrapeProduct now random_seq wait productName w =
    (Normal p, w') ∧
    m_name p = productName ∧
    m_rating p = "4.5/5 (1,234 reviews)" ∧
    m_availability p = "In Stock" ∧
    length (m_features p) = 16%nat ∧ NoDup (m_features p) ∧
    m_specifications p =
      list_to_map
        [("Seller", "Amazon.com"); ("Shipping", "Free on $35+");
         ("Return Policy", "30 days"); ("Store Pickup", "Available");
         ("Geek Squad", "Setup available");
         ("Warranty", "Manufacturer + Extended options");
         ("Delivery", "Same day available"); ("Pickup", "Free store pickup");
         ("Returns", "90 days")] ∧
    ((0 <= random_seq (w_draws w))%Q → (random_seq (w_draws w) < 1)%Q →
     m_price p ∈ PlaywrightScraper.prices ∧
     array_get PlaywrightScraper.prices
       (random_index (random_seq (w_draws w)) 7) = Some (m_price p)) ∧
    w_draws w' = (8 + w_draws w)%nat ∧
    ∃ added,
      w_logs w' = w_logs w ++ added ∧ map level added = replicate 10 LInfo.
Proof.
  intros Hname. unfold PlaywrightScraper.scrapeProduct. rewrite Hname.
  unfold PlaywrightScraper.sites. cbn [PlaywrightScraper.scrape_sites].
  unfold PlaywrightScraper.scrapeSite, PlaywrightScraper.getSiteSpecificData,
    PlaywrightScraper.getRandomPrice.
  unfold_scraper. cbn -[random_index PlaywrightScraper.prices mergeResults].
  eexists _, _. split; [reflexivity|].
  split; [reflexivity|]. split; [reflexivity|]. split; [reflexivity|].
  cbn [m_features m_specifications mergeResults fold_left r_features
       r_specifications].
  split; [by vm_compute|].
  split; [apply (bool_decide_unpack _); by vm_compute|].
  split; [cbn [spread_specs]; reflexivity|]. split; [|split; [reflexivity|]].
  - intros H0 H1.
    destruct (array_get_in_range PlaywrightScraper.prices
                (random_seq (w_draws w))) as (i & s & Hi & Hs & Hget);
      [done..|].
    assert (s ≠ "") as Hne.
    { intros ->. do 7 (destruct i as [|i]; [discriminate Hs|]).
      simpl in Hi. lia. }
    cbn [m_price mergeResults fold_left r_price]. rewrite !Hget.
    apply truthy_str_true in Hne.
    rewrite (first_writer_taken s Hne).
    rewrite !(first_writer_kept s _ Hne).
    split; [|exact Hget]. apply list_elem_of_lookup. eauto.
  - cbn [w_logs]. eexists. split; [by rewrite <- !app_assoc|]. reflexivity.
Qed.
End PlaywrightScraperFacts.

Lemma PlaywrightScraper_scrapeProduct_blank_witness :
  PlaywrightScraper.scrapeProduct sample_now sample_random sample_wait "  "
    sample_world =
  (Throw (ErrorObject "Product name is required"),
   mkWorld
     [mkEntry (sample_now ()) LInfo
        "PlaywrightScraper: Starting product scrape"
        "ProductComparisonAgent" (Some [("product", MStr "  ")]);
      mkEntry (sample_now ()) LError "PlaywrightScraper: Scrape failed"
        "ProductComparisonAgent"
        (Some [("product", MStr "  ");
               ("error", MStr "Product name is required")])]
     0 ()).
Proof.
  apply (PlaywrightScraper_scrapeProduct_blank sample_now sample_random
           sample_wait "  " sample_world).
  reflexivity.
Defined.

Lemma PlaywrightScraper_scrapeProduct_result_witness :
  ∃ p w',
    PlaywrightScraper.scrapeProduct sample_now sample_random sample_wait
      "Widget" sample_world = (Normal p, w') ∧
    m_rating p = "4.5/5 (1,234 reviews)" ∧
    m_price p = "$499.99" ∧ w_draws w' = 8%nat.
Proof.
  destruct (PlaywrightScraper_scrapeProduct_result sample_now sample_random
              sample_wait "Widget" sample_world)
    as (p & w' & Hrun & _ & Hrating & _ & _ & _ & _ & Hprice & Hdraws & _).
  { reflexivity. }
  exists p, w'. split; [exact Hrun|]. split; [exact Hrating|].
  split; [|exact Hdraws].
  destruct Hprice as [_ Hprice]; [by vm_compute|by vm_compute|].
  vm_compute in Hprice. by injection Hprice.
Defined.

(** ** The vision scraper *)

(** [PuppeteerScraper.aggregateVisionResults] is the top-level merge of
    the route applied to the task results, their visual features read as
    features and their extracted text as description; so it inherits the
    rules of that merge: first non-empty scalar, features without
    duplicates in first-seen order, later specifications overwriting. *)
Theorem aggregateVisionResults_is_mergeProductData
    (results : list PuppeteerScraper.VisionResult) (productName : string) :
  PuppeteerScraper.aggregateVisionResults results productName =
  mergeProductData (map vision_as_result results) productName.
Proof.
  unfold PuppeteerScraper.aggregateVisionResults, mergeProductData.
  generalize (merged_init productName).
  induction results as [|v vs IH]; intros acc; simpl; [done|].
  rewrite IH. f_equal.
Qed.

Section PuppeteerScraperFacts.
Context {Ext : Type}.
Variable now : Ext → string.
Variable random_seq : nat → Q.
Variable wait : Q → Ext → Ext.

Ltac unfold_vision :=
  unfold mbind, M_bind, mret, M_ret, bind, ret, throw, try_catch,
    info, warn, error, addLog, Math_random, sleep in *.

Lemma getMockVisualFeatures_NoDup productName :
  NoDup (PuppeteerScraper.getMockVisualFeatures productName).
Proof.
  unfold PuppeteerScraper.getMockVisualFeatures.
  destruct (isPhone productName); apply (bool_decide_unpack _); by vm_compute.
Qed.

Lemma getMockExtractedText_nonempty productName :
  truthy_str (PuppeteerScraper.getMockExtractedText productName) = true.
Proof.
  apply truthy_str_true. unfold PuppeteerScraper.getMockExtractedText.
  by apply string_app_nonempty_r.
Qed.

(** One turn of the loop: two draws for the task, one for the wait, one
    [info] entry, one more result. *)
Lemma PuppeteerScraper_run_tasks_step productName task rest results
    (w : World Ext) :
  PuppeteerScraper.run_tasks now random_seq wait productName (task :: rest)
    results w =
  PuppeteerScraper.run_tasks now random_seq wait productName rest
    (results ++
     [PuppeteerScraper.mkVision
        (Some (PuppeteerScraper.getMockVisualFeatures productName))
        (Some (PuppeteerScraper.getMockExtractedText productName))
        (Some (PuppeteerScraper.getMockVisualSpecs productName))
        (array_get PuppeteerScraper.prices
           (random_index (random_seq (w_draws w))
              (length PuppeteerScraper.prices)))
        (array_get PuppeteerScraper.ratings
           (random_index (random_seq (S (w_draws w)))
              (length PuppeteerScraper.ratings)))
        (Some "Visually confirmed in stock")])
    (mkWorld
       (w_logs w ++
          [mkEntry (now (w_ext w)) LInfo
             "PuppeteerScraper: Executing vision task"
             "ProductComparisonAgent"
             (Some [("task", MStr task); ("product", MStr productName)])])
       (S (S (S (w_draws w))))
       (wait (900 + random_seq (S (S (w_draws w))) * 600)%Q (w_ext w))).
Proof.
  cbn [PuppeteerScraper.run_tasks].
  unfold PuppeteerScraper.executeVisionTask,
    PuppeteerScraper.getMockVisualPrice, PuppeteerScraper.getMockVisualRating.
  unfold_vision. reflexivity.
Qed.

(** The whole loop never fails; every task gives the same features, text,
    specifications and availability; three numbers are drawn per task. *)
Lemma PuppeteerScraper_run_tasks_run productName tasks :
  ∀ results (w : World Ext),
  ∃ vs w',
    PuppeteerScraper.run_tasks now random_seq wait productName tasks results w =
    (Normal (results ++ vs), w') ∧
    length vs = length tasks ∧
    Forall (λ v,
      PuppeteerScraper.visualFeatures v =
        Some (PuppeteerScraper.getMockVisualFeatures productName) ∧
      PuppeteerScraper.extractedText v =
        Some (PuppeteerScraper.getMockExtractedText productName) ∧
      PuppeteerScraper.v_specifications v =
        Some (PuppeteerScraper.getMockVisualSpecs productName) ∧
      PuppeteerScraper.v_availability v = Some "Visually confirmed in stock")
      vs ∧
    (∀ v, head vs = Some v →
       PuppeteerScraper.v_price v =
         array_get PuppeteerScraper.prices
           (random_index (random_seq (w_draws w)) 6) ∧
       PuppeteerScraper.v_rating v =
         array_get PuppeteerScraper.ratings
           (random_index (random_seq (S (w_draws w))) 4)) ∧
    w_draws w' = (3 * length tasks + w_draws w)%nat ∧
    ∃ added,
      w_logs w' = w_logs w ++ added ∧
      map level added = replicate (length tasks) LInfo.
Proof.
  induction tasks as [|task rest IH]; intros results w.
  - exists [], w. cbn [PuppeteerScraper.run_tasks]. unfold_vision.
    rewrite app_nil_r. do 3 (split; [done|]). split; [by intros v [=]|].
    split; [done|]. exists []. by rewrite app_nil_r.
  - rewrite PuppeteerScraper_run_tasks_step.
    edestruct IH as (vs & w' & -> & Hlen & Hall & _ & Hdraws & added & Hlogs
                     & Hlevels).
    cbn [w_draws w_logs] in Hdraws, Hlogs.
    eexists (_ :: vs), w'. split; [by rewrite <- app_assoc|].
    split; [simpl; by rewrite Hlen|]. split; [by constructor|].
    split; [by intros v [= <-]|]. split; [rewrite Hdraws; simpl; lia|].
    eexists (_ :: added). split; [rewrite Hlogs; by rewrite <- app_assoc|].
    simpl. by rewrite Hlevels.
Qed.

(** The vision scraper rejects a blank name like the others.  For any
    other name it returns: the four tasks give the same features, text and
    specifications, so the record holds the features of the name's family
    once, the extracted text as description and the family's
    specifications; the price and the rating are those drawn for the first
    task.  Twelve random numbers are drawn and six [info] entries are
    logged. *)
Theorem PuppeteerScraper_scrapeProduct_result
    (productName : string) (w : World Ext) :
  (name_is_blank productName = true →
   fst (PuppeteerScraper.scrapeProduct now random_seq wait productName w) =
   Throw (ErrorObject "Product name is required")) ∧
  (name_is_blank productName = false →
   ∃ p w',
     PuppeteerScraper.scrapeProduct now random_seq wait productName w =
     (Normal p, w') ∧
     m_name p = productName ∧
     m_features p = PuppeteerScraper.getMockVisualFeatures productName ∧
     m_description p = PuppeteerScraper.getMockExtractedText productName ∧
     m_availability p = "Visually confirmed in stock" ∧
     m_specifications p = PuppeteerScraper.getMockVisualSpecs productName ∧
     m_images p = [] ∧
     ((0 <= random_seq (w_draws w))%Q → (random_seq (w_draws w) < 1)%Q →
      (0 <= random_seq (S (w_draws w)))%Q → (random_seq (S (w_draws w)) < 1)%Q →
      array_get PuppeteerScraper.prices
        (random_index (random_seq (w_draws w)) 6) = Some (m_price p) ∧
      array_get PuppeteerScraper.ratings
        (random_index (random_seq (S (w_draws w))) 4) = Some (m_rating p)) ∧
     w_draws w' = (12 + w_draws w)%nat ∧
     ∃ added,
       w_logs w' = w_logs w ++ added ∧ map level added = replicate 6 LInfo).
Proof.
  split.
  - intros Hblank. unfold PuppeteerScraper.scrapeProduct. rewrite Hblank.
    unfold_vision. reflexivity.
  - intros Hname. unfold PuppeteerScraper.scrapeProduct. rewrite Hname.
    unfold_vision. cbn [fst snd w_logs w_draws w_ext].
    edestruct (PuppeteerScraper_run_tasks_run productName
                 PuppeteerScraper.visionTasks [])
      as (vs & w1 & -> & Hlen & Hall & Hhead & Hdraws & added & Hlogs & Hlevels).
    cbn [w_logs w_draws w_ext] in Hhead, Hdraws, Hlogs.
    destruct vs as [|v1 [|v2 [|v3 [|v4 [|? ?]]]]]; try discriminate Hlen.
    clear Hlen. destruct (Hhead v1 eq_refl) as [Hprice Hrating]. clear Hhead.
    apply Forall_cons in Hall as [(Hf1 & Ht1 & Hs1 & Ha1) Hall].
    apply Forall_cons in Hall as [(Hf2 & Ht2 & Hs2 & Ha2) Hall].
    apply Forall_cons in Hall as [(Hf3 & Ht3 & Hs3 & Ha3) Hall].
    apply Forall_cons in Hall as [(Hf4 & Ht4 & Hs4 & Ha4) _].
    cbn [app length Nat.eqb].
    eexists _, _. split; [reflexivity|].
    pose proof (getMockVisualFeatures_NoDup productName) as Hnd.
    pose proof (getMockExtractedText_nonempty productName) as Htext.
    unfold PuppeteerScraper.aggregateVisionResults.
    cbn [fold_left PuppeteerScraper.aggregate_step merged_init m_name m_price
         m_rating m_features m_description m_availability m_images
         m_specifications].
    rewrite Hf1, Hf2, Hf3, Hf4, Ht1, Ht2, Ht3, Ht4, Hs1, Hs2, Hs3, Hs4,
      Ha1, Ha2, Ha3, Ha4.
    split; [reflexivity|]. split.
    { set (F := PuppeteerScraper.getMockVisualFeatures productName) in *.
      assert (union_array [] (Some F) = F) as E1.
      { rewrite union_array_set_add_all by apply NoDup_nil_2.
        exact (array_from_set_NoDup_id _ Hnd). }
      assert (union_array F (Some F) = F) as E2.
      { rewrite union_array_set_add_all by done.
        by apply set_add_all_known. }
      by rewrite E1, !E2. }
    split.
    { rewrite (first_writer_taken _ Htext).
      by rewrite !(first_writer_kept _ _ Htext). }
    split; [reflexivity|]. split.
    { cbn [spread_specs]. rewrite (right_id_L ∅ (∪)).
      by rewrite !(idemp_L (∪)). }
    split; [reflexivity|]. split.
    + intros H0 H1 H2 H3.
      destruct (array_get_in_range PuppeteerScraper.prices
                  (random_seq (w_draws w))) as (i & s & Hi & Hs & Hget);
        [done..|].
      destruct (array_get_in_range PuppeteerScraper.ratings
                  (random_seq (S (w_draws w)))) as (j & r & Hj & Hr & Hgetr);
        [done..|].
      assert (truthy_str s = true) as Hs'.
      { apply truthy_str_true. intros ->.
        do 6 (destruct i as [|i]; [discriminate Hs|]). simpl in Hi. lia. }
      assert (truthy_str r = true) as Hr'.
      { apply truthy_str_true. intros ->.
        do 4 (destruct j as [|j]; [discriminate Hr|]). simpl in Hj. lia. }
      rewrite Hprice, Hrating.
      change (length PuppeteerScraper.prices) with 6%nat in Hget.
      change (length PuppeteerScraper.ratings) with 4%nat in Hgetr.
      rewrite Hget, Hgetr.
      rewrite (first_writer_taken s Hs'), !(first_writer_kept s _ Hs').
      rewrite (first_writer_taken r Hr'), !(first_writer_kept r _ Hr').
      done.
    + split; [rewrite Hdraws; reflexivity|].
      eexists (_ :: added ++ [_]). split.
      * cbn [w_logs]. rewrite Hlogs. by rewrite <- !app_assoc.
      * simpl. rewrite map_app, Hlevels. reflexivity.
Qed.
End PuppeteerScraperFacts.

Lemma PuppeteerScraper_scrapeProduct_result_witness :
  ∃ p w',
    PuppeteerScraper.scrapeProduct sample_now sample_random sample_wait
      "Galaxy S24" sample_world = (Normal p, w') ∧
    m_price p = "$999" ∧ m_rating p = "4.4/5 (OCR extracted)" ∧
    length (m_features p) = 9%nat ∧ w_draws w' = 12%nat.
Proof.
  destruct (proj2 (PuppeteerScraper_scrapeProduct_result sample_now
                     sample_random sample_wait "Galaxy S24" sample_world))
    as (p & w' & Hrun & _ & Hfeatures & _ & _ & _ & _ & Hdrawn & Hdraws & _).
  { reflexivity. }
  exists p, w'. split; [exact Hrun|].
  destruct Hdrawn as [Hprice Hrating]; [by vm_compute..|].
  vm_compute in Hprice, Hrating.
  split; [by injection Hprice|]. split; [by injection Hrating|].
  split; [by rewrite Hfeatures|exact Hdraws].
Defined.

(** ** The aggregation of the AI strategies *)

Module ScrapybaraBrowserFacts.
Import ScrapybaraBrowser.

Lemma or_default_truthy s fallback :
  truthy_str fallback = true → truthy_str (or_default s fallback) = true.
Proof. intros Hf. unfold or_default. by destruct (truthy_str s) eqn:Hs. Qed.

Lemma or_default_kept s fallback :
  truthy_str s = true → or_default s fallback = s.
Proof. intros Hs. unfold or_default. by rewrite Hs. Qed.

Lemma fold_name results st :
  m_name (aggregated (fold_left aggregate_step results st)) =
  m_name (aggregated st).
Proof.
  revert st. induction results as [|r rs IH]; intros st; simpl; [done|].
  by rewrite IH.
Qed.

Lemma fold_images results st :
  m_images (aggregated (fold_left aggregate_step results st)) =
  m_images (aggregated st).
Proof.
  revert st. induction results as [|r rs IH]; intros st; simpl; [done|].
  by rewrite IH.
Qed.

Lemma fold_price results st :
  m_price (aggregated (fold_left aggregate_step results st)) =
  m_price (aggregated st).
Proof.
  revert st. induction results as [|r rs IH]; intros st; simpl; [done|].
  by rewrite IH.
Qed.

(** Results that are no review with a rating leave the rating alone. *)
Lemma fold_rating_kept results st :
  (∀ r, r ∈ results →
        ¬ (strategy r = "Review Analysis" ∧ truthy (d_rating (data r)) = true)) →
  m_rating (aggregated (fold_left aggregate_step results st)) =
  m_rating (aggregated st).
Proof.
  revert st. induction results as [|r rs IH]; intros st Hall; simpl; [done|].
  rewrite IH by (intros r' Hr'; apply Hall; by right). simpl.
  destruct (String.eqb (strategy r) "Review Analysis") eqn:Heq; [|done].
  destruct (truthy (d_rating (data r))) eqn:Ht; [|done].
  exfalso. apply (Hall r); [by left|]. split; [|done].
  by apply String.eqb_eq.
Qed.

(** Results whose confidence does not exceed the highest one so far change
    neither that confidence nor the source of the price. *)
Lemma fold_confidence_kept results st :
  (∀ r, r ∈ results → (confidence (data r) <= highestConfidence st)%Q) →
  highestConfidence (fold_left aggregate_step results st) =
    highestConfidence st ∧
  bestPriceData (fold_left aggregate_step results st) = bestPriceData st.
Proof.
  revert st. induction results as [|r rs IH]; intros st Hall; simpl; [done|].
  assert (Qltb (highestConfidence st) (confidence (data r)) = false) as Hlt.
  { unfold Qltb. apply Z.ltb_ge. apply (Hall r). by left. }
  destruct (IH (aggregate_step st r)) as [Hc Hb].
  { intros r' Hr'. simpl. rewrite Hlt. apply Hall. by right. }
  rewrite Hc, Hb. simpl. by rewrite Hlt.
Qed.

Lemma aggregateAIResults_fields_nonempty results productName :
  let p := aggregateAIResults results productName in
  truthy_str (m_price p) = true ∧ truthy_str (m_rating p) = true ∧
  truthy_str (m_availability p) = true ∧ truthy_str (m_description p) = true.
Proof.
  simpl. repeat split; try by apply or_default_truthy.
  apply truthy_str_true. by apply string_app_nonempty_r.
Qed.

End ScrapybaraBrowserFacts.

(** Whatever the strategies returned, also nothing at all, the product of
    [aggregateAIResults] has a non-empty price, rating, availability and
    description, carries the product name, and its specifications hold
    the analysis method and a confidence. *)
Theorem aggregateAIResults_never_empty
    (results : list ScrapybaraBrowser.StrategyResult) (productName : string) :
  let p := ScrapybaraBrowser.aggregateAIResults results productName in
  m_name p = productName ∧
  truthy_str (m_price p) = true ∧ truthy_str (m_rating p) = true ∧
  truthy_str (m_availability p) = true ∧
  truthy_str (m_description p) = true ∧
  m_images p = [] ∧
  m_specifications p !! "Analysis Method" = Some "ScrapybaraBrowser AI" ∧
  is_Some (m_specifications p !! "AI Confidence").
Proof.
  intros p.
  destruct (ScrapybaraBrowserFacts.aggregateAIResults_fields_nonempty
              results productName) as (Hp & Hr & Ha & Hd).
  split; [apply ScrapybaraBrowserFacts.fold_name|].
  do 4 (split; [done|]).
  split; [apply ScrapybaraBrowserFacts.fold_images|].
  unfold p, ScrapybaraBrowser.aggregateAIResults.
  cbn [m_specifications]. split.
  - apply lookup_insert_eq.
  - rewrite lookup_insert_ne by done. rewrite lookup_insert_eq. eauto.
Qed.

(** The route lists [ScrapybaraBrowser] first; since its product has no
    empty scalar, the top-level merge takes price, rating, description and
    availability from it whenever it succeeded, whatever the scrapers
    after it returned. *)
Theorem mergeProductData_prefers_aggregateAIResults
    (results : list ScrapybaraBrowser.StrategyResult)
    (others : list ScraperResult) (productName name : string) :
  let p := ScrapybaraBrowser.aggregateAIResults results productName in
  let merged := mergeProductData (product_as_result p :: others) name in
  ∀ f, merged_field f merged = merged_field f p.
Proof.
  intros p merged f.
  destruct (ScrapybaraBrowserFacts.aggregateAIResults_fields_nonempty
              results productName) as (Hp & Hr & Ha & Hd).
  apply (mergeProductData_field_first f [] (product_as_result p) others).
  - intros r Hr'. by apply elem_of_nil in Hr'.
  - by destruct f.
  - apply truthy_str_true. by destruct f.
Qed.

(** The rating is the one place where a later result overwrites: the
    rating of the last "Review Analysis" result that has one is the rating
    of the product, whatever the confidences and whatever the result the
    price comes from. *)
Theorem aggregateAIResults_rating_last_review
    (before after : list ScrapybaraBrowser.StrategyResult)
    (r : ScrapybaraBrowser.StrategyResult) (s productName : string) :
  ScrapybaraBrowser.strategy r = "Review Analysis" →
  ScrapybaraBrowser.d_rating (ScrapybaraBrowser.data r) = Some s →
  s ≠ "" →
  (∀ r', r' ∈ after →
     ¬ (ScrapybaraBrowser.strategy r' = "Review Analysis" ∧
        truthy (ScrapybaraBrowser.d_rating (ScrapybaraBrowser.data r')) = true)) →
  m_rating
    (ScrapybaraBrowser.aggregateAIResults (before ++ r :: after) productName) =
  s.
Proof.
  intros Hstrategy Hrating Hs Hafter.
  apply truthy_str_true in Hs.
  unfold ScrapybaraBrowser.aggregateAIResults. cbn [m_rating].
  rewrite fold_left_app. cbn [fold_left].
  set (st := fold_left _ before _).
  rewrite (ScrapybaraBrowserFacts.fold_rating_kept after _ Hafter).
  cbn [ScrapybaraBrowser.aggregate_step ScrapybaraBrowser.aggregated m_rating].
  rewrite Hstrategy, Hrating. rewrite truthy_Some, Hs. cbn [String.eqb].
  replace (String.eqb "Review Analysis" "Review Analysis") with true
    by reflexivity.
  cbn [andb default].
  assert (∀ v, first_writer s v = s) as Hkept
    by (intros v; by apply first_writer_kept).
  destruct (ScrapybaraBrowser.bestPriceData _);
    rewrite ?Hkept; by apply ScrapybaraBrowserFacts.or_default_kept.
Qed.

(** The price is taken from a result only at the moment that result raises
    the highest confidence seen so far.  So when the first result has a
    positive confidence which no later result exceeds, the price is the one
    of the first result, and if that result has none the product gets the
    placeholder, whatever prices the later results carry. *)
Theorem aggregateAIResults_leading_confidence
    (r0 : ScrapybaraBrowser.StrategyResult)
    (rest : list ScrapybaraBrowser.StrategyResult) (productName : string) :
  let c := ScrapybaraBrowser.confidence (ScrapybaraBrowser.data r0) in
  let p := ScrapybaraBrowser.aggregateAIResults (r0 :: rest) productName in
  (0 < c)%Q →
  (∀ r, r ∈ rest →
     (ScrapybaraBrowser.confidence (ScrapybaraBrowser.data r) <= c)%Q) →
  m_price p =
    (if truthy (ScrapybaraBrowser.d_price (ScrapybaraBrowser.data r0))
     then default "" (ScrapybaraBrowser.d_price (ScrapybaraBrowser.data r0))
     else "Price analysis in progress").
Proof.
  intros c p Hpos Hrest.
  assert (Qltb 0 c = true) as Hraised.
  { unfold Qltb. apply Z.ltb_lt. exact Hpos. }
  unfold p, ScrapybaraBrowser.aggregateAIResults. cbn [fold_left].
  set (st1 := ScrapybaraBrowser.aggregate_step _ r0).
  assert (ScrapybaraBrowser.highestConfidence st1 = c) as Hc1.
  { unfold st1. simpl. fold c. by rewrite Hraised. }
  assert (ScrapybaraBrowser.bestPriceData st1 =
          if truthy (ScrapybaraBrowser.d_price (ScrapybaraBrowser.data r0))
          then Some (ScrapybaraBrowser.data r0) else None) as Hb1.
  { unfold st1. simpl. fold c. by rewrite Hraised. }
  destruct (ScrapybaraBrowserFacts.fold_confidence_kept rest st1) as [Hc Hb].
  { intros r Hr. rewrite Hc1. by apply Hrest. }
  cbn [m_price]. rewrite Hb, Hb1.
  rewrite ScrapybaraBrowserFacts.fold_price.
  destruct (truthy (ScrapybaraBrowser.d_price (ScrapybaraBrowser.data r0)))
    eqn:Hprice.
  - destruct (ScrapybaraBrowser.d_price (ScrapybaraBrowser.data r0))
      as [s|]; [|done].
    rewrite truthy_Some in Hprice.
    by apply ScrapybaraBrowserFacts.or_default_kept.
  - reflexivity.
Qed.

Lemma aggregateAIResults_rating_last_review_witness :
  m_rating
    (ScrapybaraBrowser.aggregateAIResults
       ([sample_ecommerce; sample_price_comparison] ++
        sample_review :: [sample_specification]) "Widget") =
  "4.6/5 (3000 AI-analyzed reviews)".
Proof.
  apply (aggregateAIResults_rating_last_review
           [sample_ecommerce; sample_price_comparison] [sample_specification]
           sample_review "4.6/5 (3000 AI-analyzed reviews)" "Widget").
  - reflexivity.
  - reflexivity.
  - discriminate.
  - intros r' Hr' [Hs _]. apply list_elem_of_singleton in Hr'. subst r'.
    discriminate Hs.
Defined.

Lemma aggregateAIResults_leading_confidence_witness :
  m_price
    (ScrapybaraBrowser.aggregateAIResults
       [sample_specification; sample_price_comparison] "Widget") =
  "Price analysis in progress".
Proof.
  apply (aggregateAIResults_leading_confidence sample_specification
           [sample_price_comparison] "Widget").
  - reflexivity.
  - intros r Hr. apply list_elem_of_singleton in Hr. subst r.
    by vm_compute.
Defined.

(** ** The page and the guards behind it *)

Lemma trimStart_length (n : nat) :
  ∀ s, (String.length s ≤ n)%nat →
       (String.length (trimStart s) ≤ String.length s)%nat.
Proof.
  induction n as [|n IH]; intros s Hn.
  - destruct s; [done|simpl in Hn; lia].
  - destruct s as [|c1 [|c2 [|c3 s3]]]; [done|..]; simpl in Hn |- *.
    + destruct (is_space c1); simpl; lia.
    + destruct (is_space c1).
      { destruct (is_space c2); simpl; lia. }
      destruct (is_space2 c1 c2); simpl; lia.
    + destruct (is_space c1).
      { pose proof (IH (String c2 (String c3 s3))) as H. simpl in H.
        specialize (H ltac:(lia)). lia. }
      destruct (is_space2 c1 c2).
      { pose proof (IH (String c3 s3)) as H. simpl in H.
        specialize (H ltac:(lia)). lia. }
      destruct (is_space3 c1 c2 c3); [|simpl; lia].
      pose proof (IH s3 ltac:(lia)). lia.
Qed.

(** What [trimStart] returns does not start with white space. *)
Lemma trimStart_idemp_by_length (n : nat) :
  ∀ s, (String.length s ≤ n)%nat → trimStart (trimStart s) = trimStart s.
Proof.
  induction n as [|n IH]; intros s Hn.
  - destruct s; [done|simpl in Hn; lia].
  - destruct s as [|c1 [|c2 [|c3 s3]]]; [done|..]; simpl in Hn.
    + simpl. destruct (is_space c1) eqn:H1; [done|]. simpl. by rewrite H1.
    + cbn [trimStart]. destruct (is_space c1) eqn:H1.
      { destruct (is_space c2) eqn:H2; [done|]. simpl. by rewrite H2. }
      destruct (is_space2 c1 c2) eqn:H12; [done|].
      cbn [trimStart]. by rewrite H1, H12.
    + cbn [trimStart]. destruct (is_space c1) eqn:H1.
      { apply (IH (String c2 (String c3 s3))). simpl. lia. }
      destruct (is_space2 c1 c2) eqn:H12.
      { apply (IH (String c3 s3)). simpl. lia. }
      destruct (is_space3 c1 c2 c3) eqn:H123.
      { apply IH. lia. }
      cbn [trimStart]. by rewrite H1, H12, H123.
Qed.

Lemma trimStart_idemp s : trimStart (trimStart s) = trimStart s.
Proof. by apply (trimStart_idemp_by_length (String.length s)). Qed.

(** [trimEnd] leaves nothing exactly of the strings that are white space
    throughout. *)
Lemma trimEnd_empty s : trimEnd s = "" ↔ trimStart s = "".
Proof.
  destruct s as [|c s]; [done|]. cbn [trimEnd].
  destruct (String.eqb_spec (trimStart (String c s)) ""); split; done.
Qed.

(** A string that starts with white space is changed by [trimStart]. *)
Lemma trimStart_fixed_head c1 s1 :
  trimStart (String c1 s1) = String c1 s1 →
  is_space c1 = false ∧
  match s1 with
  | EmptyString => True
  | String c2 s2 =>
      is_space2 c1 c2 = false ∧
      match s2 with
      | EmptyString => True
      | String c3 _ => is_space3 c1 c2 c3 = false
      end
  end.
Proof.
  intros Hfix.
  assert (∀ t, (String.length t < String.length (String c1 s1))%nat →
               trimStart t ≠ String c1 s1) as Hshort.
  { intros t Ht Heq.
    pose proof (trimStart_length (String.length t) t ltac:(lia)) as Hle.
    rewrite Heq in Hle. lia. }
  cbn [trimStart] in Hfix. destruct (is_space c1) eqn:H1.
  { exfalso. apply (Hshort s1); [simpl; lia|done]. }
  split; [done|]. destruct s1 as [|c2 s2]; [done|].
  destruct (is_space2 c1 c2) eqn:H12.
  { exfalso. apply (Hshort s2); [simpl; lia|done]. }
  split; [done|]. destruct s2 as [|c3 s3]; [done|].
  destruct (is_space3 c1 c2 c3) eqn:H123; [|done].
  exfalso. apply (Hshort s3); [simpl; lia|done].
Qed.

(** Cutting the end of a string that does not start with white space
    gives a string that does not start with white space. *)
Lemma trimStart_trimEnd s :
  trimStart s = s → trimStart (trimEnd s) = trimEnd s.
Proof.
  intros Hfix. destruct s as [|c1 s1]; [done|].
  destruct (trimStart_fixed_head c1 s1 Hfix) as [H1 Hrest].
  cbn [trimEnd]. rewrite Hfix. cbn [String.eqb].
  destruct s1 as [|c2 s2].
  { cbn [trimEnd trimStart]. by rewrite H1. }
  destruct Hrest as [H12 Hrest]. cbn [trimEnd].
  destruct (String.eqb (trimStart (String c2 s2)) "").
  { cbn [trimStart]. by rewrite H1. }
  destruct s2 as [|c3 s3].
  { cbn [trimEnd trimStart]. by rewrite H1, H12. }
  cbn [trimEnd].
  destruct (String.eqb (trimStart (String c3 s3)) "").
  { cbn [trimStart]. by rewrite H1, H12. }
  cbn [trimStart]. by rewrite H1, H12, Hrest.
Qed.

(** A trimmed string is all white space only if it is empty. *)
Lemma trim_trim_empty s : trim (trim s) = "" ↔ trim s = "".
Proof.
  assert (trimStart (trim s) = trim s) as Hstart.
  { unfold trim. apply trimStart_trimEnd, trimStart_idemp. }
  unfold trim at 1. rewrite Hstart. rewrite trimEnd_empty. by rewrite Hstart.
Qed.

Lemma name_is_blank_trim s : name_is_blank (trim s) = negb (truthy_str (trim s)).
Proof.
  unfold name_is_blank.
  destruct (truthy_str (trim s)) eqn:Ht; simpl; [|done].
  apply Nat.eqb_neq. intros Hlen. apply string_length_zero in Hlen.
  apply truthy_str_true in Ht. apply Ht. by apply trim_trim_empty.
Qed.

(** White space outside ASCII is trimmed, and [length] counts code units. *)
Example trim_unicode_white_space :
  trim (nbsp +:+ " iPhone 15" +:+ em_space +:+ nbsp) = "iPhone 15" ∧
  trim (nbsp +:+ em_space) = "" ∧
  name_is_blank nbsp = true ∧
  length_utf16 ("a" +:+ nbsp +:+ phone_emoji) = 4%nat.
Proof. by vm_compute. Qed.

(** What the page sends is never blank: a request goes out only with a
    method selected and with both names trimmed and not empty, so the names
    it carries pass the guard of the route ([!product1 || !product2]) and
    the guard every scraper starts with. *)
Theorem handleCompare_sends_no_blank_name
    (name1 name2 : string) (selectedMethods : list string) (req : Request) :
  handleCompare_request name1 name2 selectedMethods = Some req →
  req = mkRequest (Some (trim name1)) (Some (trim name2))
          (MethodsArray selectedMethods) ∧
  selectedMethods ≠ [] ∧
  truthy (product1 req) = true ∧ truthy (product2 req) = true ∧
  name_is_blank (trim name1) = false ∧ name_is_blank (trim name2) = false.
Proof.
  unfold handleCompare_request. intros Hreq.
  destruct (truthy_str (trim name1)) eqn:H1; [|discriminate Hreq].
  destruct (truthy_str (trim name2)) eqn:H2; [|discriminate Hreq].
  destruct selectedMethods as [|m ms]; [discriminate Hreq|].
  simpl in Hreq. injection Hreq as <-. cbn [product1 product2].
  rewrite !truthy_Some, !name_is_blank_trim, H1, H2. done.
Qed.

(** Names the button accepts are sent: if [validateInput] holds of both
    names and a method is selected, [handleCompare] sends the request, and
    the names in it have between 2 and 100 code units. *)
Theorem validateInput_names_are_sent
    (name1 name2 : string) (selectedMethods : list string) :
  validateInput name1 = true → validateInput name2 = true →
  selectedMethods ≠ [] →
  handleCompare_request name1 name2 selectedMethods =
    Some (mkRequest (Some (trim name1)) (Some (trim name2))
            (MethodsArray selectedMethods)) ∧
  (2 <= length_utf16 (trim name1) <= 100)%nat ∧
  (2 <= length_utf16 (trim name2) <= 100)%nat.
Proof.
  unfold validateInput. intros H1 H2 Hms.
  apply andb_prop in H1 as [H1a H1b]. apply andb_prop in H2 as [H2a H2b].
  apply Nat.leb_le in H1a, H1b, H2a, H2b.
  split; [|lia].
  unfold handleCompare_request.
  assert (∀ s, (2 <= length_utf16 s)%nat → truthy_str s = true) as Hne.
  { intros s Hs. apply truthy_str_true. intros ->. simpl in Hs. lia. }
  rewrite (Hne _ H1a), (Hne _ H2a). simpl.
  by destruct selectedMethods.
Qed.

Lemma handleCompare_sends_no_blank_name_witness :
  mkRequest (Some "iPhone 15") (Some "Galaxy S24")
    (MethodsArray ["playwright"]) =
    mkRequest (Some (trim (nbsp +:+ " iPhone 15 ")))
      (Some (trim "Galaxy S24")) (MethodsArray ["playwright"]) ∧
  ["playwright"] ≠ [] ∧
  truthy (Some "iPhone 15") = true ∧ truthy (Some "Galaxy S24") = true ∧
  name_is_blank (trim (nbsp +:+ " iPhone 15 ")) = false ∧
  name_is_blank (trim "Galaxy S24") = false.
Proof.
  apply (handleCompare_sends_no_blank_name (nbsp +:+ " iPhone 15 ")
           "Galaxy S24" ["playwright"]
           (mkRequest (Some "iPhone 15") (Some "Galaxy S24")
              (MethodsArray ["playwright"]))).
  reflexivity.
Defined.

Lemma validateInput_names_are_sent_witness :
  handleCompare_request (nbsp +:+ " iPhone 15 ") "Galaxy S24" ["playwright"] =
    Some (mkRequest (Some (trim (nbsp +:+ " iPhone 15 ")))
            (Some (trim "Galaxy S24")) (MethodsArray ["playwright"])) ∧
  (2 <= length_utf16 (trim (nbsp +:+ " iPhone 15 ")) <= 100)%nat ∧
  (2 <= length_utf16 (trim "Galaxy S24") <= 100)%nat.
Proof.
  apply (validateInput_names_are_sent (nbsp +:+ " iPhone 15 ") "Galaxy S24"
           ["playwright"]); [reflexivity|reflexivity|discriminate].
Defined.

(** A name of white space outside ASCII, [validateInput] turns down, and
    [handleCompare] sends nothing for it. *)
Example page_rejects_unicode_blank :
  validateInput (nbsp +:+ em_space +:+ "a") = false ∧
  handleCompare_request (nbsp +:+ em_space) "Galaxy S24" ["playwright"] = None.
Proof. by vm_compute. Qed.

(** The three scrapers reject a name of white space outside ASCII. *)
Example scrapers_reject_unicode_blank :
  fst (ScrapybaraBrowser_scrapeProduct sample_now returning_scrapeProduct
         (nbsp +:+ em_space) sample_world) =
    Throw (ErrorObject "Product name is required") ∧
  fst (PlaywrightScraper.scrapeProduct sample_now sample_random sample_wait
         (nbsp +:+ em_space) sample_world) =
    Throw (ErrorObject "Product name is required") ∧
  fst (PuppeteerScraper.scrapeProduct sample_now sample_random sample_wait
         (nbsp +:+ em_space) sample_world) =
    Throw (ErrorObject "Product name is required").
Proof. by vm_compute. Qed.
